(** * Redis cluster proxy: slot routing, command framing, redirection and pooling

    A shallow embedding of the routing engine of the proxy
    (cluster.go, protocol.go, proxy.go, pool.go) together with the
    properties of its specification.

    Conventions.
    - A Go [string] is a sequence of bytes: it is modelled by [string]
      (a list of 8-bit [ascii] characters, every byte value allowed).
    - A Go [int] is modelled by [Z]; where the source relies on the 64-bit
      range (strconv.Atoi) the range test is written out.
    - [uint16] arithmetic is [Z] with the wrap-around [wrap16] written out.
    - A run-time panic (index out of range) is an explicit result, and so
      is a call that does not come back (a write, or a read with no
      deadline, on a socket on which nothing happens). *)

From Stdlib Require Import ZArith NArith Lia Bool Ascii String DecimalString DecimalPos.
From stdpp Require Import base option list gmap strings.

Local Open Scope Z_scope.

(* ===================================================================== *)
(** * Bytes and the parts of Go's [strings] package that the proxy uses   *)
(* ===================================================================== *)

Module GoStrings.

(** [len(s)] *)
Definition len (s : string) : Z := Z.of_nat (String.length s).

(** The numeric value of a byte. *)
Definition byte_val (c : ascii) : Z := Z.of_N (N_of_ascii c).

(** [s[lo:hi]], for [0 <= lo <= hi <= len s] (every call site of the proxy
    establishes these bounds before slicing). *)
Definition slice (s : string) (lo hi : Z) : string :=
  String.substring (Z.to_nat lo) (Z.to_nat (hi - lo)) s.

(** [s[lo:]] *)
Definition slice_from (s : string) (lo : Z) : string := slice s lo (len s).

(** [strings.HasPrefix(s, p)] *)
Fixpoint HasPrefix (s p : string) {struct p} : bool :=
  match p, s with
  | EmptyString, _ => true
  | String _ _, EmptyString => false
  | String b p', String a s' => if Ascii.eqb a b then HasPrefix s' p' else false
  end.

(** [strings.Index(s, substr)]: byte offset of the first occurrence, or -1. *)
Fixpoint Index (s substr : string) : Z :=
  if HasPrefix s substr then 0
  else match s with
       | EmptyString => -1
       | String _ s' => let i := Index s' substr in if i =? -1 then -1 else i + 1
       end.

(** [strings.Contains(s, substr)] *)
Definition Contains (s substr : string) : bool := negb (Index s substr =? -1).

(** ** White space

    [strings.TrimSpace] and [strings.Fields] cut at the runes of
    [unicode.IsSpace]: the six ASCII ones and, in UTF-8, U+0085, U+00A0,
    U+1680, U+2000..U+200A, U+2028, U+2029, U+202F, U+205F and U+3000. *)

Definition asciiSpace (c : ascii) : bool :=
  let v := byte_val c in
  (v =? 9) || (v =? 10) || (v =? 11) || (v =? 12) || (v =? 13) || (v =? 32).

Definition of_bytes (l : list Z) : string :=
  fold_right (fun z s => String (ascii_of_N (Z.to_N z)) s) EmptyString l.

Definition unicodeSpaces : list string :=
  map of_bytes
    [ [0xC2; 0x85]; [0xC2; 0xA0]; [0xE1; 0x9A; 0x80];
      [0xE2; 0x80; 0x80]; [0xE2; 0x80; 0x81]; [0xE2; 0x80; 0x82];
      [0xE2; 0x80; 0x83]; [0xE2; 0x80; 0x84]; [0xE2; 0x80; 0x85];
      [0xE2; 0x80; 0x86]; [0xE2; 0x80; 0x87]; [0xE2; 0x80; 0x88];
      [0xE2; 0x80; 0x89]; [0xE2; 0x80; 0x8A]; [0xE2; 0x80; 0xA8];
      [0xE2; 0x80; 0xA9]; [0xE2; 0x80; 0xAF]; [0xE2; 0x81; 0x9F];
      [0xE3; 0x80; 0x80] ].

Fixpoint first_prefix (s : string) (ps : list string) : nat :=
  match ps with
  | [] => 0%nat
  | p :: ps' => if HasPrefix s p then String.length p else first_prefix s ps'
  end.

(** Width in bytes of the white-space rune at the head of [s]; 0 if the
    head of [s] is not white space. *)
Definition space_width (s : string) : nat :=
  match s with
  | EmptyString => 0%nat
  | String c _ => if asciiSpace c then 1%nat else first_prefix s unicodeSpaces
  end.

Fixpoint drop (n : nat) (s : string) : string :=
  match n, s with
  | O, _ => s
  | S _, EmptyString => EmptyString
  | S n', String _ s' => drop n' s'
  end.

Fixpoint rev_onto (s acc : string) : string :=
  match s with
  | EmptyString => acc
  | String c s' => rev_onto s' (String c acc)
  end.

Definition rev (s : string) : string := rev_onto s EmptyString.

(** Width of the white-space rune that ends the string whose reversal is
    [r] (the rune found by [utf8.DecodeLastRuneInString]). *)
Definition space_width_last (r : string) : nat :=
  match r with
  | EmptyString => 0%nat
  | String c _ => if asciiSpace c then 1%nat else first_prefix r (map rev unicodeSpaces)
  end.

Fixpoint trim_head (width : string -> nat) (fuel : nat) (s : string) : string :=
  match fuel with
  | O => s
  | S fuel' =>
      match width s with
      | O => s
      | w => trim_head width fuel' (drop w s)
      end
  end.

Definition TrimLeftSpace (s : string) : string :=
  trim_head space_width (String.length s) s.

Definition TrimRightSpace (s : string) : string :=
  rev (trim_head space_width_last (String.length s) (rev s)).

(** [strings.TrimSpace(s)] *)
Definition TrimSpace (s : string) : string := TrimRightSpace (TrimLeftSpace s).

(** The scan of [strings.Fields]: [cur] holds, reversed, the bytes of the
    field being read. *)
Fixpoint fields_scan (fuel : nat) (s cur : string) : list string :=
  let flush := match cur with EmptyString => [] | _ => [rev cur] end in
  match fuel with
  | O => flush
  | S fuel' =>
      match s with
      | EmptyString => flush
      | String c s' =>
          match space_width s with
          | O => fields_scan fuel' s' (String c cur)
          | w => flush ++ fields_scan fuel' (drop w s) EmptyString
          end
      end
  end.

(** [strings.Fields(s)] *)
Definition Fields (s : string) : list string :=
  fields_scan (S (String.length s)) s EmptyString.

(** [strings.Split(s, sep)] for a separator that is not empty (the proxy
    only splits at ["-"], [","] and the line feed). *)
Fixpoint split_scan (fuel : nat) (s sep : string) : list string :=
  match fuel with
  | O => [s]
  | S fuel' =>
      let m := Index s sep in
      if m =? -1 then [s]
      else slice s 0 m :: split_scan fuel' (slice_from s (m + len sep)) sep
  end.

Definition Split (s sep : string) : list string :=
  split_scan (String.length s) s sep.

(** ** Letter case *)

Definition isASCII (s : string) : bool :=
  forallb (fun c => byte_val c <? 128) (list_ascii_of_string s).

Definition upper_byte (c : ascii) : ascii :=
  let v := byte_val c in
  if (97 <=? v) && (v <=? 122) then ascii_of_N (Z.to_N (v - 32)) else c.

Fixpoint map_bytes (f : ascii -> ascii) (s : string) : string :=
  match s with
  | EmptyString => EmptyString
  | String c s' => String (f c) (map_bytes f s')
  end.

(** ** Decimal numbers *)

Definition maxInt : Z := 2 ^ 63 - 1.
Definition minInt : Z := - 2 ^ 63.

Definition digit_val (c : ascii) : option Z :=
  let v := byte_val c - 48 in
  if (0 <=? v) && (v <=? 9) then Some v else None.

(** [n = n*10 + int(ch)] over the digits. *)
Fixpoint parse_digits (n : Z) (s : string) : option Z :=
  match s with
  | EmptyString => Some n
  | String ch s' =>
      match digit_val ch with
      | Some d => parse_digits (n * 10 + d) s'
      | None => None
      end
  end.

(** [strconv.Atoi(s)]: an optional sign and at least one decimal digit; a
    value outside the range of [int] is an error. [None] stands for
    [err != nil]. *)
Definition Atoi (s : string) : option Z :=
  match s with
  | EmptyString => None
  | String c rest =>
      let neg := Ascii.eqb c "-"%char in
      let body := if neg || Ascii.eqb c "+"%char then rest else s in
      match body with
      | EmptyString => None
      | _ =>
          match parse_digits 0 body with
          | None => None
          | Some n =>
              let v := if neg then - n else n in
              if (minInt <=? v) && (v <=? maxInt) then Some v else None
          end
      end
  end.

(** [strconv.Itoa(n)], the rendering of [%d]. *)
Definition Itoa (n : Z) : string := NilZero.string_of_int (Z.to_int n).

(** Line feed and carriage return. *)
Definition LF : ascii := "010"%char.
Definition CR : ascii := "013"%char.
Definition CRLF : string := String CR (String LF EmptyString).

End GoStrings.

Import GoStrings.

(* ===================================================================== *)
(** * cluster.go: slot computation                                        *)
(* ===================================================================== *)

(** Truncation to [uint16]. *)
Definition wrap16 (x : Z) : Z := x mod 65536.

Definition polynomial : Z := 0x1021.

(** One turn of the inner loop of [crc16CCITT]:
    [if crc&0x8000 != 0 { crc = (crc << 1) ^ polynomial } else { crc <<= 1 }]. *)
Definition crc16_shift (crc : Z) : Z :=
  if negb (Z.land crc 0x8000 =? 0)
  then Z.lxor (wrap16 (Z.shiftl crc 1)) polynomial
  else wrap16 (Z.shiftl crc 1).

(** [for i := 0; i < 8; i++ { ... }] *)
Definition crc16_byte (crc : Z) (b : ascii) : Z :=
  let crc := Z.lxor crc (wrap16 (Z.shiftl (byte_val b) 8)) in
  Nat.iter 8 crc16_shift crc.

Fixpoint crc16_from (crc : Z) (data : string) : Z :=
  match data with
  | EmptyString => crc
  | String b rest => crc16_from (crc16_byte crc b) rest
  end.

(** [func crc16CCITT(data []byte) uint16] *)
Definition crc16CCITT (data : string) : Z := crc16_from 0x0000 data.

(** The routing substring chosen by [calculateSlot]: the bytes between the
    first ["{"] and the first ["}"] after it when both exist, the key itself
    otherwise. *)
Definition hashKey (key : string) : string :=
  let start := Index key "{" in
  if negb (start =? -1) then
    let end_ := Index (slice_from key (start + 1)) "}" in
    if negb (end_ =? -1) then slice key (start + 1) (start + 1 + end_)
    else key
  else key.

(** [func (cm *ClusterManager) calculateSlot(key string) int] *)
Definition calculateSlot (key : string) : Z :=
  crc16CCITT (hashKey key) mod 16384.



(* ===================================================================== *)
(** * Errors, panics and results                                          *)
(* ===================================================================== *)

(** Go's [error] values, as far as the proxy tells them apart:
    [io.EOF], [io.ErrUnexpectedEOF] and errors carrying a message. *)
Inductive error : Type :=
  | EOF
  | ErrUnexpectedEOF
  | Errorf (msg : string).

(** [err.Error()] *)
Definition error_text (e : error) : string :=
  match e with
  | EOF => "EOF"
  | ErrUnexpectedEOF => "unexpected EOF"
  | Errorf msg => msg
  end.

(** How a Go function ends: it returns a value ([Ok]), returns an error
    ([Err]), panics ([Panic]), or does not come back at all, because it
    waits on a socket for something that never happens and no deadline is
    set ([Blocked]). [OutOfFuel] belongs to the model alone: a loop or
    recursion written with a bound on its turns was cut short; the bounds
    used are shown to be enough. *)
Inductive result (A : Type) : Type :=
  | Ok (a : A)
  | Err (e : error)
  | Panic
  | Blocked
  | OutOfFuel.
Arguments Ok {A} a.
Arguments Err {A} e.
Arguments Panic {A}.
Arguments Blocked {A}.
Arguments OutOfFuel {A}.

(** The function returned a value. *)
Definition isOk {A : Type} (r : result A) : bool :=
  match r with Ok _ => true | _ => false end.

(* ===================================================================== *)
(** * cluster.go: the shard map                                           *)
(* ===================================================================== *)

(** [type SlotRange struct { Start int; End int }] *)
Record SlotRange := mkSlotRange { Start : Z; End : Z }.

(** [type ClusterNode struct]; [LastPing] is a time stamp. *)
Record ClusterNode := mkClusterNode {
  ID : string;
  Address : string;
  IsMaster : bool;
  Slots : list SlotRange;
  Flags : list string;
  Master : string;
  Health : bool;
  LastPing : Z
}.

(** [type Config struct] *)
Record Config := mkConfig {
  ProxyPort : Z;
  RedisNodes : list string;
  AutoRedirect : bool;
  LogLevel : string;
  LogFile : string
}.

(** The array [slots [16384]string]: a finite map from the index to the
    cell, a cell that was never written holding the zero value, the empty string.
    Indexing is only defined inside the bounds: see [slots_get] and
    [slots_set]. *)
Definition numSlots : Z := 16384.

Definition in_bounds (i : Z) : bool := (0 <=? i) && (i <? numSlots).

(** [arr[i]]; [None] is the run-time panic "index out of range". *)
Definition slots_get (arr : gmap Z string) (i : Z) : option string :=
  if in_bounds i then Some (default EmptyString (arr !! i)) else None.

(** [arr[i] = v]; [None] is the run-time panic "index out of range". *)
Definition slots_set (arr : gmap Z string) (i : Z) (v : string) : option (gmap Z string) :=
  if in_bounds i then Some (<[i := v]> arr) else None.

(** [type ClusterManager struct] (the mutex is left out: the functions
    below are the critical sections). *)
Record ClusterManager := mkClusterManager {
  nodes : gmap string ClusterNode;
  slots : gmap Z string;
  config : Config;
  lastUpdate : Z
}.

(** [func NewClusterManager(config *Config) *ClusterManager] *)
Definition NewClusterManager (config : Config) : ClusterManager :=
  {| nodes := ∅; slots := ∅; config := config; lastUpdate := 0 |}.

(** [func (cm *ClusterManager) parseSlotRange(slotStr string) (SlotRange, error)];
    [None] stands for [err != nil]. *)
Definition parseSlotRange (slotStr : string) : option SlotRange :=
  if Contains slotStr "-" then
    match Split slotStr "-" with
    | [p0; p1] =>
        match Atoi p0, Atoi p1 with
        | Some start, Some end_ => Some {| Start := start; End := end_ |}
        | _, _ => None
        end
    | _ => None
    end
  else
    match Atoi slotStr with
    | Some slot => Some {| Start := slot; End := slot |}
    | None => None
    end.

(** The loop [for i := 8; i < len(parts); i++] of [parseNodeLine]: a slot
    specification that does not parse is skipped. *)
Fixpoint parseSlotSpecs (specs : list string) : list SlotRange :=
  match specs with
  | [] => []
  | spec :: rest =>
      match parseSlotRange spec with
      | Some slotRange => slotRange :: parseSlotSpecs rest
      | None => parseSlotSpecs rest
      end
  end.

(** [func (cm *ClusterManager) parseNodeLine(line string)], returning the node or an error;
    [now] is the value of [time.Now()]. *)
Definition parseNodeLine (now : Z) (line : string) : option ClusterNode :=
  let parts := Fields line in
  match parts with
  | p0 :: p1 :: p2 :: p3 :: _ :: _ :: _ :: _ :: specs =>
      let atIndex := Index p1 "@" in
      let address := if negb (atIndex =? -1) then slice p1 0 atIndex else p1 in
      let flags := Split p2 "," in
      let isMaster := existsb (String.eqb "master") flags in
      Some {| ID := p0;
              Address := address;
              IsMaster := isMaster;
              Slots := if isMaster then parseSlotSpecs specs else [];
              Flags := flags;
              Master := p3;
              Health := true;
              LastPing := now |}
  | _ => None
  end.

(** [for slot := slotRange.Start; slot <= slotRange.End; slot++ {
       cm.slots[slot] = node.Address }].
    Every turn writes one more cell of the array or panics. *)
Fixpoint fillSlots (fuel : nat) (slot end_ : Z) (address : string)
    (arr : gmap Z string) : result (gmap Z string) :=
  if slot <=? end_ then
    match fuel with
    | O => OutOfFuel
    | S fuel' =>
        match slots_set arr slot address with
        | Some arr' => fillSlots fuel' (slot + 1) end_ address arr'
        | None => Panic
        end
    end
  else Ok arr.

(** Turns enough for any range: the array has [numSlots] cells, so the
    loop ends or panics within [numSlots + 1] turns ([fillSlots_fuel]). *)
Definition fillFuel : nat := Z.to_nat (numSlots + 1).

(** [for _, slotRange := range node.Slots { ... }] *)
Fixpoint assignSlots (ranges : list SlotRange) (address : string)
    (arr : gmap Z string) : result (gmap Z string) :=
  match ranges with
  | [] => Ok arr
  | r :: rest =>
      match fillSlots fillFuel (Start r) (End r) address arr with
      | Ok arr' => assignSlots rest address arr'
      | Err e => Err e
      | Panic => Panic
      | Blocked => Blocked
      | OutOfFuel => OutOfFuel
      end
  end.

(** The body of [for _, line := range lines] in [parseClusterNodes]. *)
Fixpoint parseLines (now : Z) (lines : list string)
    (ns : gmap string ClusterNode) (arr : gmap Z string)
    : result (gmap string ClusterNode * gmap Z string) :=
  match lines with
  | [] => Ok (ns, arr)
  | line :: rest =>
      if String.eqb (TrimSpace line) EmptyString then parseLines now rest ns arr
      else
        match parseNodeLine now line with
        | None => parseLines now rest ns arr
        | Some node =>
            let ns' := <[ID node := node]> ns in
            if IsMaster node then
              match assignSlots (Slots node) (Address node) arr with
              | Ok arr' => parseLines now rest ns' arr'
              | Err e => Err e
              | Panic => Panic
              | Blocked => Blocked
              | OutOfFuel => OutOfFuel
              end
            else parseLines now rest ns' arr
        end
  end.

(** [func (cm *ClusterManager) parseClusterNodes(response string) error]:
    the node map and the slot array are emptied and rebuilt (the error
    returned is always nil). *)
Definition parseClusterNodes (now : Z) (cm : ClusterManager) (response : string)
    : result ClusterManager :=
  let lines := Split (TrimSpace response) (String LF EmptyString) in
  match parseLines now lines ∅ ∅ with
  | Ok (ns, arr) =>
      Ok {| nodes := ns; slots := arr; config := config cm; lastUpdate := lastUpdate cm |}
  | Err e => Err e
  | Panic => Panic
  | Blocked => Blocked
  | OutOfFuel => OutOfFuel
  end.

(** [func (cm *ClusterManager) GetNodeForSlot(slot int) string] *)
Definition GetNodeForSlot (cm : ClusterManager) (slot : Z) : result string :=
  if (0 <=? slot) && (slot <? 16384) then
    match slots_get (slots cm) slot with
    | Some addr => Ok addr
    | None => Panic
    end
  else Ok EmptyString.

(** [func (cm *ClusterManager) GetNodeForKey(key string) string] *)
Definition GetNodeForKey (cm : ClusterManager) (key : string) : result string :=
  let slot := calculateSlot key in
  match slots_get (slots cm) slot with
  | None => Panic
  | Some nodeAddr =>
      if String.eqb nodeAddr EmptyString then
        match RedisNodes (config cm) with
        | first :: _ => Ok first
        | [] => Ok nodeAddr
        end
      else Ok nodeAddr
  end.

(** [func (cm *ClusterManager) GetRandomNode() string]. The order in which
    [range cm.nodes] visits the map is not fixed by the language: [visit]
    is the order of one traversal. *)
Definition GetRandomNode (cm : ClusterManager) (visit : list ClusterNode) : string :=
  match List.find (fun node => IsMaster node && Health node) visit with
  | Some node => Address node
  | None =>
      match RedisNodes (config cm) with
      | first :: _ => first
      | [] => EmptyString
      end
  end.


(* ===================================================================== *)
(** * protocol.go: framing of commands                                    *)
(* ===================================================================== *)

(** A [bufio.Reader] on a byte stream that ends: the bytes not yet read. *)
Definition Reader : Type := string.

(** [reader.ReadString(delim)]: the bytes up to and including the first
    [delim]; when the stream ends before a [delim], the bytes read and the
    error [io.EOF] (the flag). *)
Fixpoint ReadString (delim : ascii) (r : Reader) : string * bool * Reader :=
  match r with
  | EmptyString => (EmptyString, true, EmptyString)
  | String c r' =>
      if Ascii.eqb c delim then (String c EmptyString, false, r')
      else let '(line, eof, rest) := ReadString delim r' in (String c line, eof, rest)
  end.

(** [io.ReadFull(reader, data)] with [len(data) = n]. *)
Definition ReadFull (n : nat) (r : Reader) : result string * Reader :=
  if (n <=? String.length r)%nat
  then (Ok (String.substring 0 n r), drop n r)
  else match r with
       | EmptyString => (Err EOF, EmptyString)
       | _ => (Err ErrUnexpectedEOF, EmptyString)
       end.

(** [func (rp *RedisProtocol) parseBulkString(reader *bufio.Reader) (string, error)].
    [make([]byte, length)] panics when [length] is negative. (It also
    panics when [length] is above what the allocator of the platform can
    give; the model sets no such limit, and the read that follows fails
    there for want of bytes.) *)
Definition parseBulkString (reader : Reader) : result string * Reader :=
  let '(line, eof, reader) := ReadString LF reader in
  if eof then (Err EOF, reader)
  else
    let line := TrimSpace line in
    match line with
    | String "$" lengthStr =>
        match Atoi lengthStr with
        | None => (Err (Errorf ("无效的字符串长度: " +:+ lengthStr)), reader)
        | Some length =>
            if length =? -1 then (Ok EmptyString, reader)
            else if length =? 0 then
              let '(_, _, reader) := ReadString LF reader in (Ok EmptyString, reader)
            else if length <? 0 then (Panic, reader)
            else
              match ReadFull (Z.to_nat length) reader with
              | (Ok data, reader) =>
                  let '(_, _, reader) := ReadString LF reader in (Ok data, reader)
              | (other, reader) => (other, reader)
              end
        end
    | _ => (Err (Errorf "无效的批量字符串格式"), reader)
    end.

(** [for i := 0; i < count; i++ { arg, err := rp.parseBulkString(reader) ... }] *)
Fixpoint parseBulkStrings (count : nat) (reader : Reader) : result (list string) * Reader :=
  match count with
  | O => (Ok [], reader)
  | S count' =>
      match parseBulkString reader with
      | (Ok arg, reader) =>
          match parseBulkStrings count' reader with
          | (Ok args, reader) => (Ok (arg :: args), reader)
          | other => other
          end
      | (Err e, reader) => (Err e, reader)
      | (Panic, reader) => (Panic, reader)
      | (Blocked, reader) => (Blocked, reader)
      | (OutOfFuel, reader) => (OutOfFuel, reader)
      end
  end.

(** [func (rp *RedisProtocol) parseArrayCommand(reader *bufio.Reader, firstLine string) ([]string, error)] *)
Definition parseArrayCommand (reader : Reader) (firstLine : string)
    : result (list string) * Reader :=
  let countStr := slice_from firstLine 1 in
  match Atoi countStr with
  | None => (Err (Errorf ("无效的数组长度: " +:+ countStr)), reader)
  | Some count =>
      if count <=? 0 then (Ok [], reader)
      else parseBulkStrings (Z.to_nat count) reader
  end.

(** [func (rp *RedisProtocol) ParseCommand(reader *bufio.Reader) ([]string, error)] *)
Definition ParseCommand (reader : Reader) : result (list string) * Reader :=
  let '(line, eof, reader) := ReadString LF reader in
  if eof then (Err EOF, reader)
  else
    let line := TrimSpace line in
    match line with
    | EmptyString => (Err (Errorf "空命令"), reader)
    | String c _ =>
        if Ascii.eqb c "*" then parseArrayCommand reader line
        else (Ok (Fields line), reader)
    end.

(** [func (rp *RedisProtocol) FormatError(message string) string] *)
Definition FormatError (message : string) : string :=
  "-ERR " +:+ message +:+ CRLF.

(** The three results [(bool, string, string)] of the redirect tests. *)
Definition redirectParts (response prefix : string) : bool * string * string :=
  let response := TrimSpace response in
  if HasPrefix response prefix then
    match Fields response with
    | _ :: slot :: address :: _ => (true, slot, address)
    | _ => (false, EmptyString, EmptyString)
    end
  else (false, EmptyString, EmptyString).

(** [func (rp *RedisProtocol) IsMovedError(response string) (bool, string, string)] *)
Definition IsMovedError (response : string) : bool * string * string :=
  redirectParts response "-MOVED ".

(** [func (rp *RedisProtocol) IsAskError(response string) (bool, string, string)] *)
Definition IsAskError (response : string) : bool * string * string :=
  redirectParts response "-ASK ".

(** The bytes that [sendCommandToBackend] builds:
    [fmt.Sprintf("*%d\r\n", len(command))] and, for each argument,
    [fmt.Sprintf("$%d\r\n%s\r\n", len(arg), arg)]. *)
Definition formatArg (arg : string) : string :=
  "$" +:+ Itoa (len arg) +:+ CRLF +:+ arg +:+ CRLF.

Fixpoint formatArgs (command : list string) : string :=
  match command with
  | [] => EmptyString
  | arg :: rest => formatArg arg +:+ formatArgs rest
  end.

Definition formatCommand (command : list string) : string :=
  "*" +:+ Itoa (Z.of_nat (length command)) +:+ CRLF +:+ formatArgs command.


(* ===================================================================== *)
(** * The network, as seen by one session                                 *)
(* ===================================================================== *)

(** A backend socket ([net.Conn] after a dial): the sockets are numbered in
    the order of their creation. *)
Definition Conn : Type := nat.

(** What a network operation comes to: success ([IoOk], with the bytes
    received when the operation is a read), an error ([IoErr]), or nothing
    at all ([IoHang]): the peer neither takes nor sends a byte and does not
    close the socket. An operation under a deadline then fails when the
    deadline passes; one without a deadline waits for ever. *)
Inductive IoResult : Type :=
  | IoOk (data : string)
  | IoErr (msg : string)
  | IoHang.

(** What the session does to the world outside, in order. *)
Inductive Event : Type :=
  | EvDial (address : string) (conn : Conn)
  | EvBackendWrite (conn : Conn) (data : string) (ok : bool)
  | EvBackendRead (conn : Conn) (ok : bool)
  | EvClientWrite (data : string) (ok : bool)
  | EvClose (conn : Conn).

(** [chan net.Conn] with a buffer: the queued sockets, oldest first, and the
    capacity given to [make]. *)
Record Chan := mkChan { buf : list Conn; cap : nat }.

(** [type NodePool struct] *)
Record NodePool := mkNodePool {
  address : string;
  connections : Chan;
  maxSize : Z;
  currentSize : Z
}.

(** The state a session runs in:
    - [pools]: [ConnectionPool.pools], the pools by backend address
      (the pointer to a [NodePool] is its entry in the map);
    - [net]: the outcomes of the network operations to come, in program
      order; once the list is used up every operation fails (the
      connection is reset);
    - [nextConn]: the number the next socket gets;
    - [trace]: the events so far, oldest first. *)
Record World := mkWorld {
  pools : gmap string NodePool;
  net : list IoResult;
  nextConn : Conn;
  trace : list Event
}.

(** State passing: a computation reads and updates the [World]. *)
Definition M (A : Type) : Type := World -> A * World.

Definition ret {A : Type} (a : A) : M A := fun w => (a, w).

Definition bind {A B : Type} (m : M A) (k : A -> M B) : M B :=
  fun w => let '(a, w') := m w in k a w'.

Declare Scope proxy_scope.
Delimit Scope proxy_scope with proxy.
Notation "x <- m ;; k" := (bind m (fun x => k))
  (at level 100, m at next level, right associativity) : proxy_scope.
Notation "m ;;; k" := (bind m (fun _ => k))
  (at level 100, right associativity) : proxy_scope.
Local Open Scope proxy_scope.

(** The error of a read or a dial whose deadline has passed. *)
Definition timeout : string := "i/o timeout".

(** The error of an operation on a socket that the peer has reset. *)
Definition reset : string := "connection reset by peer".

(** The next network operation. *)
Definition io : M IoResult := fun w =>
  match net w with
  | [] => (IoErr reset, w)
  | r :: rest =>
      (r, {| pools := pools w; net := rest; nextConn := nextConn w; trace := trace w |})
  end.

Definition emit (e : Event) : M unit := fun w =>
  (tt, {| pools := pools w; net := net w; nextConn := nextConn w; trace := trace w ++ [e] |}).

Definition freshConn : M Conn := fun w =>
  (nextConn w,
   {| pools := pools w; net := net w; nextConn := S (nextConn w); trace := trace w |}).

Definition getPool (addr : string) : M (option NodePool) := fun w => (pools w !! addr, w).

Definition setPool (addr : string) (np : NodePool) : M unit := fun w =>
  (tt, {| pools := <[addr := np]> (pools w); net := net w;
          nextConn := nextConn w; trace := trace w |}).

(** [conn.Write(data)] on a backend socket. The proxy sets no deadline
    for writes: a write that the peer does not take never comes back. *)
Definition backendWrite (conn : Conn) (data : string) : M (result unit) :=
  r <- io ;;
  match r with
  | IoOk _ => emit (EvBackendWrite conn data true) ;;; ret (Ok tt)
  | IoErr msg => emit (EvBackendWrite conn data false) ;;; ret (Err (Errorf msg))
  | IoHang => emit (EvBackendWrite conn data false) ;;; ret Blocked
  end.

(** [conn.Read(buffer)] on a backend socket, under a read deadline: the
    call yields the bytes [data] or fails, at the latest when the deadline
    passes. *)
Definition backendRead (conn : Conn) : M (result string) :=
  r <- io ;;
  match r with
  | IoOk data => emit (EvBackendRead conn true) ;;; ret (Ok data)
  | IoErr msg => emit (EvBackendRead conn false) ;;; ret (Err (Errorf msg))
  | IoHang => emit (EvBackendRead conn false) ;;; ret (Err (Errorf timeout))
  end.

(** [bufio.NewReader(conn).ReadString('\n')] on a backend socket with no
    read deadline: [IoOk stream] stands for the bytes that the backend
    sends before it closes the socket. The reader is dropped after the
    call, with the bytes that it holds behind the line. *)
Definition readLine (conn : Conn) : M (result string) :=
  r <- io ;;
  match r with
  | IoOk stream =>
      let '(line, eof, _) := ReadString LF stream in
      if eof then emit (EvBackendRead conn false) ;;; ret (Err EOF)
      else emit (EvBackendRead conn true) ;;; ret (Ok line)
  | IoErr msg => emit (EvBackendRead conn false) ;;; ret (Err (Errorf msg))
  | IoHang => emit (EvBackendRead conn false) ;;; ret Blocked
  end.

(** [clientConn.Write(data)]; no deadline is set. *)
Definition clientWrite (data : string) : M (result unit) :=
  r <- io ;;
  match r with
  | IoOk _ => emit (EvClientWrite data true) ;;; ret (Ok tt)
  | IoErr msg => emit (EvClientWrite data false) ;;; ret (Err (Errorf msg))
  | IoHang => emit (EvClientWrite data false) ;;; ret Blocked
  end.

(** [conn.Close()] *)
Definition closeConn (conn : Conn) : M unit := emit (EvClose conn).

(* ===================================================================== *)
(** * pool.go: the connection pool                                        *)
(* ===================================================================== *)

Definition setConnections (np : NodePool) (q : list Conn) : NodePool :=
  {| address := address np;
     connections := {| buf := q; cap := cap (connections np) |};
     maxSize := maxSize np;
     currentSize := currentSize np |}.

Definition setCurrentSize (np : NodePool) (n : Z) : NodePool :=
  {| address := address np; connections := connections np;
     maxSize := maxSize np; currentSize := n |}.

(** [func (np *NodePool) isConnectionValid(conn net.Conn) bool]: the probe
    writes the inline [PING] and reads once, under a read deadline of 100
    milliseconds; whatever bytes the read yields, the socket is valid. *)
Definition isConnectionValid (conn : Conn) : M (result bool) :=
  wr <- backendWrite conn ("PING" +:+ CRLF) ;;
  match wr with
  | Ok _ =>
      rd <- backendRead conn ;;
      match rd with
      | Ok _ => ret (Ok true)
      | Err _ => ret (Ok false)
      | Panic => ret Panic
      | Blocked => ret Blocked
      | OutOfFuel => ret OutOfFuel
      end
  | Err _ => ret (Ok false)
  | Panic => ret Panic
  | Blocked => ret Blocked
  | OutOfFuel => ret OutOfFuel
  end.

(** [func (np *NodePool) createConnection() (net.Conn, error)]; the dial
    ([net.DialTimeout]) gives up after five seconds. *)
Definition createConnection (np : NodePool) : M (result Conn * NodePool) :=
  if currentSize np >=? maxSize np then ret (Err (Errorf "连接池已满"), np)
  else
    r <- io ;;
    match r with
    | IoErr msg =>
        ret (Err (Errorf ("连接Redis节点失败 " +:+ address np +:+ ": " +:+ msg)), np)
    | IoHang =>
        ret (Err (Errorf ("连接Redis节点失败 " +:+ address np +:+ ": " +:+ timeout)), np)
    | IoOk _ =>
        conn <- freshConn ;;
        emit (EvDial (address np) conn) ;;;
        ret (Ok conn, setCurrentSize np (currentSize np + 1))
    end.

(** [func (np *NodePool) GetConnection() (net.Conn, error)]: the [select]
    takes the oldest queued socket when there is one. *)
Definition NodePool_GetConnection (np : NodePool) : M (result Conn * NodePool) :=
  match buf (connections np) with
  | conn :: rest =>
      let np := setConnections np rest in
      valid <- isConnectionValid conn ;;
      match valid with
      | Ok true => ret (Ok conn, np)
      | Ok false => createConnection np
      | Err e => ret (Err e, np)
      | Panic => ret (Panic, np)
      | Blocked => ret (Blocked, np)
      | OutOfFuel => ret (OutOfFuel, np)
      end
  | [] => createConnection np
  end.

(** [func (np *NodePool) ReturnConnection(conn net.Conn)]; [None] is the
    nil interface value. The [select] queues the socket when the buffer has
    room. *)
Definition NodePool_ReturnConnection (np : NodePool) (conn : option Conn) : M NodePool :=
  match conn with
  | None => ret np
  | Some c =>
      if (length (buf (connections np)) <? cap (connections np))%nat
      then ret (setConnections np (buf (connections np) ++ [c]))
      else closeConn c ;;; ret (setCurrentSize np (currentSize np - 1))
  end.

(** The pool that [ConnectionPool.GetConnection] makes for a new address. *)
Definition newNodePool (addr : string) : NodePool :=
  {| address := addr; connections := {| buf := []; cap := 10 |};
     maxSize := 10; currentSize := 0 |}.

(** [func (cp *ConnectionPool) GetConnection(address string) (net.Conn, error)] *)
Definition GetConnection (addr : string) : M (result Conn) :=
  found <- getPool addr ;;
  let pool := match found with Some pool => pool | None => newNodePool addr end in
  setPool addr pool ;;;
  r <- NodePool_GetConnection pool ;;
  setPool addr (snd r) ;;;
  ret (fst r).

(** [func (cp *ConnectionPool) ReturnConnection(address string, conn net.Conn)] *)
Definition ReturnConnection (addr : string) (conn : Conn) : M unit :=
  found <- getPool addr ;;
  match found with
  | Some pool =>
      pool <- NodePool_ReturnConnection pool (Some conn) ;;
      setPool addr pool
  | None => closeConn conn
  end.

(* ===================================================================== *)
(** * proxy.go: cutting a reply out of the stream of a backend            *)
(* ===================================================================== *)

(** The functions that read one reply off a backend socket, on the bytes
    that the backend sends: the [bufio.Reader] made by
    [readBackendResponse] is the stream of those bytes, which ends when the
    backend closes the socket. *)

(** [fmt.Errorf(prefix + ": %v", err)] *)
Definition wrapErr (prefix : string) (e : error) : error :=
  Errorf (prefix +:+ ": " +:+ error_text e).

(** A decimal digit. *)
Definition isDigit (c : ascii) : bool :=
  match digit_val c with Some _ => true | None => false end.

Module Wire.

(** Addition on [int], with its wrap-around. *)
Definition wrapInt (x : Z) : Z := (x + 2 ^ 63) mod 2 ^ 64 - 2 ^ 63.

(** [SkipSpace] of package fmt, as [Sscanf] runs it: white space is
    passed over, except that a line feed is an error ([None]); a carriage
    return before a line feed is passed over by itself. *)
Fixpoint skipSpace (fuel : nat) (s : string) : option string :=
  match fuel with
  | O => Some s
  | S fuel' =>
      match s with
      | EmptyString => Some s
      | String c s' =>
          if Ascii.eqb c CR && HasPrefix s' (String LF EmptyString) then skipSpace fuel' s'
          else if Ascii.eqb c LF then None
          else match space_width s with
               | O => Some s
               | w => skipSpace fuel' (drop w s)
               end
      end
  end.

(** The decimal digits at the head of [s]. *)
Fixpoint digitsPrefix (s : string) : string :=
  match s with
  | EmptyString => EmptyString
  | String c s' => if isDigit c then String c (digitsPrefix s') else EmptyString
  end.

(** [fmt.Sscanf(str, "%d", &v)]: the number stored in [v], or [None] when
    the scan fails and [v] keeps its value. The scan passes over white
    space, takes one sign if there is one and then the decimal digits that
    follow, at least one; what comes after them is not looked at. A number
    outside the range of [int] is an error. *)
Definition Sscanf_d (str : string) : option Z :=
  match skipSpace (String.length str) str with
  | None => None
  | Some s =>
      match s with
      | EmptyString => None
      | String c rest =>
          let neg := Ascii.eqb c "-"%char in
          let body := if neg || Ascii.eqb c "+"%char then rest else s in
          match digitsPrefix body with
          | EmptyString => None
          | tok =>
              match parse_digits 0 tok with
              | None => None
              | Some n =>
                  let v := if neg then - n else n in
                  if (minInt <=? v) && (v <=? maxInt) then Some v else None
              end
          end
      end
  end.

(** [func (proxy *RedisClusterProxy) readBulkStringResponse(reader *bufio.Reader,
    firstLine string) (string, error)]. [make([]byte, length+2)] panics
    when [length+2] has wrapped around to a negative number. (It also
    panics when the length is above what the allocator of the platform
    can give; the model sets no such limit, and the read that follows
    fails there for want of bytes.) *)
Definition readBulkStringResponse (reader : Reader) (firstLine : string)
    : result string * Reader :=
  let '(got, reader) :=
    if String.eqb firstLine EmptyString then
      let '(line, eof, reader) := ReadString LF reader in
      if eof then (Err EOF, reader) else (Ok line, reader)
    else (Ok firstLine, reader) in
  match got with
  | Ok firstLine =>
      if len firstLine <? 2
      then (Err (Errorf ("无效的批量字符串响应格式: " +:+ firstLine)), reader)
      else
        let lengthStr := TrimSpace (slice_from firstLine 1) in
        if String.eqb lengthStr "-1" then (Ok firstLine, reader)
        else
          let length := default 0 (Sscanf_d lengthStr) in
          if length >? 0 then
            let size := wrapInt (length + 2) in
            if size <? 0 then (Panic, reader)
            else
              match ReadFull (Z.to_nat size) reader with
              | (Ok data, reader) => (Ok (firstLine +:+ data), reader)
              | (other, reader) => (other, reader)
              end
          else
            let '(line, eof, reader) := ReadString LF reader in
            if eof then (Err EOF, reader) else (Ok (firstLine +:+ line), reader)
  | other => (other, reader)
  end.

(** The error of the loop of [readArrayResponse]:
    [fmt.Errorf("读取... %d/%d 失败: %v", i+1, count, err)]. *)
Definition elementErr (what : string) (i count : Z) (e : error) : error :=
  Errorf (what +:+ " " +:+ Itoa (i + 1) +:+ "/" +:+ Itoa count +:+ " 失败: "
          +:+ error_text e).

(** [elementResponse[len(line):]]; out of range, the slice expression
    panics ([None]). *)
Definition afterLine (elementResponse line : string) : option string :=
  if len elementResponse <? len line then None
  else Some (slice_from elementResponse (len line)).

(** [func (proxy *RedisClusterProxy) readArrayResponse(reader *bufio.Reader,
    firstLine string) (string, error)] and its loop
    [for i := 0; i < count; i++], which calls it again on an element that
    is an array. [fuel] bounds the turns of the loop and the depth of the
    calls in the model. *)
Fixpoint readArrayResponse_fuel (fuel : nat) (reader : Reader) (firstLine : string)
    : result string * Reader :=
  match fuel with
  | O => (OutOfFuel, reader)
  | S fuel' =>
      if len firstLine <? 2
      then (Err (Errorf ("无效的数组响应格式: " +:+ firstLine)), reader)
      else
        let countStr := TrimSpace (slice_from firstLine 1) in
        if String.eqb countStr "-1" then (Ok firstLine, reader)
        else
          let count := default 0 (Sscanf_d countStr) in
          readElements_fuel fuel' reader 0 count firstLine
  end
with readElements_fuel (fuel : nat) (reader : Reader) (i count : Z) (response : string)
    : result string * Reader :=
  if i <? count then
    match fuel with
    | O => (OutOfFuel, reader)
    | S fuel' =>
        let '(line, eof, reader) := ReadString LF reader in
        if eof then (Err (elementErr "读取数组元素" i count EOF), reader)
        else
          let response := response +:+ line in
          match line with
          | EmptyString => readElements_fuel fuel' reader (i + 1) count response
          | String c _ =>
              if Ascii.eqb c "$" then
                match readBulkStringResponse reader line with
                | (Ok elementResponse, reader) =>
                    match afterLine elementResponse line with
                    | Some more =>
                        readElements_fuel fuel' reader (i + 1) count (response +:+ more)
                    | None => (Panic, reader)
                    end
                | (Err e, reader) =>
                    (Err (elementErr "读取批量字符串元素" i count e), reader)
                | (Panic, reader) => (Panic, reader)
                | (Blocked, reader) => (Blocked, reader)
                | (OutOfFuel, reader) => (OutOfFuel, reader)
                end
              else if Ascii.eqb c "*" then
                match readArrayResponse_fuel fuel' reader line with
                | (Ok elementResponse, reader) =>
                    match afterLine elementResponse line with
                    | Some more =>
                        readElements_fuel fuel' reader (i + 1) count (response +:+ more)
                    | None => (Panic, reader)
                    end
                | (Err e, reader) =>
                    (Err (elementErr "读取嵌套数组元素" i count e), reader)
                | (Panic, reader) => (Panic, reader)
                | (Blocked, reader) => (Blocked, reader)
                | (OutOfFuel, reader) => (OutOfFuel, reader)
                end
              else readElements_fuel fuel' reader (i + 1) count response
          end
    end
  else (Ok response, reader).

(** Fuel enough for a stream: every turn of the loop reads at least one
    byte, and every call for a nested array comes after such a read
    ([readArrayResponse_fuel_enough]). *)
Definition arrayFuel (reader : Reader) : nat := (2 * String.length reader + 2)%nat.

Definition readArrayResponse (reader : Reader) (firstLine : string)
    : result string * Reader :=
  readArrayResponse_fuel (arrayFuel reader) reader firstLine.

(** The body of [readBackendResponse], on its reader: the result, and the
    reader behind what was read. *)
Definition readFromReader (reader : Reader) : result string * Reader :=
  let '(line, eof, reader) := ReadString LF reader in
  if eof then (Err (wrapErr "读取响应第一行失败" EOF), reader)
  else
    match line with
    | EmptyString => (Err (Errorf "收到空响应行"), reader)
    | String c _ =>
        if Ascii.eqb c "$" then readBulkStringResponse reader line
        else if Ascii.eqb c "*" then readArrayResponse reader line
        else (Ok line, reader)
    end.

(** [func (proxy *RedisClusterProxy) readBackendResponse(conn net.Conn) (string, error)],
    on the bytes [stream] that arrive on [conn]. The function makes its
    reader ([bufio.NewReader(conn)]) and drops it when it returns: the
    bytes that the reader holds behind the reply are lost with it. *)
Definition readBackendResponse (stream : string) : result string :=
  fst (readFromReader stream).

End Wire.

(* ===================================================================== *)
(** * proxy.go: routing, dispatch and redirection                         *)
(* ===================================================================== *)

Section Proxy.

(** [strings.ToUpper] maps the bytes [a]..[z] of a string of ASCII bytes
    and leaves its other bytes alone; on a string with a byte above 127 it
    applies the Unicode case mapping, [unicodeToUpper], which is left
    open. *)
Variable unicodeToUpper : string -> string.

(** The order in which one [range] over the node map visits the nodes
    (not fixed by the language). *)
Variable rangeNodes : gmap string ClusterNode -> list ClusterNode.

Definition ToUpper (s : string) : string :=
  if isASCII s then map_bytes upper_byte s else unicodeToUpper s.

(** [type RedisClusterProxy struct]: the configuration and the shard map;
    the connection pool lives in the [World]. *)
Record RedisClusterProxy := mkProxy {
  proxyConfig : Config;
  clusterManager : ClusterManager
}.

(** The verbs of the [case] clauses of [selectBackendNode] that end in
    [return proxy.selectNodeByKey(cmdName, command)]. *)
Definition keyRoutedVerbs : list string :=
  [ "GET"; "SET"; "GETSET"; "SETNX"; "SETEX"; "PSETEX"; "MGET"; "MSET"; "MSETNX";
    "INCR"; "DECR"; "INCRBY"; "DECRBY"; "INCRBYFLOAT"; "APPEND"; "STRLEN";
    "GETRANGE"; "SETRANGE"; "GETBIT"; "SETBIT"; "BITCOUNT"; "BITOP";
    "HGET"; "HSET"; "HSETNX"; "HMGET"; "HMSET"; "HGETALL"; "HKEYS"; "HVALS";
    "HLEN"; "HEXISTS"; "HDEL"; "HINCRBY"; "HINCRBYFLOAT"; "HSCAN";
    "LPUSH"; "RPUSH"; "LPOP"; "RPOP"; "LLEN"; "LRANGE"; "LTRIM"; "LINDEX";
    "LSET"; "LREM"; "LINSERT"; "BLPOP"; "BRPOP"; "BRPOPLPUSH"; "RPOPLPUSH";
    "SADD"; "SREM"; "SMEMBERS"; "SCARD"; "SISMEMBER"; "SRANDMEMBER"; "SPOP";
    "SMOVE"; "SINTER"; "SINTERSTORE"; "SUNION"; "SUNIONSTORE"; "SDIFF";
    "SDIFFSTORE"; "SSCAN";
    "ZADD"; "ZREM"; "ZSCORE"; "ZINCRBY"; "ZCARD"; "ZCOUNT"; "ZRANGE"; "ZREVRANGE";
    "ZRANGEBYSCORE"; "ZREVRANGEBYSCORE"; "ZRANK"; "ZREVRANK"; "ZREMRANGEBYRANK";
    "ZREMRANGEBYSCORE"; "ZUNIONSTORE"; "ZINTERSTORE"; "ZSCAN";
    "DEL"; "EXISTS"; "EXPIRE"; "EXPIREAT"; "TTL"; "PTTL"; "PERSIST"; "TYPE";
    "RENAME"; "RENAMENX"; "MOVE"; "DUMP"; "RESTORE"; "SORT"; "TOUCH";
    "PFADD"; "PFCOUNT"; "PFMERGE";
    "BITFIELD";
    "XADD"; "XREAD"; "XREADGROUP"; "XPENDING"; "XCLAIM"; "XACK"; "XGROUP";
    "XINFO"; "XLEN"; "XRANGE"; "XREVRANGE"; "XTRIM"; "XDEL" ].

Definition isKeyRouted (cmdName : string) : bool :=
  existsb (String.eqb cmdName) keyRoutedVerbs.

(** [func (proxy *RedisClusterProxy) selectNodeByKey(cmdName string, command []string) string] *)
Definition selectNodeByKey (proxy : RedisClusterProxy) (cmdName : string)
    (command : list string) : result string :=
  let fallback :=
    match RedisNodes (proxyConfig proxy) with
    | first :: _ => Ok first
    | [] => Ok EmptyString
    end in
  match command with
  | _ :: key :: _ =>
      match GetNodeForKey (clusterManager proxy) key with
      | Ok nodeAddr => if negb (String.eqb nodeAddr EmptyString) then Ok nodeAddr else fallback
      | other => other
      end
  | _ => fallback
  end.

(** [func (proxy *RedisClusterProxy) selectBackendNode(command []string) string]:
    the verbs of the key-routed clauses go through [selectNodeByKey]; those
    of the other clauses and of [default] all take [GetRandomNode]. *)
Definition selectBackendNode (proxy : RedisClusterProxy) (command : list string)
    : result string :=
  let cm := clusterManager proxy in
  match command with
  | [] => Ok (GetRandomNode cm (rangeNodes (nodes cm)))
  | verb :: _ =>
      let cmdName := ToUpper verb in
      if isKeyRouted cmdName then selectNodeByKey proxy cmdName command
      else Ok (GetRandomNode cm (rangeNodes (nodes cm)))
  end.

(** [func (proxy *RedisClusterProxy) shouldAutoRedirect(command []string) bool] *)
Definition shouldAutoRedirect (proxy : RedisClusterProxy) (command : list string) : bool :=
  if negb (AutoRedirect (proxyConfig proxy)) then false
  else
    match command with
    | verb :: _ =>
        let cmd := ToUpper verb in
        if existsb (String.eqb cmd) ["CLUSTER"; "INFO"; "PING"; "COMMAND"] then false
        else true
    | [] => true
    end.

(** [func (proxy *RedisClusterProxy) sendCommandToBackend(conn net.Conn, command []string) error] *)
Definition sendCommandToBackend (conn : Conn) (command : list string) : M (result unit) :=
  backendWrite conn (formatCommand command).

(** [func (proxy *RedisClusterProxy) readBackendResponse(conn net.Conn) (string, error)],
    on a socket: the function reads under a deadline of 60 seconds.
    [IoOk stream] stands for the bytes that the backend sends before it
    closes the socket, out of which [Wire.readBackendResponse] cuts the
    reply; [IoErr msg] for a read that ends with an error, [msg] being the
    text of the error that the function returns; with [IoHang] no byte
    arrives in time. *)
Definition readBackendResponse (conn : Conn) : M (result string) :=
  r <- io ;;
  match r with
  | IoOk stream =>
      let res := Wire.readBackendResponse stream in
      emit (EvBackendRead conn (isOk res)) ;;; ret res
  | IoErr msg => emit (EvBackendRead conn false) ;;; ret (Err (Errorf msg))
  | IoHang =>
      emit (EvBackendRead conn false) ;;;
      ret (Err (wrapErr "读取响应第一行失败" (Errorf timeout)))
  end.

(** The handshake that [handleAskRedirect] writes before the command. *)
Definition askingBytes : string := "ASKING" +:+ CRLF.

(** [func (proxy *RedisClusterProxy) handleAskRedirect(clientConn net.Conn,
    command []string, redirectAddr string, redirectCount int) error];
    [Ok tt] is the nil error. The deferred [ReturnConnection] runs on every
    way out once the socket is acquired, a panic included; it does not run
    when the function does not come back. The answer to the handshake is
    read with no deadline. *)
Definition handleAskRedirect (command : list string) (redirectAddr : string)
    (redirectCount : Z) : M (result unit) :=
  got <- GetConnection redirectAddr ;;
  match got with
  | Ok backendConn =>
      res <- (wr <- backendWrite backendConn askingBytes ;;
              match wr with
              | Ok _ =>
                  rd <- readLine backendConn ;;
                  match rd with
                  | Ok askingResponse =>
                      if negb (HasPrefix askingResponse "+OK")
                      then ret (Err (Errorf ("ASKING命令响应错误: " +:+ askingResponse)))
                      else
                        sent <- sendCommandToBackend backendConn command ;;
                        match sent with
                        | Ok _ =>
                            resp <- readBackendResponse backendConn ;;
                            match resp with
                            | Ok response => clientWrite response
                            | Err e => ret (Err (wrapErr "读取重定向节点响应失败" e))
                            | Panic => ret Panic
                            | Blocked => ret Blocked
                            | OutOfFuel => ret OutOfFuel
                            end
                        | Err e => ret (Err (wrapErr "发送命令到重定向节点失败" e))
                        | other => ret other
                        end
                  | Err e => ret (Err (wrapErr "读取ASKING响应失败" e))
                  | Panic => ret Panic
                  | Blocked => ret Blocked
                  | OutOfFuel => ret OutOfFuel
                  end
              | Err e => ret (Err (wrapErr "发送ASKING命令失败" e))
              | other => ret other
              end) ;;
      match res with
      | Blocked => ret Blocked
      | _ => ReturnConnection redirectAddr backendConn ;;; ret res
      end
  | Err e => ret (Err (wrapErr "连接重定向节点失败" e))
  | Panic => ret Panic
  | Blocked => ret Blocked
  | OutOfFuel => ret OutOfFuel
  end.

(** [func (proxy *RedisClusterProxy) executeCommandWithRedirect(clientConn net.Conn,
    command []string, backendAddr string, redirectCount int) error].
    The recursion follows a MOVED reply with [redirectCount+1]; [fuel]
    bounds its depth in the model. *)
Fixpoint executeCommandWithRedirect_fuel (fuel : nat) (proxy : RedisClusterProxy)
    (command : list string) (backendAddr : string) (redirectCount : Z)
    : M (result unit) :=
  if redirectCount >? 5 then ret (Err (Errorf "重定向次数过多"))
  else
    match fuel with
    | O => ret OutOfFuel
    | S fuel' =>
        got <- GetConnection backendAddr ;;
        match got with
        | Ok backendConn =>
            res <- (sent <- sendCommandToBackend backendConn command ;;
                    match sent with
                    | Ok _ =>
                        resp <- readBackendResponse backendConn ;;
                        match resp with
                        | Ok response =>
                            let '(isMoved, _, movedAddr) := IsMovedError response in
                            if isMoved then
                              if shouldAutoRedirect proxy command
                              then executeCommandWithRedirect_fuel fuel' proxy command
                                     movedAddr (redirectCount + 1)
                              else clientWrite response
                            else
                              let '(isAsk, _, askAddr) := IsAskError response in
                              if isAsk then
                                if shouldAutoRedirect proxy command
                                then handleAskRedirect command askAddr (redirectCount + 1)
                                else clientWrite response
                              else clientWrite response
                        | Err e => ret (Err (wrapErr "读取后端响应失败" e))
                        | Panic => ret Panic
                        | Blocked => ret Blocked
                        | OutOfFuel => ret OutOfFuel
                        end
                    | Err e => ret (Err (wrapErr "发送命令到后端失败" e))
                    | other => ret other
                    end) ;;
            match res with
            | Blocked => ret Blocked
            | _ => ReturnConnection backendAddr backendConn ;;; ret res
            end
        | Err e => ret (Err (wrapErr "连接后端Redis失败" e))
        | Panic => ret Panic
        | Blocked => ret Blocked
        | OutOfFuel => ret OutOfFuel
        end
    end.

(** Depth enough for a call with [redirectCount]: the recursion stops when
    the count passes 5 ([executeCommandWithRedirect_fuel_enough]). *)
Definition redirectFuel (redirectCount : Z) : nat := Z.to_nat (6 - redirectCount).

Definition executeCommandWithRedirect (proxy : RedisClusterProxy)
    (command : list string) (backendAddr : string) (redirectCount : Z)
    : M (result unit) :=
  executeCommandWithRedirect_fuel (redirectFuel redirectCount) proxy command
    backendAddr redirectCount.

(** [func (proxy *RedisClusterProxy) handleCommand(clientConn net.Conn, command []string) error] *)
Definition handleCommand (proxy : RedisClusterProxy) (command : list string)
    : M (result unit) :=
  match command with
  | [] => ret (Err (Errorf "空命令"))
  | _ =>
      match selectBackendNode proxy command with
      | Ok backendAddr => executeCommandWithRedirect proxy command backendAddr 0
      | Err e => ret (Err e)
      | Panic => ret Panic
      | Blocked => ret Blocked
      | OutOfFuel => ret OutOfFuel
      end
  end.

(** [func (proxy *RedisClusterProxy) sendError(conn net.Conn, message string)]:
    the outcome of the write is dropped. *)
Definition sendError (message : string) : M (result unit) :=
  wr <- clientWrite (FormatError message) ;;
  match wr with
  | Blocked => ret Blocked
  | _ => ret (Ok tt)
  end.

(** One turn of the [for] loop of [handleConnection]: the loop goes on
    with the next command, the function returns, it panics, or it waits for
    ever in a call that does not come back. [Stuck] belongs to the model
    alone, as [OutOfFuel] does. *)
Inductive Turn : Type :=
  | Continue (reader : Reader)
  | Return
  | Panicked
  | Waiting
  | Stuck.

(** The turn after [sendError]. *)
Definition afterSend (sent : result unit) (next : Turn) : Turn :=
  match sent with
  | Blocked => Waiting
  | _ => next
  end.

Definition sessionTurn (proxy : RedisClusterProxy) (clientReader : Reader) : M Turn :=
  match ParseCommand clientReader with
  | (Ok command, clientReader) =>
      match command with
      | [] => ret (Continue clientReader)
      | _ =>
          res <- handleCommand proxy command ;;
          match res with
          | Ok _ => ret (Continue clientReader)
          | Err e =>
              sent <- sendError (error_text e) ;;
              ret (afterSend sent (Continue clientReader))
          | Panic => ret Panicked
          | Blocked => ret Waiting
          | OutOfFuel => ret Stuck
          end
      end
  | (Err EOF, _) => ret Return
  | (Err _, _) => sent <- sendError "协议错误" ;; ret (afterSend sent Return)
  | (Panic, _) => ret Panicked
  | (Blocked, _) => ret Waiting
  | (OutOfFuel, _) => ret Stuck
  end.



End Proxy.

(* ===================================================================== *)
(** * Vocabulary of the statements                                        *)
(* ===================================================================== *)

(** The event is a write of [command], framed, to a backend. *)
Definition isDispatch (command : list string) (e : Event) : bool :=
  match e with
  | EvBackendWrite _ data _ => String.eqb data (formatCommand command)
  | _ => false
  end.

(** How often [command] was sent to a backend, as the trace records it. *)
Definition dispatches (command : list string) (tr : list Event) : nat :=
  length (filter (fun e => isDispatch command e = true) tr).

(** The sockets closed so far. *)
Definition closedConns (tr : list Event) : list Conn :=
  omap (fun e => match e with EvClose c => Some c | _ => None end) tr.

(** The sockets dialled so far. *)
Definition createdConns (tr : list Event) : list Conn :=
  omap (fun e => match e with EvDial _ c => Some c | _ => None end) tr.


(** The idle queue of the pool can take one more socket. *)
Definition hasRoom (np : NodePool) : bool :=
  (length (buf (connections np)) <? cap (connections np))%nat.

(** The next outcome of the network and what is left of the script. *)
Definition nextIo (script : list IoResult) : IoResult * list IoResult :=
  match script with
  | [] => (IoErr reset, [])
  | r :: rest => (r, rest)
  end.

(** The outcome read as a flag; as the result of a write; as the result
    of a read under a deadline ([conn.Read]); as the result of
    [readBackendResponse]; and as the result of the read of one line with
    no deadline. *)
Definition ioOk (r : IoResult) : bool :=
  match r with IoOk _ => true | _ => false end.

Definition ioUnit (r : IoResult) : result unit :=
  match r with IoOk _ => Ok tt | IoErr msg => Err (Errorf msg) | IoHang => Blocked end.

Definition ioData (r : IoResult) : result string :=
  match r with
  | IoOk data => Ok data
  | IoErr msg => Err (Errorf msg)
  | IoHang => Err (Errorf timeout)
  end.

Definition ioReply (r : IoResult) : result string :=
  match r with
  | IoOk stream => Wire.readBackendResponse stream
  | IoErr msg => Err (Errorf msg)
  | IoHang => Err (wrapErr "读取响应第一行失败" (Errorf timeout))
  end.

Definition ioLine (r : IoResult) : result string :=
  match r with
  | IoOk stream =>
      let '(line, eof, _) := ReadString LF stream in
      if eof then Err EOF else Ok line
  | IoErr msg => Err (Errorf msg)
  | IoHang => Blocked
  end.




(** The world after a network operation that leaves the event [e]. *)
Definition after (w : World) (e : Event) : World :=
  {| pools := pools w; net := snd (nextIo (net w)); nextConn := nextConn w;
     trace := trace w ++ [e] |}.

(** The world after a dispatch on the socket [c] that went through: the
    command was written and the reply read. *)
Definition dispatched (w : World) (c : Conn) (command : list string) : World :=
  after (after w (EvBackendWrite c (formatCommand command) true)) (EvBackendRead c true).


(** The world after a dispatch on the socket [c] that went through and
    the write of the reply to the client. *)
Definition forwarded (w : World) (c : Conn) (command : list string) (response : string)
    : World :=
  after (dispatched w c command)
    (EvClientWrite response (ioOk (fst (nextIo (net (dispatched w c command)))))).

(** The world after the socket [c] is handed back to the pool [np] of
    [addr]: the socket is queued when the idle queue has room, and closed
    and uncounted when it has none. *)
Definition returned (addr : string) (c : Conn) (np : NodePool) (w : World) : World :=
  if hasRoom np
  then {| pools := <[addr := setConnections np (buf (connections np) ++ [c])]> (pools w);
          net := net w; nextConn := nextConn w; trace := trace w |}
  else {| pools := <[addr := setCurrentSize np (currentSize np - 1)]> (pools w);
          net := net w; nextConn := nextConn w; trace := trace w ++ [EvClose c] |}.

(** The way out of a call that holds the socket [c] of [addr]: the
    deferred [ReturnConnection] runs, unless the call does not come
    back. *)
Definition handBack {A : Type} (addr : string) (c : Conn) (out : result A * World)
    : result A * World :=
  match fst out with
  | Blocked => out
  | _ => (fst out, snd (ReturnConnection addr c (snd out)))
  end.


Section Redirects.

Variable unicodeToUpper : string -> string.
Variable proxy : RedisClusterProxy.
Variable command : list string.


End Redirects.







(** From [w] to [w'] the trace grew, by at most [k] dispatches of
    [command]. *)
Definition adds (command : list string) (k : nat) (w w' : World) : Prop :=
  exists evs, trace w' = trace w ++ evs /\ (dispatches command evs <= k)%nat.

(** The byte [c] does not occur in [s]. *)
Fixpoint without (c : ascii) (s : string) : bool :=
  match s with
  | EmptyString => true
  | String a s' => negb (Ascii.eqb a c) && without c s'
  end.

(** Strings of digits, and strings without a line feed. *)
Fixpoint allDigits (s : string) : bool :=
  match s with
  | EmptyString => true
  | String c s' => isDigit c && allDigits s'
  end.

(** The number that the digits of [d] denote, after the digits read so
    far, which denote [acc]. *)
Fixpoint uint_val (acc : Z) (d : Decimal.uint) : Z :=
  match d with
  | Decimal.Nil => acc
  | Decimal.D0 d => uint_val (acc * 10 + 0) d
  | Decimal.D1 d => uint_val (acc * 10 + 1) d
  | Decimal.D2 d => uint_val (acc * 10 + 2) d
  | Decimal.D3 d => uint_val (acc * 10 + 3) d
  | Decimal.D4 d => uint_val (acc * 10 + 4) d
  | Decimal.D5 d => uint_val (acc * 10 + 5) d
  | Decimal.D6 d => uint_val (acc * 10 + 6) d
  | Decimal.D7 d => uint_val (acc * 10 + 7) d
  | Decimal.D8 d => uint_val (acc * 10 + 8) d
  | Decimal.D9 d => uint_val (acc * 10 + 9) d
  end.

Fixpoint noLF (s : string) : bool :=
  match s with
  | EmptyString => true
  | String c s' => negb (Ascii.eqb c LF) && noLF s'
  end.

(* ===================================================================== *)
(** * Concrete inputs and runs                                            *)
(* ===================================================================== *)

(** A world with no pool yet, the network behaving as [script] says. *)
Definition freshWorld (script : list IoResult) : World :=
  {| pools := ∅; net := script; nextConn := 0%nat; trace := [] |}.

(** The configuration of [LoadConfigFromFile] when no file is found. *)
Definition defaultConfig : Config :=
  {| ProxyPort := 6379;
     RedisNodes := ["127.0.0.1:7000"; "127.0.0.1:7001"; "127.0.0.1:7002"];
     AutoRedirect := true;
     LogLevel := "info";
     LogFile := EmptyString |}.

(** [NewRedisClusterProxy(config)] before the first refresh. *)
Definition NewRedisClusterProxy (config : Config) : RedisClusterProxy :=
  {| proxyConfig := config; clusterManager := NewClusterManager config |}.

(** A command whose arguments hold a line break, a space, a zero byte, a
    byte above 127 and nothing at all. *)
Definition binaryCommand : list string :=
  [ "SET"; "k{1}" +:+ CRLF +:+ " x";
    String "000" (String "255" (String LF "$3")); EmptyString ].

(** A topology of one line: a master that claims the slot 16384. *)
Definition badTopology : string :=
  "07c37dfeb235213a872192d90877d0cd55635b91 10.0.0.1:7000@17000 master - 0 0 1 connected 16384".

(** A slot specification whose start is past its end. *)
Definition reversedTopology : string :=
  "07c37dfeb235213a872192d90877d0cd55635b91 10.0.0.1:7000@17000 master - 0 0 1 connected 5-3".

(** A pool dials a socket, gets it back, and at the next acquisition the
    probe of that idle socket fails (the write of the PING meets a broken
    pipe); the dial that follows succeeds. *)
Definition probeFailureScript : list IoResult :=
  [IoOk EmptyString; IoErr "broken pipe"; IoOk EmptyString].

Definition probeFailureRun : result Conn * NodePool * World :=
  let np0 := newNodePool "10.0.0.1:7000" in
  let '(r1, np1, w1) := NodePool_GetConnection np0 (freshWorld probeFailureScript) in
  let '(np2, w2) :=
    NodePool_ReturnConnection np1 (match r1 with Ok c => Some c | _ => None end) w1 in
  NodePool_GetConnection np2 w2.

(** Ten rounds of the same: each round one more idle socket fails its
    probe and is replaced. *)
Fixpoint probeFailureRounds (n : nat) (np : NodePool) (w : World) : NodePool * World :=
  match n with
  | O => (np, w)
  | S n' =>
      let '(r, np1, w1) := NodePool_GetConnection np w in
      let '(np2, w2) :=
        NodePool_ReturnConnection np1 (match r with Ok c => Some c | _ => None end) w1 in
      probeFailureRounds n' np2 w2
  end.

(** One dial, then ten times a failed probe and a dial. *)
Definition exhaustionScript : list IoResult :=
  IoOk EmptyString ::
  List.concat (List.repeat [IoErr "broken pipe"; IoOk EmptyString] 9) ++
  [IoErr "broken pipe"; IoOk EmptyString].

(** The proxy of the runs below: the default configuration, no refresh
    done yet, so that every key is routed to the first seed node. *)
Definition seedProxy : RedisClusterProxy := NewRedisClusterProxy defaultConfig.

(** The request of the runs. *)
Definition getFoo : list string := ["GET"; "foo"].

(** Two requests of one client, one after the other. *)
Definition twoRequests : Reader := formatCommand getFoo +:+ ("PING" +:+ CRLF).

(** A successful dial or write. *)
Definition done : IoResult := IoOk EmptyString.


(** Run 2: the reply to the first dispatch is an ASK redirect; the socket
    to the target is dialled, the handshake is written and answered with
    "+OK", the command is sent again and its reply goes to the client. *)
Definition askReply : string := "-ASK 12182 10.0.0.2:7002" +:+ CRLF.




(** Run 4: five MOVED replies in a row, then an ASK reply to the sixth
    dispatch; the handshake with the ASK target goes through and the
    command is sent a seventh time. *)
Definition movedReply : string := "-MOVED 12182 10.0.0.1:7001" +:+ CRLF.

(** The network of run 4. *)
Definition movedThenAskWorld : World :=
  freshWorld
    (List.concat (List.repeat [done; done; IoOk movedReply] 5) ++
     [ done; done; IoOk askReply;
       done; done; IoOk ("+OK" +:+ CRLF);
       done; IoOk ("$3" +:+ CRLF +:+ "bar" +:+ CRLF); done ]).

(** Run 5: every dispatch is answered with MOVED. *)
Definition movedForeverWorld : World :=
  freshWorld (List.concat (List.repeat [done; done; IoOk movedReply] 7)).






(** ** Replies, as the Redis protocol frames them

    The replies of RESP2 and their bytes on the wire: the vocabulary of the
    statements about [Wire.readBackendResponse]. *)
#[warnings="-register-all"] Inductive Reply : Type :=
  | SimpleString (s : string)
  | ErrorReply (s : string)
  | IntegerReply (n : Z)
  | BulkString (s : string)
  | NullBulk
  | ArrayReply (elems : list Reply)
  | NullArray.

Fixpoint encode (v : Reply) : string :=
  match v with
  | SimpleString s => "+" +:+ s +:+ CRLF
  | ErrorReply s => "-" +:+ s +:+ CRLF
  | IntegerReply n => ":" +:+ Itoa n +:+ CRLF
  | BulkString s => "$" +:+ Itoa (len s) +:+ CRLF +:+ s +:+ CRLF
  | NullBulk => "$-1" +:+ CRLF
  | ArrayReply elems =>
      "*" +:+ Itoa (Z.of_nat (length elems)) +:+ CRLF +:+
      (fix encodeAll (l : list Reply) : string :=
         match l with
         | [] => EmptyString
         | e :: l' => encode e +:+ encodeAll l'
         end) elems
  | NullArray => "*-1" +:+ CRLF
  end.

(** The elements of an array, one after the other. *)
Fixpoint encodeAll (l : list Reply) : string :=
  match l with
  | [] => EmptyString
  | e :: l' => encode e +:+ encodeAll l'
  end.

(** A reply that can be sent: a status or error line holds no line feed,
    and lengths and counts are those of Go values. *)
Fixpoint wellFormed (v : Reply) : bool :=
  match v with
  | SimpleString s | ErrorReply s => noLF s
  | IntegerReply _ => true
  | BulkString s => len s + 2 <=? maxInt
  | NullBulk | NullArray => true
  | ArrayReply elems =>
      (Z.of_nat (length elems) <=? maxInt) &&
      (fix allWellFormed (l : list Reply) : bool :=
         match l with
         | [] => true
         | e :: l' => wellFormed e && allWellFormed l'
         end) elems
  end.

(** An array with a bulk string that holds a line end, a negative integer,
    the two nulls, a nested array and an empty bulk string. *)
Definition nestedReply : Reply :=
  ArrayReply
    [ BulkString ("a" +:+ CRLF +:+ "b"); IntegerReply (-7); NullBulk;
      ArrayReply [SimpleString "OK"; ErrorReply "ERR x"; NullArray; ArrayReply []];
      BulkString EmptyString; IntegerReply 0 ].

(** ** The slot table that a topology describes

    The vocabulary of the statements about [parseClusterNodes]. *)

(** The range holds the slot. *)
Definition covers (slot : Z) (r : SlotRange) : bool :=
  (Start r <=? slot) && (slot <=? End r).

(** The node is a master and one of its ranges holds the slot. *)
Definition claims (slot : Z) (node : ClusterNode) : bool :=
  IsMaster node && existsb (covers slot) (Slots node).

(** The nodes that the lines of a topology describe, in the order of the
    lines: blank lines and lines that [parseNodeLine] refuses are left
    out. *)
Definition listedNodes (now : Z) (response : string) : list ClusterNode :=
  omap (fun line =>
          if String.eqb (TrimSpace line) EmptyString then None
          else parseNodeLine now line)
       (Split (TrimSpace response) (String LF EmptyString)).

(** The address of the last listed node that claims the slot; the empty
    string when no node does. *)
Definition ownerOf (slot : Z) (listed : list ClusterNode) : string :=
  match last (filter (fun node => claims slot node = true) listed) with
  | Some node => Address node
  | None => EmptyString
  end.

(** The proxy after a refresh of its shard map. *)
Definition withClusterManager (proxy : RedisClusterProxy) (cm : ClusterManager)
    : RedisClusterProxy :=
  {| proxyConfig := proxyConfig proxy; clusterManager := cm |}.

(** A topology of two masters and a replica, as CLUSTER NODES prints it:
    the first master holds the slots 0 to 5 and the slot 12182, the
    second one the slots 6 to 11. *)
Definition smallTopology : string :=
  "07c37dfeb235213a872192d90877d0cd55635b91 10.0.0.1:7000@17000 myself,master - 0 0 1 connected 0-5 12182"
  +:+ String LF
  "67ed2db8d677e59ec4a4cefb06858cf2a1a89fa1 10.0.0.2:7001@17001 master - 0 1426238316232 2 connected 6-11"
  +:+ String LF
  "6ec23923021cf3ffec47632106199cb7f496ce01 10.0.0.4:7003@17003 slave 67ed2db8d677e59ec4a4cefb06858cf2a1a89fa1 0 1426238317239 2 connected"
  +:+ String LF EmptyString.

(** The shard map after a refresh from that topology. *)
Definition smallCluster : ClusterManager :=
  match parseClusterNodes 0 (NewClusterManager defaultConfig) smallTopology with
  | Ok cm => cm
  | _ => NewClusterManager defaultConfig
  end.

(** ** Words

    The vocabulary of the statements about lines that are cut at white
    space ([strings.Fields], [strings.TrimSpace]). *)

(** No white-space rune, ASCII or not, starts at a byte of [s]. *)
Fixpoint noSpace (s : string) : bool :=
  match s with
  | EmptyString => true
  | String _ s' => Nat.eqb (space_width s) 0 && noSpace s'
  end.

(** A word: bytes, at least one, without white space. *)
Definition isWord (s : string) : bool :=
  negb (String.eqb s EmptyString) && noSpace s.

(** [strings.Join(elems, sep)] *)
Fixpoint Join (elems : list string) (sep : string) : string :=
  match elems with
  | [] => EmptyString
  | e :: rest =>
      match rest with
      | [] => e
      | _ => e +:+ sep +:+ Join rest sep
      end
  end.

(* ===================================================================== *)
(** * protocol.go: the other helpers                                      *)
(* ===================================================================== *)

(** [func (rp *RedisProtocol) FormatSimpleString(message string) string] *)
Definition FormatSimpleString (message : string) : string :=
  "+" +:+ message +:+ CRLF.

(** The body shared by the two rewriting functions: [parts[2] = newAddress]
    and [strings.Join(parts, " ") + "\r\n"] when the reply is the redirect
    looked for; the trimmed reply otherwise. *)
Definition rewriteParts (response newAddress prefix : string) : string :=
  let response := TrimSpace response in
  if HasPrefix response prefix then
    let parts := Fields response in
    if (3 <=? length parts)%nat
    then Join (<[2%nat := newAddress]> parts) " " +:+ CRLF
    else response
  else response.

(** [func (rp *RedisProtocol) RewriteMovedResponse(response string, newAddress string) string] *)
Definition RewriteMovedResponse (response newAddress : string) : string :=
  rewriteParts response newAddress "-MOVED ".

(** [func (rp *RedisProtocol) RewriteAskResponse(response string, newAddress string) string] *)
Definition RewriteAskResponse (response newAddress : string) : string :=
  rewriteParts response newAddress "-ASK ".

(** A string of ASCII white space without a line feed. *)
Fixpoint blank (s : string) : bool :=
  match s with
  | EmptyString => true
  | String c s' => asciiSpace c && negb (Ascii.eqb c LF) && blank s'
  end.

(* ===================================================================== *)
(** * cluster.go: refreshing the shard map                                *)
(* ===================================================================== *)

(** [n] zero bytes: what [make([]byte, n)] holds. *)
Fixpoint zeros (n : nat) : string :=
  match n with
  | O => EmptyString
  | S n' => String "000" (zeros n')
  end.

(** [reader.Read(data)] on a [bufio.Reader], for a [data] made by
    [make([]byte, n)]: the slice after the call, and the reader. The call
    takes the bytes that are at hand (those in the buffer, or else those
    of one read on the socket), [burst] of them, at least one, and at most
    [n]: it does not wait for the slice to be full. On a stream that has
    ended it fails with [io.EOF]; with [n = 0] it reads nothing. *)
Definition Read (burst n : nat) (reader : Reader) : result string * Reader :=
  match n with
  | O => (Ok EmptyString, reader)
  | S _ =>
      let k := Nat.min n (Nat.min (Nat.max 1 burst) (String.length reader)) in
      match k with
      | O => (Err EOF, reader)
      | S _ => (Ok (String.substring 0 k reader +:+ zeros (n - k)), drop k reader)
      end
  end.

(** [func (cm *ClusterManager) readClusterNodesResponse(reader *bufio.Reader) (string, error)];
    [make([]byte, length)] panics when [length] is negative. *)
Definition readClusterNodesResponse (burst : nat) (reader : Reader) : result string :=
  let '(line, eof, reader) := ReadString LF reader in
  if eof then Err EOF
  else if negb (HasPrefix line "$") then Err (Errorf ("无效的响应格式: " +:+ line))
  else
    let lengthStr := TrimSpace (slice_from line 1) in
    match Atoi lengthStr with
    | None => Err (Errorf ("无效的长度: " +:+ lengthStr))
    | Some length =>
        if length <? 0 then Panic
        else
          match Read burst (Z.to_nat length) reader with
          | (Ok data, _) => Ok data
          | (Err e, _) => Err e
          | (Panic, _) => Panic
          | (Blocked, _) => Blocked
          | (OutOfFuel, _) => OutOfFuel
          end
    end.

(** What a seed node does when the manager turns to it: the dial fails,
    the write of the command fails, or the node sends the bytes [stream]
    and closes, [burst] bytes being at hand when the body is read. *)
Inductive SeedAnswer : Type :=
  | DialFails (msg : string)
  | WriteFails (msg : string)
  | Sends (stream : Reader) (burst : nat).

(** [func (cm *ClusterManager) fetchClusterInfoFromNode(nodeAddr string) error];
    [now] is the value of [time.Now()]. *)
Definition fetchClusterInfoFromNode (now : Z) (cm : ClusterManager) (answer : SeedAnswer)
    : result ClusterManager :=
  match answer with
  | DialFails msg => Err (Errorf ("连接节点失败: " +:+ msg))
  | WriteFails msg => Err (Errorf ("发送命令失败: " +:+ msg))
  | Sends stream burst =>
      match readClusterNodesResponse burst stream with
      | Ok response => parseClusterNodes now cm response
      | Err e => Err (wrapErr "读取响应失败" e)
      | Panic => Panic
      | Blocked => Blocked
      | OutOfFuel => OutOfFuel
      end
  end.

Definition setLastUpdate (cm : ClusterManager) (t : Z) : ClusterManager :=
  {| nodes := nodes cm; slots := slots cm; config := config cm; lastUpdate := t |}.

(** The loop [for _, nodeAddr := range cm.config.RedisNodes] of
    [RefreshClusterInfo]: [answers] holds what the seed nodes do, one
    answer for each attempt (no answer: the dial times out). *)
Fixpoint refreshFrom (now : Z) (cm : ClusterManager) (seeds : list string)
    (answers : list SeedAnswer) : result unit * ClusterManager :=
  match seeds with
  | [] => (Err (Errorf "无法从任何节点获取集群信息"), cm)
  | _ :: seeds' =>
      let answer := match answers with a :: _ => a | [] => DialFails "i/o timeout" end in
      match fetchClusterInfoFromNode now cm answer with
      | Ok cm' => (Ok tt, setLastUpdate cm' now)
      | Err _ => refreshFrom now cm seeds' (tail answers)
      | Panic => (Panic, cm)
      | Blocked => (Blocked, cm)
      | OutOfFuel => (OutOfFuel, cm)
      end
  end.

(** [func (cm *ClusterManager) RefreshClusterInfo() error], with the
    manager after the call. *)
Definition RefreshClusterInfo (now : Z) (cm : ClusterManager) (answers : list SeedAnswer)
    : result unit * ClusterManager :=
  refreshFrom now cm (RedisNodes (config cm)) answers.

(** [t.Sub(u)], in nanoseconds: the difference, kept inside the range of
    [time.Duration]. *)
Definition Sub (t u : Z) : Z := Z.max minInt (Z.min maxInt (t - u)).

(** [func (cm *ClusterManager) IsClusterInfoStale() bool]; instants are
    counted in nanoseconds, [now] is the value of [time.Now()]. *)
Definition IsClusterInfoStale (now : Z) (cm : ClusterManager) : bool :=
  Sub now (lastUpdate cm) >? 30 * 1000000000.

(** The map that [GetClusterStats] returns, by its keys. *)
Record ClusterStats := mkClusterStats {
  total_nodes : Z;
  last_update : Z;
  master_nodes : Z;
  slave_nodes : Z
}.

(** The loop of [GetClusterStats]. *)
Fixpoint countNodes (visit : list ClusterNode) (masterCount slaveCount : Z) : Z * Z :=
  match visit with
  | [] => (masterCount, slaveCount)
  | node :: rest =>
      if IsMaster node then countNodes rest (masterCount + 1) slaveCount
      else countNodes rest masterCount (slaveCount + 1)
  end.

(** [func (cm *ClusterManager) GetClusterStats() map[string]interface{}];
    [visit] is the order in which [range cm.nodes] visits the map. *)
Definition GetClusterStats (cm : ClusterManager) (visit : list ClusterNode) : ClusterStats :=
  let '(masterCount, slaveCount) := countNodes visit 0 0 in
  {| total_nodes := Z.of_nat (size (nodes cm));
     last_update := lastUpdate cm;
     master_nodes := masterCount;
     slave_nodes := slaveCount |}.

(** A bulk reply that carries [body]. *)
Definition bulkReply (body : string) : string :=
  "$" +:+ Itoa (len body) +:+ CRLF +:+ body +:+ CRLF.

(* ===================================================================== *)
(** * pool.go: closing the pools                                          *)
(* ===================================================================== *)

(** [for conn := range np.connections { conn.Close() }] on the closed
    channel: the queued sockets, oldest first. *)
Fixpoint closeAll (conns : list Conn) : M unit :=
  match conns with
  | [] => ret tt
  | conn :: rest => closeConn conn ;;; closeAll rest
  end.

(** [func (np *NodePool) Close()] *)
Definition NodePool_Close (np : NodePool) : M unit :=
  closeAll (buf (connections np)).

(** [for _, pool := range cp.pools { pool.Close() }] *)
Fixpoint closePools (visit : list NodePool) : M unit :=
  match visit with
  | [] => ret tt
  | pool :: rest => NodePool_Close pool ;;; closePools rest
  end.

(** [func (cp *ConnectionPool) Close()]; [rangePools] is the order in which
    [range cp.pools] visits the map. The map is replaced by an empty one. *)
Definition ConnectionPool_Close (rangePools : gmap string NodePool -> list NodePool)
    : M unit :=
  fun w =>
    let '(_, w') := closePools (rangePools (pools w)) w in
    (tt, {| pools := ∅; net := net w'; nextConn := nextConn w'; trace := trace w' |}).

(** The bounds that a pool keeps: its queue fits the buffer of the
    channel, its count of sockets does not pass the maximum. *)
Definition withinBounds (np : NodePool) : Prop :=
  (length (buf (connections np)) <= cap (connections np))%nat /\
  currentSize np <= maxSize np.

(** Two backends, one with two idle sockets and one with one. *)
Definition twoPools : World :=
  {| pools :=
       <["10.0.0.1:7000" :=
           {| address := "10.0.0.1:7000"; connections := {| buf := [0%nat; 2%nat]; cap := 10 |};
              maxSize := 10; currentSize := 3 |}]>
       (<["10.0.0.2:7001" :=
           {| address := "10.0.0.2:7001"; connections := {| buf := [1%nat]; cap := 10 |};
              maxSize := 10; currentSize := 1 |}]> ∅);
     net := []; nextConn := 4%nat; trace := [] |}.

(** ** The lines of CLUSTER NODES

    The vocabulary of the statements about [parseNodeLine]: what a node
    line says, and how it is written. *)

(** A range as CLUSTER NODES prints it: ["start-end"], or the single
    slot when start and end are the same. *)
Definition renderRange (r : SlotRange) : string :=
  if Start r =? End r then Itoa (Start r)
  else Itoa (Start r) +:+ "-" +:+ Itoa (End r).

(** The fields of a node line: the node id, the address and the port of
    the cluster bus, the flags, the id of the master, the three numbers
    ping-sent, pong-recv and config-epoch, the state of the link, and the
    ranges of slots. *)
Record NodeLine := mkNodeLine {
  lineId : string;
  lineAddress : string;
  lineBusPort : string;
  lineFlags : list string;
  lineMaster : string;
  linePingSent : string;
  linePongRecv : string;
  lineEpoch : string;
  lineLink : string;
  lineSlots : list SlotRange
}.

Definition renderNodeLine (d : NodeLine) : string :=
  Join ([ lineId d; lineAddress d +:+ "@" +:+ lineBusPort d; Join (lineFlags d) ",";
          lineMaster d; linePingSent d; linePongRecv d; lineEpoch d; lineLink d ]
        ++ map renderRange (lineSlots d)) " ".

(** The line can be written: its fields are words, the address holds no
    at sign, the flags are not empty and hold no comma, and the slots are
    numbers of Go that are not negative. *)
Definition lineWellFormed (d : NodeLine) : Prop :=
  Forall (fun w => isWord w = true)
    [ lineId d; lineAddress d +:+ "@" +:+ lineBusPort d; Join (lineFlags d) ",";
      lineMaster d; linePingSent d; linePongRecv d; lineEpoch d; lineLink d ] /\
  without "@" (lineAddress d) = true /\
  lineFlags d <> [] /\
  Forall (fun f => f <> EmptyString /\ without "," f = true) (lineFlags d) /\
  Forall (fun r => 0 <= Start r <= maxInt /\ 0 <= End r <= maxInt) (lineSlots d).

(** The first master of the topology of two masters. *)
Definition firstMaster : NodeLine :=
  {| lineId := "07c37dfeb235213a872192d90877d0cd55635b91";
     lineAddress := "10.0.0.1:7000";
     lineBusPort := "17000";
     lineFlags := ["myself"; "master"];
     lineMaster := "-";
     linePingSent := "0";
     linePongRecv := "0";
     lineEpoch := "1";
     lineLink := "connected";
     lineSlots := [ {| Start := 0; End := 5 |}; {| Start := 12182; End := 12182 |} ] |}.

(* ===================================================================== *)
(** * config.go: the configuration                                        *)
(* ===================================================================== *)

(** [strings.IndexByte(s, c)] and [strings.LastIndexByte(s, c)]: the
    offset of the first and of the last byte [c] of [s], or -1. *)
Definition IndexByte (s : string) (c : ascii) : Z := Index s (String c EmptyString).

Fixpoint LastIndexByte (s : string) (c : ascii) : Z :=
  match s with
  | EmptyString => -1
  | String a s' =>
      let i := LastIndexByte s' c in
      if i =? -1 then (if Ascii.eqb a c then 0 else -1) else i + 1
  end.

(** [net.SplitHostPort(hostport)]: the host and the port, or [None] for an
    error. The port starts after the last colon; a host in brackets ends
    at the bracket before that colon; a host without brackets holds no
    colon; no other bracket is allowed. *)
Definition SplitHostPort (hostport : string) : option (string * string) :=
  let i := LastIndexByte hostport ":" in
  if i <? 0 then None
  else
    let bracketed :=
      match hostport with
      | String c _ => Ascii.eqb c "["
      | EmptyString => false
      end in
    let host_j_k :=
      if bracketed then
        let end_ := IndexByte hostport "]" in
        if end_ <? 0 then None
        else if end_ + 1 =? len hostport then None
        else if end_ + 1 =? i then Some (slice hostport 1 end_, 1, end_ + 1)
        else None
      else
        let host := slice hostport 0 i in
        if 0 <=? IndexByte host ":" then None else Some (host, 0, 0) in
    match host_j_k with
    | None => None
    | Some (host, j, k) =>
        if 0 <=? IndexByte (slice_from hostport j) "[" then None
        else if 0 <=? IndexByte (slice_from hostport k) "]" then None
        else Some (host, slice_from hostport (i + 1))
    end.

(** [func (c *Config) GetRedisNodes() []string] *)
Definition GetRedisNodes (c : Config) : list string := RedisNodes c.

(** [func (c *Config) GetProxyAddress() string] *)
Definition GetProxyAddress (c : Config) : string := ":" +:+ Itoa (ProxyPort c).

(** [func (c *Config) ValidateConfig() error]; [Ok tt] is the nil error. *)
Definition ValidateConfig (c : Config) : result unit :=
  match RedisNodes c with
  | [] => Err (Errorf "Redis节点列表不能为空")
  | nodes =>
      match List.find (fun node => match SplitHostPort node with
                                   | None => true
                                   | Some _ => false
                                   end) nodes with
      | Some node => Err (Errorf ("无效的Redis节点地址: " +:+ node))
      | None => Ok tt
      end
  end.

(** Neither a colon nor a bracket occurs in [s]. *)
Definition plain (s : string) : bool :=
  without ":" s && without "[" s && without "]" s.

(** ** Vocabulary of the proofs *)

(** Every byte of [p] is above 127. *)
Fixpoint highBytes (p : string) : bool :=
  match p with
  | EmptyString => true
  | String c p' => (128 <=? byte_val c)%Z && highBytes p'
  end.

(** [b] is empty or starts with a byte below 128. *)
Definition lowHead (b : string) : bool :=
  match b with
  | EmptyString => true
  | String c _ => (byte_val c <? 128)%Z
  end.

(** The weight of a reply: the turns of the loop and the calls it takes
    to read it. *)
Fixpoint weight (v : Reply) : nat :=
  match v with
  | ArrayReply elems =>
      (2 + (fix weights (l : list Reply) : nat :=
              match l with
              | [] => 0
              | e :: l' => weight e + weights l'
              end) elems)%nat
  | NullArray => 2%nat
  | _ => 1%nat
  end.

Fixpoint weights (l : list Reply) : nat :=
  match l with
  | [] => 0%nat
  | e :: l' => (weight e + weights l')%nat
  end.

(** One turn of the loop of [readArrayResponse] reads one element. *)
Definition turnReads (v : Reply) : Prop :=
  wellFormed v = true ->
  forall fuel more i count response,
    (weight v <= S fuel)%nat -> i < count ->
    Wire.readElements_fuel (S fuel) (encode v +:+ more) i count response
    = Wire.readElements_fuel fuel more (i + 1) count (response +:+ encode v).

(** The address of the last node of [listed] that claims the slot, after
    the address [current]. *)
Definition ownerAfter (slot : Z) (listed : list ClusterNode) (current : string) : string :=
  match last (filter (fun node => claims slot node = true) listed) with
  | Some node => Address node
  | None => current
  end.

(** No white-space rune starts at a byte of [u], when [s] follows. *)
Fixpoint solid (u s : string) : bool :=
  match u with
  | EmptyString => true
  | String _ u' => Nat.eqb (space_width (u +:+ s)) 0 && solid u' s
  end.

(** The bytes of [s] are ASCII and not white space. *)
Fixpoint graphic (s : string) : bool :=
  match s with
  | EmptyString => true
  | String c s' => (byte_val c <? 128)%Z && negb (asciiSpace c) && graphic s'
  end.

(** The world after [ConnectionPool.Close]. *)
Definition closed (rangePools : gmap string NodePool -> list NodePool) (w : World) : World :=
  snd (ConnectionPool_Close rangePools w).

(* ===================================================================== *)
(** * Properties of the slot computation                                  *)
(* ===================================================================== *)

Lemma substring_all (s : string) : String.substring 0 (String.length s) s = s.
Proof. induction s as [|c s IH]; simpl; [reflexivity | now rewrite IH]. Qed.

(** The slot of every key is an index of the slot array. *)
Lemma calculateSlot_range (key : string) : 0 <= calculateSlot key < 16384.
Proof. unfold calculateSlot. apply Z.mod_pos_bound. lia. Qed.

(** A key that opens with an empty pair of braces is hashed as the empty
    string: its slot is 0 whatever follows. *)
Lemma hashKey_empty_tag (rest : string) : hashKey ("{}" +:+ rest) = EmptyString.
Proof.
  change ("{}" +:+ rest) with (String "{" (String "}" rest)).
  assert (H0 : Index (String "{" (String "}" rest)) "{" = 0) by reflexivity.
  assert (H1 : slice_from (String "{" (String "}" rest)) (0 + 1) = String "}" rest).
  { unfold slice_from, slice, len. cbn [String.length].
    replace (Z.to_nat (Z.of_nat (S (S (String.length rest))) - (0 + 1)))
      with (S (String.length rest)) by lia.
    change (Z.to_nat (0 + 1)) with 1%nat.
    cbn [String.substring]. now rewrite substring_all. }
  unfold hashKey. rewrite H0, H1.
  assert (H2 : Index (String "}" rest) "}" = 0) by reflexivity.
  rewrite H2. reflexivity.
Qed.

(** C1 (as the code has it). The CRC16 of [crc16CCITT] (polynomial 0x1021,
    initial value 0, no reflection, no final XOR) gives 0x0000 on the empty
    string, 0x31C3 on "123456789" (the check value of that variant) and
    0xAF96 on "foo"; with slot = CRC16 mod 16384 the slot of "foo" is
    12182, and so is the slot of "{foo}bar", whose hashed part is the tag
    "foo". *)
Theorem crc16_slot_vectors :
  crc16CCITT EmptyString = 0x0000 /\
  crc16CCITT "123456789" = 0x31C3 /\
  crc16CCITT "foo" = 0xAF96 /\
  calculateSlot "foo" = 12182 /\
  hashKey "{foo}bar" = "foo" /\
  calculateSlot "{foo}bar" = 12182 /\
  (forall key, calculateSlot key = crc16CCITT (hashKey key) mod 16384).
Proof.
  do 6 (split; [vm_compute; reflexivity|]).
  intros key. reflexivity.
Qed.

(** C1 (as the specification states it) does not hold: the vectors 0x29B1
    for "123456789", 0x7B30 and slot 7365 for "foo" are not those of the
    CRC with initial value 0. *)
Lemma crc16_spec_vectors_fail :
  ~ (crc16CCITT EmptyString = 0x0000 /\
     crc16CCITT "123456789" = 0x29B1 /\
     crc16CCITT "foo" = 0x7B30 /\
     calculateSlot "foo" = 7365 /\
     calculateSlot "{foo}bar" = 12182).
Proof. intros (_ & H & _). vm_compute in H. discriminate H. Qed.

(** C2 (the code at the failing input). For the key "{}abc" the code takes
    the empty string between the braces as the routing substring and hashes
    it: the slot is 0, whereas the slot of the whole key is 5980; the same
    goes for every key that opens with "{}". The other cases of the claim
    hold: without a closing brace after the opening one the whole key is
    hashed, and "{a}{b}" is hashed as "a". *)
Theorem calculateSlot_empty_tag_hashes_nothing :
  hashKey "{}abc" = EmptyString /\
  calculateSlot "{}abc" = 0 /\
  crc16CCITT "{}abc" mod 16384 = 5980 /\
  hashKey "{}" = EmptyString /\
  hashKey "abc{" = "abc{" /\
  hashKey "{" = "{" /\
  hashKey "{a}{b}" = "a" /\
  (forall rest, calculateSlot ("{}" +:+ rest) = 0).
Proof.
  do 7 (split; [vm_compute; reflexivity|]).
  intros rest. unfold calculateSlot. now rewrite hashKey_empty_tag.
Qed.

(* ===================================================================== *)
(** * Properties of the shard map                                         *)
(* ===================================================================== *)

Lemma slots_get_set (arr arr' : gmap Z string) (i : Z) (v : string) :
  slots_set arr i v = Some arr' -> slots_get arr' i = Some v.
Proof.
  unfold slots_set, slots_get. destruct (in_bounds i); [|discriminate].
  intros [= <-]. now rewrite lookup_insert_eq.
Qed.

(** C10. [GetNodeForSlot] is total: it never indexes the array outside its
    bounds; outside [0, 16383] it returns the empty string, inside it
    returns the content of the cell, which is the address last stored
    there. *)
Theorem GetNodeForSlot_total (cm : ClusterManager) (slot : Z) :
  GetNodeForSlot cm slot =
    Ok (if (0 <=? slot) && (slot <? 16384)
        then default EmptyString (slots cm !! slot)
        else EmptyString) /\
  (forall arr owner,
     slots_set arr slot owner = Some (slots cm) -> GetNodeForSlot cm slot = Ok owner).
Proof.
  split.
  - unfold GetNodeForSlot, slots_get, in_bounds, numSlots.
    destruct ((0 <=? slot) && (slot <? 16384)); reflexivity.
  - intros arr owner Hset.
    pose proof (slots_get_set _ _ _ _ Hset) as Hget.
    unfold slots_set, in_bounds, numSlots in Hset.
    unfold GetNodeForSlot. rewrite Hget.
    destruct ((0 <=? slot) && (slot <? 16384)); [reflexivity | discriminate].
Qed.

(* ===================================================================== *)
(** * Properties of the framing                                           *)
(* ===================================================================== *)

Section Framing.

Local Open Scope nat_scope.

Lemma sapp_cons (x : ascii) (a b : string) : String x a +:+ b = String x (a +:+ b).
Proof. reflexivity. Qed.

Lemma sapp_nil_l (b : string) : EmptyString +:+ b = b.
Proof. reflexivity. Qed.

Lemma sapp_assoc (a b c : string) : (a +:+ b) +:+ c = a +:+ (b +:+ c).
Proof.
  induction a as [|x a IH]; [reflexivity|].
  rewrite !sapp_cons, IH. reflexivity.
Qed.

Lemma sapp_nil_r (a : string) : a +:+ EmptyString = a.
Proof.
  induction a as [|x a IH]; [reflexivity|]. rewrite sapp_cons, IH. reflexivity.
Qed.

Lemma slength_app (a b : string) :
  String.length (a +:+ b) = String.length a + String.length b.
Proof.
  induction a as [|x a IH]; [reflexivity|].
  rewrite sapp_cons. simpl. now rewrite IH.
Qed.

Lemma substring_app (a b : string) :
  String.substring 0 (String.length a) (a +:+ b) = a.
Proof.
  induction a as [|x a IH]; [now destruct b|].
  rewrite sapp_cons. simpl. now rewrite IH.
Qed.

Lemma drop_app (a b : string) : drop (String.length a) (a +:+ b) = b.
Proof. induction a as [|x a IH]; [reflexivity|]. rewrite sapp_cons. exact IH. Qed.

Lemma rev_onto_app (s acc : string) : rev_onto s acc = rev s +:+ acc.
Proof.
  unfold rev. revert acc.
  induction s as [|c s IH]; intros acc; simpl; [reflexivity|].
  rewrite (IH (String c acc)), (IH (String c EmptyString)), sapp_assoc. reflexivity.
Qed.

Lemma rev_app (a b : string) : rev (a +:+ b) = rev b +:+ rev a.
Proof.
  induction a as [|c a IH].
  - now rewrite sapp_nil_l, sapp_nil_r.
  - rewrite sapp_cons. unfold rev at 1 3. simpl.
    rewrite !rev_onto_app, IH, sapp_assoc. reflexivity.
Qed.

Lemma rev_cons (c : ascii) (s : string) : rev (String c s) = rev s +:+ String c EmptyString.
Proof. unfold rev at 1. simpl. apply rev_onto_app. Qed.

Lemma rev_involutive (s : string) : rev (rev s) = s.
Proof.
  induction s as [|c s IH]; [reflexivity|].
  rewrite rev_cons, rev_app, IH. reflexivity.
Qed.

(** ** Decimal digits *)

Lemma parse_digits_string_of_uint (d : Decimal.uint) :
  forall acc, parse_digits acc (NilEmpty.string_of_uint d) = Some (uint_val acc d).
Proof. induction d; intros acc; simpl; try reflexivity; apply IHd. Qed.

Lemma allDigits_string_of_uint (d : Decimal.uint) :
  allDigits (NilEmpty.string_of_uint d) = true.
Proof. induction d; simpl; try reflexivity; exact IHd. Qed.

Lemma of_uint_acc_val (d : Decimal.uint) :
  forall acc : positive, Z.pos (Pos.of_uint_acc d acc) = uint_val (Z.pos acc) d.
Proof.
  induction d; intros acc; simpl; try reflexivity;
    rewrite IHd; f_equal; lia.
Qed.

Lemma of_uint_val (d : Decimal.uint) : Z.of_N (Pos.of_uint d) = uint_val 0 d.
Proof.
  induction d; simpl; try reflexivity; try exact IHd;
    rewrite of_uint_acc_val; reflexivity.
Qed.

Lemma Itoa_pos (p : positive) : Itoa (Z.pos p) = NilEmpty.string_of_uint (Pos.to_uint p).
Proof.
  unfold Itoa. simpl.
  pose proof (DecimalPos.Unsigned.to_uint_nonnil p) as Hn.
  destruct (Pos.to_uint p); [contradiction| reflexivity ..].
Qed.

Lemma Itoa_digits (n : Z) : (0 <= n)%Z -> allDigits (Itoa n) = true /\ Itoa n <> EmptyString.
Proof.
  intros Hn. destruct n as [|p|p]; [split; [reflexivity | discriminate] | | lia].
  rewrite Itoa_pos. split; [apply allDigits_string_of_uint|].
  pose proof (DecimalPos.Unsigned.to_uint_nonnil p) as Hnil.
  destruct (Pos.to_uint p); [contradiction | discriminate ..].
Qed.

Lemma parse_digits_Itoa (n : Z) : (0 <= n)%Z -> parse_digits 0 (Itoa n) = Some n.
Proof.
  intros Hn. destruct n as [|p|p]; [reflexivity | | lia].
  rewrite Itoa_pos, parse_digits_string_of_uint, <- of_uint_val.
  now rewrite DecimalPos.Unsigned.of_to.
Qed.

Lemma isDigit_not_sign (c : ascii) :
  isDigit c = true -> Ascii.eqb c "-" = false /\ Ascii.eqb c "+" = false.
Proof.
  destruct c as [[|] [|] [|] [|] [|] [|] [|] [|]]; intros H; try discriminate H;
    split; reflexivity.
Qed.

(** [strconv.Atoi] reads back what [%d] prints, for the lengths and counts
    of Go (from 0 to the largest [int]). *)
Lemma Atoi_Itoa (n : Z) : (0 <= n <= maxInt)%Z -> Atoi (Itoa n) = Some n.
Proof.
  intros Hn.
  destruct (Itoa_digits n) as [Hd Hne]; [lia|].
  pose proof (parse_digits_Itoa n) as Hp.
  destruct (Itoa n) as [|c s] eqn:E; [contradiction|].
  simpl in Hd. apply andb_prop in Hd as [Hc _].
  destruct (isDigit_not_sign c Hc) as [Hm Hpl].
  unfold Atoi. rewrite Hm, Hpl. cbn [orb].
  rewrite Hp by lia.
  assert (Hr : ((minInt <=? n) && (n <=? maxInt))%Z = true).
  { apply andb_true_intro. unfold minInt, maxInt in *. split; lia. }
  now rewrite Hr.
Qed.

(** ** Lines *)

Lemma isDigit_not_LF (c : ascii) : isDigit c = true -> Ascii.eqb c LF = false.
Proof.
  destruct c as [[|] [|] [|] [|] [|] [|] [|] [|]]; intros H; try discriminate H;
    reflexivity.
Qed.

Lemma allDigits_noLF (s : string) : allDigits s = true -> noLF s = true.
Proof.
  induction s as [|c s IH]; simpl; [reflexivity|].
  intros H. apply andb_prop in H as [Hc Hs].
  now rewrite (isDigit_not_LF c Hc), IH.
Qed.

Lemma ReadString_line (s rest : string) :
  noLF s = true ->
  ReadString LF (s +:+ String LF rest) = (s +:+ String LF EmptyString, false, rest).
Proof.
  induction s as [|c s IH]; intros H.
  - reflexivity.
  - simpl in H. apply andb_prop in H as [Hc Hs].
    rewrite !sapp_cons. simpl. apply negb_true_iff in Hc. rewrite Hc.
    now rewrite (IH Hs).
Qed.

(** Reading the header line [c ds CR LF] of a count or of a length. *)
Lemma ReadString_header (c : ascii) (ds rest : string) :
  Ascii.eqb c LF = false -> allDigits ds = true ->
  ReadString LF ((String c ds +:+ CRLF) +:+ rest) = (String c ds +:+ CRLF, false, rest).
Proof.
  intros Hc Hd.
  replace ((String c ds +:+ CRLF) +:+ rest)
    with ((String c ds +:+ String CR EmptyString) +:+ String LF rest).
  2:{ unfold CRLF. rewrite !sapp_assoc. reflexivity. }
  rewrite ReadString_line.
  - unfold CRLF. rewrite sapp_assoc. reflexivity.
  - rewrite sapp_cons. simpl. rewrite Hc. simpl.
    clear Hc. induction ds as [|d ds IH]; [reflexivity|].
    simpl in Hd. apply andb_prop in Hd as [Hd1 Hd2].
    rewrite sapp_cons. simpl. now rewrite (isDigit_not_LF d Hd1), IH.
Qed.

Lemma ReadString_CRLF (rest : string) :
  ReadString LF (CRLF +:+ rest) = (CRLF, false, rest).
Proof. reflexivity. Qed.

(** ** Trimming a header line *)

Lemma allDigits_app (a b : string) :
  allDigits (a +:+ b) = allDigits a && allDigits b.
Proof.
  induction a as [|c a IH]; [reflexivity|].
  rewrite sapp_cons. simpl. now rewrite IH, andb_assoc.
Qed.

Lemma allDigits_rev (s : string) : allDigits (rev s) = allDigits s.
Proof.
  induction s as [|c s IH]; [reflexivity|].
  rewrite rev_cons, allDigits_app, IH. simpl. rewrite andb_true_r. apply andb_comm.
Qed.

Lemma rev_nonempty (s : string) : s <> EmptyString -> rev s <> EmptyString.
Proof.
  intros Hs Hr. apply Hs. rewrite <- (rev_involutive s), Hr. reflexivity.
Qed.

Lemma digit_not_space_last (d : ascii) (r : string) :
  isDigit d = true -> space_width_last (String d r) = 0.
Proof.
  destruct d as [[|] [|] [|] [|] [|] [|] [|] [|]]; intros H; try discriminate H;
    reflexivity.
Qed.

Lemma TrimSpace_header (c : ascii) (ds : string) :
  c = "*"%char \/ c = "$"%char -> ds <> EmptyString -> allDigits ds = true ->
  TrimSpace (String c ds +:+ CRLF) = String c ds.
Proof.
  intros Hc Hne Hd.
  assert (Hl : TrimLeftSpace (String c ds +:+ CRLF) = String c ds +:+ CRLF).
  { rewrite sapp_cons. unfold TrimLeftSpace. simpl String.length. simpl trim_head.
    destruct Hc as [-> | ->]; reflexivity. }
  unfold TrimSpace. rewrite Hl. unfold TrimRightSpace.
  assert (Hrev : rev (String c ds +:+ CRLF) = String LF (String CR (rev (String c ds)))).
  { rewrite rev_app. reflexivity. }
  rewrite Hrev.
  destruct (rev ds) as [|d r] eqn:Er; [now apply rev_nonempty in Er|].
  assert (Hdd : isDigit d = true).
  { pose proof (allDigits_rev ds) as Ha. rewrite Er, Hd in Ha. simpl in Ha.
    now apply andb_prop in Ha as [Ha _]. }
  rewrite slength_app, rev_cons, Er, sapp_cons.
  simpl String.length. rewrite Nat.add_comm.
  change (2 + S (String.length ds)) with (S (S (S (String.length ds)))).
  assert (H1 : forall x, space_width_last (String LF x) = 1) by reflexivity.
  assert (H2 : forall x, space_width_last (String CR x) = 1) by reflexivity.
  cbn [trim_head]. rewrite H1. cbn [drop]. rewrite H2. cbn [drop].
  rewrite (digit_not_space_last d _ Hdd).
  rewrite <- sapp_cons, <- Er, <- rev_cons. apply rev_involutive.
Qed.

(** ** Bulk strings and commands *)

Lemma slice_from_tail (c : ascii) (s : string) : slice_from (String c s) 1%Z = s.
Proof.
  unfold slice_from, slice, len. simpl String.length.
  replace (Z.to_nat (Z.of_nat (S (String.length s)) - 1)) with (String.length s) by lia.
  change (Z.to_nat 1) with 1. simpl. apply substring_all.
Qed.

Lemma formatArg_shape (arg rest : string) :
  formatArg arg +:+ rest
  = (String "$" (Itoa (len arg)) +:+ CRLF) +:+ (arg +:+ (CRLF +:+ rest)).
Proof.
  unfold formatArg. rewrite !sapp_assoc. reflexivity.
Qed.

Lemma parseBulkString_formatArg (arg rest : string) :
  (len arg <= maxInt)%Z ->
  parseBulkString (formatArg arg +:+ rest) = (Ok arg, rest).
Proof.
  intros Hlen.
  assert (H0 : (0 <= len arg)%Z) by (unfold len; lia).
  destruct (Itoa_digits (len arg) H0) as [Hd Hne].
  rewrite formatArg_shape. unfold parseBulkString.
  rewrite ReadString_header by (reflexivity || exact Hd).
  rewrite TrimSpace_header by (auto || exact Hd).
  rewrite Atoi_Itoa by lia.
  destruct (Z.eqb_spec (len arg) (-1)) as [E|_]; [lia|].
  destruct (Z.eqb_spec (len arg) 0) as [E|E].
  - assert (arg = EmptyString) as ->.
    { destruct arg; [reflexivity | unfold len in E; simpl in E; lia]. }
    rewrite sapp_nil_l, ReadString_CRLF. reflexivity.
  - destruct (Z.ltb_spec (len arg) 0) as [F|_]; [lia|].
    unfold ReadFull, len. rewrite Nat2Z.id.
    assert (Hle : (String.length arg <=? String.length (arg +:+ (CRLF +:+ rest))) = true).
    { apply Nat.leb_le. rewrite slength_app. lia. }
    rewrite Hle, substring_app, drop_app, ReadString_CRLF. reflexivity.
Qed.

Lemma parseBulkStrings_formatArgs (command : list string) :
  forall rest,
    Forall (fun arg => (len arg <= maxInt)%Z) command ->
    parseBulkStrings (length command) (formatArgs command +:+ rest) = (Ok command, rest).
Proof.
  induction command as [|arg command IH]; intros rest Hall.
  - reflexivity.
  - inversion Hall as [|? ? Harg Hrest]; subst.
    simpl length. cbn [formatArgs parseBulkStrings].
    rewrite sapp_assoc, parseBulkString_formatArg by exact Harg.
    rewrite IH by exact Hrest. reflexivity.
Qed.

Lemma ParseCommand_formatCommand_rest (command : list string) (rest : string) :
  (Z.of_nat (length command) <= maxInt)%Z ->
  Forall (fun arg => (len arg <= maxInt)%Z) command ->
  ParseCommand (formatCommand command +:+ rest) = (Ok command, rest).
Proof.
  intros Hcount Hall.
  assert (H0 : (0 <= Z.of_nat (length command))%Z) by lia.
  destruct (Itoa_digits _ H0) as [Hd Hne].
  unfold formatCommand.
  replace (("*" +:+ Itoa (Z.of_nat (length command)) +:+ CRLF +:+ formatArgs command) +:+ rest)
    with ((String "*" (Itoa (Z.of_nat (length command))) +:+ CRLF)
            +:+ (formatArgs command +:+ rest))
    by (rewrite !sapp_assoc; reflexivity).
  unfold ParseCommand.
  rewrite ReadString_header by (reflexivity || exact Hd).
  rewrite TrimSpace_header by (auto || exact Hd).
  change (Ascii.eqb "*" "*") with true. cbv iota.
  unfold parseArrayCommand. rewrite slice_from_tail, Atoi_Itoa by lia.
  destruct (Z.leb_spec (Z.of_nat (length command)) 0) as [E|E].
  - destruct command; [reflexivity | simpl in E; lia].
  - rewrite Nat2Z.id. now apply parseBulkStrings_formatArgs.
Qed.

End Framing.

(** C7. Framing a command with [formatCommand] (the bytes that
    [sendCommandToBackend] writes) and parsing those bytes with
    [ParseCommand] gives back the argument vector, whatever the bytes of the
    arguments, and leaves no byte unread. The hypotheses are what Go's
    types give: a count and lengths that fit [int]. *)
Theorem ParseCommand_formatCommand (command : list string) :
  (Z.of_nat (length command) <= maxInt)%Z ->
  Forall (fun arg => (len arg <= maxInt)%Z) command ->
  ParseCommand (formatCommand command) = (Ok command, EmptyString).
Proof.
  intros Hcount Hall.
  rewrite <- (sapp_nil_r (formatCommand command)).
  now apply ParseCommand_formatCommand_rest.
Qed.

(** The round trip on a command with bytes of every kind. *)
Lemma ParseCommand_formatCommand_witness :
  ParseCommand (formatCommand binaryCommand) = (Ok binaryCommand, EmptyString).
Proof.
  apply (ParseCommand_formatCommand binaryCommand).
  - vm_compute. discriminate.
  - repeat constructor; vm_compute; discriminate.
Defined.

(* ===================================================================== *)
(** * Hash tags                                                           *)
(* ===================================================================== *)

Lemma Index_first (c : ascii) (pre rest : string) :
  without c pre = true ->
  Index (pre +:+ String c rest) (String c EmptyString) = len pre.
Proof.
  induction pre as [|a pre IH]; intros Hpre.
  - rewrite sapp_nil_l. cbn [Index HasPrefix]. now rewrite Ascii.eqb_refl.
  - simpl in Hpre. apply andb_prop in Hpre as [Ha Hpre].
    apply negb_true_iff in Ha.
    rewrite sapp_cons. cbn [Index HasPrefix]. rewrite Ha.
    rewrite (IH Hpre).
    destruct (Z.eqb_spec (len pre) (-1)) as [E|_]; unfold len in *; simpl String.length; lia.
Qed.

Lemma substring_skip (a b : string) (n m : nat) :
  String.substring (String.length a + n) m (a +:+ b) = String.substring n m b.
Proof.
  induction a as [|x a IH]; [reflexivity|]. rewrite sapp_cons. exact IH.
Qed.

(** The routing substring of a key with a tag: for a key made of a part
    without an opening brace, an opening brace, a tag without a closing
    brace, a closing brace and anything, [calculateSlot] hashes the tag. *)
Lemma hashKey_tag (pre tag rest : string) :
  without "{" pre = true -> without "}" tag = true ->
  hashKey (pre +:+ "{" +:+ tag +:+ "}" +:+ rest) = tag.
Proof.
  intros Hpre Htag.
  change (pre +:+ "{" +:+ tag +:+ "}" +:+ rest)
    with (pre +:+ String "{" (tag +:+ String "}" rest)).
  unfold hashKey.
  rewrite (Index_first "{" pre _ Hpre).
  assert (Hlen : (len pre =? -1) = false) by (apply Z.eqb_neq; unfold len; lia).
  rewrite Hlen. cbn [negb].
  assert (Htail : slice_from (pre +:+ String "{" (tag +:+ String "}" rest)) (len pre + 1)
                  = tag +:+ String "}" rest).
  { unfold slice_from, slice, len.
    rewrite slength_app. simpl String.length.
    replace (Z.to_nat (Z.of_nat (String.length pre) + 1))
      with (String.length pre + 1)%nat by lia.
    rewrite substring_skip. simpl String.substring.
    replace (Z.to_nat _) with (String.length (tag +:+ String "}" rest))
      by (rewrite slength_app; simpl String.length; lia).
    apply substring_all. }
  rewrite Htail, (Index_first "}" tag _ Htag).
  assert (Hlen2 : (len tag =? -1) = false) by (apply Z.eqb_neq; unfold len; lia).
  rewrite Hlen2. cbn [negb].
  unfold slice, len.
  replace (Z.to_nat (Z.of_nat (String.length pre) + 1))
    with (String.length pre + 1)%nat by lia.
  rewrite substring_skip. simpl String.substring.
  replace (Z.to_nat _) with (String.length tag) by lia.
  apply substring_app.
Qed.

(** Keys with the same tag fall into the same slot. *)
Lemma calculateSlot_same_tag (pre1 pre2 tag rest1 rest2 : string) :
  without "{" pre1 = true -> without "{" pre2 = true -> without "}" tag = true ->
  calculateSlot (pre1 +:+ "{" +:+ tag +:+ "}" +:+ rest1)
  = calculateSlot (pre2 +:+ "{" +:+ tag +:+ "}" +:+ rest2).
Proof.
  intros H1 H2 Ht. unfold calculateSlot. now rewrite !hashKey_tag.
Qed.

(** A key without an opening brace, or without a closing brace after the
    first opening one, is hashed whole. *)
Lemma hashKey_no_tag (key : string) :
  without "{" key = true -> hashKey key = key.
Proof.
  intros H. unfold hashKey.
  assert (Hi : Index key "{" = -1).
  { induction key as [|a key IH]; [reflexivity|].
    simpl in H. apply andb_prop in H as [Ha Hk]. apply negb_true_iff in Ha.
    cbn [Index HasPrefix]. rewrite Ha, (IH Hk). reflexivity. }
  now rewrite Hi.
Qed.

(* ===================================================================== *)
(** * Properties of the topology parser                                   *)
(* ===================================================================== *)



(** A range inside the array is written without a panic. *)
Lemma fillSlots_in_bounds (fuel : nat) :
  forall slot end_ addr arr,
    0 <= slot -> end_ < numSlots -> end_ - slot < Z.of_nat fuel ->
    exists arr', fillSlots fuel slot end_ addr arr = Ok arr'.
Proof.
  induction fuel as [|fuel IH]; intros slot end_ addr arr H0 H1 Hf.
  - simpl. destruct (Z.leb_spec slot end_); [lia | eauto].
  - simpl. destruct (Z.leb_spec slot end_) as [Hle|Hgt]; [|eauto].
    unfold slots_set, in_bounds, numSlots in *.
    destruct (Z.leb_spec 0 slot); [|lia].
    destruct (Z.ltb_spec slot 16384); [|lia].
    cbn [andb]. apply IH; lia.
Qed.

(** A range that reaches past the last cell panics. *)
Lemma fillSlots_past_end (fuel : nat) :
  forall slot end_ addr arr,
    (1 <= fuel)%nat ->
    slot <= end_ -> numSlots <= end_ -> numSlots - slot < Z.of_nat fuel ->
    fillSlots fuel slot end_ addr arr = Panic.
Proof.
  induction fuel as [|fuel IH]; intros slot end_ addr arr H1f Hle Hend Hf; [lia|].
  - simpl. destruct (Z.leb_spec slot end_) as [_|Hgt]; [|lia].
    unfold slots_set, in_bounds, numSlots in *.
    destruct (Z.leb_spec 0 slot); [|reflexivity].
    destruct (Z.ltb_spec slot 16384); [|reflexivity].
    cbn [andb]. apply IH; lia.
Qed.

(** A range that starts below the first cell panics at once. *)
Lemma fillSlots_before_start (fuel : nat) (slot end_ : Z) (addr : string)
    (arr : gmap Z string) :
  (1 <= fuel)%nat -> slot < 0 -> slot <= end_ ->
  fillSlots fuel slot end_ addr arr = Panic.
Proof.
  intros Hf Hneg Hle. destruct fuel as [|fuel]; [lia|].
  cbn [fillSlots]. destruct (Z.leb_spec slot end_); [|lia].
  unfold slots_set, in_bounds.
  destruct (Z.leb_spec 0 slot); [lia | reflexivity].
Qed.

(** C8 (the code at the failing input). [parseSlotRange] accepts any
    decimal numbers: "16384" gives the range {16384, 16384} and "5-3" the
    range {5, 3}; rebuilding the slot array from a topology whose master
    claims slot 16384 indexes the array out of bounds and panics, as does
    the loop over any range that is not empty and ends past 16383. *)
Theorem parseClusterNodes_slot_out_of_bounds :
  parseSlotRange "16384" = Some {| Start := 16384; End := 16384 |} /\
  parseSlotRange "5-3" = Some {| Start := 5; End := 3 |} /\
  (forall now cm, parseClusterNodes now cm badTopology = Panic) /\
  (forall now cm,
     exists cm', parseClusterNodes now cm reversedTopology = Ok cm' /\ slots cm' = ∅) /\
  (forall r rest addr arr,
     Start r <= End r -> 16384 <= End r -> assignSlots (r :: rest) addr arr = Panic).
Proof.
  split; [reflexivity|]. split; [reflexivity|]. split; [|split].
  - intros now cm. vm_compute. reflexivity.
  - intros now cm. eexists. split; [vm_compute; reflexivity|]. reflexivity.
  - intros r rest addr arr Hne Hend. cbn [assignSlots].
    destruct (Z.lt_ge_cases (Start r) 0) as [Hneg|Hpos].
    + rewrite fillSlots_before_start; [reflexivity | | exact Hneg | exact Hne].
      unfold fillFuel, numSlots. lia.
    + rewrite fillSlots_past_end; [reflexivity | | exact Hne | | ];
        unfold fillFuel, numSlots; lia.
Qed.

(* ===================================================================== *)
(** * Properties of the router                                            *)
(* ===================================================================== *)

(** C9. A command made of a key-routed verb alone (fewer than two
    arguments, so no key) is routed to the first configured seed node.
    The seed list is not empty: [ValidateConfig] refuses an empty one
    before the proxy is built. *)
Theorem selectBackendNode_keyless_fallback
    (unicodeToUpper : string -> string)
    (rangeNodes : gmap string ClusterNode -> list ClusterNode)
    (proxy : RedisClusterProxy) (command : list string) (verb first : string)
    (others : list string) :
  head command = Some verb ->
  (length command < 2)%nat ->
  isKeyRouted (ToUpper unicodeToUpper verb) = true ->
  RedisNodes (proxyConfig proxy) = first :: others ->
  selectBackendNode unicodeToUpper rangeNodes proxy command = Ok first.
Proof.
  intros Hhead Hlen Hverb Hseeds.
  destruct command as [|v [|key rest]]; simpl in Hhead, Hlen; try discriminate; [|lia].
  injection Hhead as ->.
  unfold selectBackendNode. rewrite Hverb.
  unfold selectNodeByKey. now rewrite Hseeds.
Qed.

(** The lone verb "hget" under the default configuration. *)
Lemma selectBackendNode_keyless_fallback_witness :
  selectBackendNode (fun s => s) (fun _ => [])
    (NewRedisClusterProxy defaultConfig) ["hget"] = Ok "127.0.0.1:7000".
Proof.
  apply (selectBackendNode_keyless_fallback (fun s => s) (fun _ => [])
           (NewRedisClusterProxy defaultConfig) ["hget"] "hget" "127.0.0.1:7000"
           ["127.0.0.1:7001"; "127.0.0.1:7002"]).
  - reflexivity.
  - simpl. lia.
  - vm_compute. reflexivity.
  - reflexivity.
Defined.

(* ===================================================================== *)
(** * The primitives, run                                                 *)
(* ===================================================================== *)

Lemma closedConns_app (a b : list Event) :
  closedConns (a ++ b) = closedConns a ++ closedConns b.
Proof. apply omap_app. Qed.

Lemma dispatches_app (command : list string) (a b : list Event) :
  dispatches command (a ++ b) = (dispatches command a + dispatches command b)%nat.
Proof. unfold dispatches. now rewrite filter_app, length_app. Qed.

(** After [GetConnection] the pool of the address is in the map. *)
Lemma GetConnection_pool (addr : string) (w : World) :
  exists np, pools (snd (GetConnection addr w)) !! addr = Some np.
Proof.
  unfold GetConnection, bind, getPool, setPool, ret.
  destruct (NodePool_GetConnection _ _) as [[r np] w'] eqn:E.
  exists np. cbn. apply lookup_insert_eq.
Qed.

Lemma ReturnConnection_run (addr : string) (c : Conn) (w : World) (np : NodePool) :
  pools w !! addr = Some np ->
  ReturnConnection addr c w =
    (tt, if hasRoom np
         then {| pools := <[addr := setConnections np (buf (connections np) ++ [c])]> (pools w);
                 net := net w; nextConn := nextConn w; trace := trace w |}
         else {| pools := <[addr := setCurrentSize np (currentSize np - 1)]> (pools w);
                 net := net w; nextConn := nextConn w;
                 trace := trace w ++ [EvClose c] |}).
Proof.
  intros Hnp.
  unfold ReturnConnection, getPool, setPool, bind, NodePool_ReturnConnection, closeConn,
    emit, ret, hasRoom.
  rewrite Hnp. destruct (_ <? _)%nat; reflexivity.
Qed.

Lemma backendWrite_run (c : Conn) (data : string) (w : World) :
  backendWrite c data w =
    (ioUnit (fst (nextIo (net w))),
     {| pools := pools w; net := snd (nextIo (net w)); nextConn := nextConn w;
        trace := trace w ++ [EvBackendWrite c data (ioOk (fst (nextIo (net w))))] |}).
Proof.
  unfold backendWrite, bind, io, emit, ret.
  destruct w as [ps [|[d|m|] rest] nc tr]; reflexivity.
Qed.

Lemma backendRead_run (c : Conn) (w : World) :
  backendRead c w =
    (ioData (fst (nextIo (net w))),
     {| pools := pools w; net := snd (nextIo (net w)); nextConn := nextConn w;
        trace := trace w ++ [EvBackendRead c (ioOk (fst (nextIo (net w))))] |}).
Proof.
  unfold backendRead, bind, io, emit, ret.
  destruct w as [ps [|[d|m|] rest] nc tr]; reflexivity.
Qed.

Lemma readLine_run (c : Conn) (w : World) :
  readLine c w =
    (ioLine (fst (nextIo (net w))),
     {| pools := pools w; net := snd (nextIo (net w)); nextConn := nextConn w;
        trace := trace w ++ [EvBackendRead c (isOk (ioLine (fst (nextIo (net w)))))] |}).
Proof.
  unfold readLine, bind, io, emit, ret.
  destruct w as [ps [|[d|m|] rest] nc tr]; try reflexivity.
  cbn [net nextIo fst snd ioLine].
  destruct (ReadString LF d) as [[line [|]] r]; reflexivity.
Qed.

Lemma readBackendResponse_run (c : Conn) (w : World) :
  readBackendResponse c w =
    (ioReply (fst (nextIo (net w))),
     {| pools := pools w; net := snd (nextIo (net w)); nextConn := nextConn w;
        trace := trace w ++ [EvBackendRead c (isOk (ioReply (fst (nextIo (net w)))))] |}).
Proof.
  unfold readBackendResponse, bind, io, emit, ret.
  destruct w as [ps [|[d|m|] rest] nc tr]; reflexivity.
Qed.

Lemma clientWrite_run (data : string) (w : World) :
  clientWrite data w =
    (ioUnit (fst (nextIo (net w))),
     {| pools := pools w; net := snd (nextIo (net w)); nextConn := nextConn w;
        trace := trace w ++ [EvClientWrite data (ioOk (fst (nextIo (net w))))] |}).
Proof.
  unfold clientWrite, bind, io, emit, ret.
  destruct w as [ps [|[d|m|] rest] nc tr]; reflexivity.
Qed.

Lemma sendError_run (message : string) (w : World) :
  sendError message w =
    (match ioUnit (fst (nextIo (net w))) with Blocked => Blocked | _ => Ok tt end,
     {| pools := pools w; net := snd (nextIo (net w)); nextConn := nextConn w;
        trace := trace w ++
          [EvClientWrite (FormatError message) (ioOk (fst (nextIo (net w))))] |}).
Proof.
  unfold sendError, bind, ret. rewrite clientWrite_run.
  destruct (ioUnit (fst (nextIo (net w)))); reflexivity.
Qed.

(** The turn after [sendError] is read off the outcome of the write. *)
Lemma afterSend_sendError (r : IoResult) (next : Turn) :
  afterSend (match ioUnit r with Blocked => Blocked | _ => Ok tt end) next
  = afterSend (ioUnit r) next.
Proof. destruct r; reflexivity. Qed.

(** The deferred [ReturnConnection], run. *)
Lemma deferred_run {A : Type} (body : M (result A)) (addr : string) (c : Conn) (w : World) :
  (res <- body ;;
   match res with
   | Blocked => ret Blocked
   | _ => ReturnConnection addr c ;;; ret res
   end)%proxy w = handBack addr c (body w).
Proof.
  unfold bind, handBack, ret. destruct (body w) as [res w1]. cbn [fst snd].
  destruct res; try reflexivity; now destruct (ReturnConnection addr c w1).
Qed.

(** ** Readers only move forward *)

Lemma ReadString_length (delim : ascii) (r : Reader) :
  forall line eof rest,
    ReadString delim r = (line, eof, rest) ->
    (String.length rest <= String.length r)%nat /\
    (eof = false -> String.length rest < String.length r)%nat.
Proof.
  induction r as [|c r IH]; intros line eof rest H; simpl in H.
  - injection H as <- <- <-. split; [reflexivity | discriminate].
  - destruct (Ascii.eqb c delim).
    + injection H as <- <- <-. simpl. split; intros; lia.
    + destruct (ReadString delim r) as [[l e] rs].
      injection H as <- <- <-.
      destruct (IH l e rs eq_refl) as [H1 H2]. simpl. split; [lia|].
      intros He. specialize (H2 He). lia.
Qed.

Lemma drop_length (n : nat) (s : string) :
  (String.length (drop n s) <= String.length s)%nat.
Proof.
  revert s. induction n as [|n IH]; intros [|c s]; simpl; try lia.
  specialize (IH s). lia.
Qed.

Lemma ReadFull_length (n : nat) (r : Reader) :
  (String.length (snd (ReadFull n r)) <= String.length r)%nat.
Proof.
  unfold ReadFull. destruct (n <=? String.length r)%nat.
  - apply drop_length.
  - destruct r; simpl; lia.
Qed.




(* ===================================================================== *)
(** * Properties of the connection pool                                   *)
(* ===================================================================== *)

(** The probe and the dial close nothing. *)
Lemma isConnectionValid_closes_nothing (conn : Conn) (w : World) :
  closedConns (trace (snd (isConnectionValid conn w))) = closedConns (trace w).
Proof.
  unfold isConnectionValid, bind, ret. rewrite backendWrite_run.
  destruct (nextIo (net w)) as [[d|m|] rest]; cbn [fst snd ioUnit ioOk];
    try (cbn [trace]; rewrite closedConns_app; cbn; now rewrite app_nil_r).
  rewrite backendRead_run. cbn [pools net nextConn trace].
  destruct (nextIo rest) as [[d2|m2|] rest2]; cbn [fst snd ioData ioOk trace];
    rewrite !closedConns_app; cbn; now rewrite !app_nil_r.
Qed.

Lemma createConnection_closes_nothing (np : NodePool) (w : World) :
  closedConns (trace (snd (createConnection np w))) = closedConns (trace w) /\
  currentSize np <= currentSize (snd (fst (createConnection np w))).
Proof.
  unfold createConnection, bind, io, freshConn, emit, ret.
  destruct (currentSize np >=? maxSize np);
    [split; [reflexivity | cbn [fst snd]; lia]|].
  destruct w as [ps [|[d|m|] rest] nc tr]; cbn -[Z.le Z.add];
    (split; [|lia]); try reflexivity.
  rewrite closedConns_app. cbn. now rewrite app_nil_r.
Qed.

(** C6 (the code at the failing input). After the failed probe the pool
    holds no idle socket, has handed out socket 1, and counts 2 sockets:
    socket 0, which failed the probe, was not closed and its place in
    [currentSize] was not given up. Ten such sockets fill the pool: the
    next acquisition fails with "pool full" although the dial would
    succeed and only one socket is in the queue. So it goes in every pool:
    an acquisition that meets an idle socket failing its probe closes no
    socket and does not lower [currentSize]. *)
Theorem NodePool_failed_probe_keeps_count :
  (let '(r, np, w) := probeFailureRun in
   r = Ok 1%nat /\
   buf (connections np) = [] /\
   currentSize np = 2 /\
   createdConns (trace w) = [0%nat; 1%nat] /\
   closedConns (trace w) = []) /\
  (let '(np, w) :=
     probeFailureRounds 10 (newNodePool "10.0.0.1:7000") (freshWorld exhaustionScript) in
   currentSize np = 10 /\
   buf (connections np) = [9%nat] /\
   closedConns (trace w) = [] /\
   fst (fst (NodePool_GetConnection np
               {| pools := pools w; net := [IoErr "broken pipe"; IoOk EmptyString];
                  nextConn := nextConn w; trace := trace w |}))
     = Err (Errorf "连接池已满")) /\
  (forall np conn rest w,
     buf (connections np) = conn :: rest ->
     fst (isConnectionValid conn w) = Ok false ->
     closedConns (trace (snd (NodePool_GetConnection np w))) = closedConns (trace w) /\
     currentSize np <= currentSize (snd (fst (NodePool_GetConnection np w)))).
Proof.
  split; [|split].
  - vm_compute. repeat split; reflexivity.
  - vm_compute. repeat split; reflexivity.
  - intros np conn rest w Hbuf Hprobe.
    unfold NodePool_GetConnection. rewrite Hbuf. unfold bind.
    pose proof (isConnectionValid_closes_nothing conn w) as Hv.
    destruct (isConnectionValid conn w) as [valid w1]. cbn [fst snd] in *. subst valid.
    destruct (createConnection_closes_nothing (setConnections np rest) w1) as [Hc Hs].
    rewrite Hc, Hv. split; [reflexivity | exact Hs].
Qed.

(* ===================================================================== *)
(** * Properties of the session                                           *)
(* ===================================================================== *)

Section Session.

Variable unicodeToUpper : string -> string.
Variable rangeNodes : gmap string ClusterNode -> list ClusterNode.

(** ** Sockets handed back *)

(** [ReturnConnection] writes to no backend: it adds nothing to the trace,
    or the closing of the socket. *)
Lemma ReturnConnection_trace (addr : string) (c : Conn) (w : World) :
  exists evs,
    trace (snd (ReturnConnection addr c w)) = trace w ++ evs /\
    (evs = [] \/ evs = [EvClose c]).
Proof.
  unfold ReturnConnection, getPool, setPool, bind, NodePool_ReturnConnection, closeConn,
    emit, ret.
  destruct (pools w !! addr) as [np|]; [destruct (_ <? _)%nat|]; cbn.
  - exists []. rewrite app_nil_r. auto.
  - exists [EvClose c]. auto.
  - exists [EvClose c]. auto.
Qed.





(** ** One call of [executeCommandWithRedirect] *)

Lemma redirectFuel_S (count : Z) :
  count <= 5 -> redirectFuel count = S (redirectFuel (count + 1)).
Proof.
  intros H. unfold redirectFuel.
  replace (6 - count) with (Z.succ (6 - (count + 1))) by lia.
  rewrite Z2Nat.inj_succ by lia. reflexivity.
Qed.

(** The call, unfolded down to the acquisition of the socket. *)
Ltac enter_call Hc Hget :=
  unfold executeCommandWithRedirect; rewrite (redirectFuel_S _ Hc);
  cbn [executeCommandWithRedirect_fuel];
  match goal with
  | |- context [?k >? 5] => destruct (Z.gtb_spec k 5) as [?Hgt|_]; [exfalso; lia|]
  end;
  unfold bind at 1; rewrite Hget; rewrite deferred_run; f_equal;
  unfold sendCommandToBackend.




(** The reply is not a redirect, or redirects are not followed for the
    command: the reply goes to the client. *)
Lemma executeCommandWithRedirect_plain (proxy : RedisClusterProxy)
    (command : list string) (addr : string) (count : Z) (w w1 : World) (c : Conn)
    (response : string) :
  count <= 5 ->
  GetConnection addr w = (Ok c, w1) ->
  ioUnit (fst (nextIo (net w1))) = Ok tt ->
  ioReply (fst (nextIo (snd (nextIo (net w1))))) = Ok response ->
  shouldAutoRedirect unicodeToUpper proxy command = false \/
  (fst (fst (IsMovedError response)) = false /\ fst (fst (IsAskError response)) = false) ->
  executeCommandWithRedirect unicodeToUpper proxy command addr count w
  = handBack addr c (clientWrite response (dispatched w1 c command)).
Proof.
  intros Hc Hget Hwr Hrd Hplain.
  enter_call Hc Hget.
  unfold bind at 1. rewrite backendWrite_run, Hwr.
  unfold bind at 1. rewrite readBackendResponse_run.
  cbn [pools net nextConn trace]. rewrite Hrd.
  unfold dispatched, after.
  destruct (fst (nextIo (net w1))); try discriminate Hwr. cbn [ioOk isOk].
  destruct (IsMovedError response) as [[isMoved s1] a1].
  destruct (IsAskError response) as [[isAsk s2] a2].
  destruct Hplain as [-> | [Hm Ha]].
  - destruct isMoved, isAsk; reflexivity.
  - cbn in Hm, Ha. subst. reflexivity.
Qed.

(** ** A chain of redirects, unwound *)





(** ** A dispatch that fails *)



(** ** The handshake before an ASK redirect *)






(** ** How often a command is dispatched *)

Section Dispatches.

Variable command : list string.

Lemma adds_refl (k : nat) (w : World) : adds command k w w.
Proof. exists []. rewrite app_nil_r. split; [reflexivity | cbn; lia]. Qed.

Lemma adds_same (k : nat) (w w' : World) : trace w' = trace w -> adds command k w w'.
Proof. intros H. exists []. rewrite app_nil_r. split; [exact H | cbn; lia]. Qed.

Lemma adds_trans (k1 k2 k : nat) (w w1 w2 : World) :
  adds command k1 w w1 -> adds command k2 w1 w2 -> (k1 + k2 <= k)%nat -> adds command k w w2.
Proof.
  intros (e1 & H1 & B1) (e2 & H2 & B2) Hk. exists (e1 ++ e2). split.
  - rewrite H2, H1, app_assoc. reflexivity.
  - rewrite dispatches_app. lia.
Qed.

Lemma adds_weaken (k k' : nat) (w w' : World) :
  adds command k w w' -> (k <= k')%nat -> adds command k' w w'.
Proof. intros (evs & H & B) Hk. exists evs. split; [exact H | lia]. Qed.

Lemma adds_event (k : nat) (w w' : World) (e : Event) :
  trace w' = trace w ++ [e] -> (dispatches command [e] <= k)%nat -> adds command k w w'.
Proof. intros H B. exists [e]. auto. Qed.

Lemma dispatches_one (e : Event) : (dispatches command [e] <= 1)%nat.
Proof. unfold dispatches. cbn. destruct (decide _); cbn; lia. Qed.

Lemma formatCommand_head : exists s, formatCommand command = String "*" s.
Proof. unfold formatCommand. eexists. reflexivity. Qed.

Lemma dispatches_other_write (c : Conn) (x : ascii) (s : string) (ok : bool) :
  x <> "*"%char -> dispatches command [EvBackendWrite c (String x s) ok] = 0%nat.
Proof.
  intros Hx. destruct formatCommand_head as [t Ht].
  unfold dispatches. cbn. rewrite Ht.
  destruct (decide _) as [E|E]; [|reflexivity].
  destruct (Ascii.eqb_spec x "*"); [contradiction | discriminate E].
Qed.

Lemma backendWrite_adds (c : Conn) (data : string) (w : World) :
  adds command 1 w (snd (backendWrite c data w)).
Proof.
  rewrite backendWrite_run. eapply adds_event; [reflexivity | apply dispatches_one].
Qed.

Lemma backendWrite_other_adds (c : Conn) (x : ascii) (s : string) (w : World) :
  x <> "*"%char -> adds command 0 w (snd (backendWrite c (String x s) w)).
Proof.
  intros Hx. rewrite backendWrite_run. eapply adds_event; [reflexivity|].
  now rewrite dispatches_other_write.
Qed.

Lemma backendRead_adds (c : Conn) (w : World) : adds command 0 w (snd (backendRead c w)).
Proof. rewrite backendRead_run. eapply adds_event; reflexivity. Qed.

Lemma readLine_adds (c : Conn) (w : World) : adds command 0 w (snd (readLine c w)).
Proof. rewrite readLine_run. eapply adds_event; reflexivity. Qed.

Lemma readBackendResponse_adds (c : Conn) (w : World) :
  adds command 0 w (snd (readBackendResponse c w)).
Proof. rewrite readBackendResponse_run. eapply adds_event; reflexivity. Qed.

Lemma clientWrite_adds (data : string) (w : World) : adds command 0 w (snd (clientWrite data w)).
Proof. rewrite clientWrite_run. eapply adds_event; reflexivity. Qed.

Lemma ReturnConnection_adds (addr : string) (c : Conn) (w : World) :
  adds command 0 w (snd (ReturnConnection addr c w)).
Proof.
  destruct (ReturnConnection_trace addr c w) as (evs & Ht & [-> | ->]);
    eexists; (split; [exact Ht | reflexivity]).
Qed.

(** On the way out of a call nothing is dispatched. *)
Lemma handBack_adds {A : Type} (addr : string) (c : Conn) (out : result A * World)
    (k : nat) (w : World) :
  adds command k w (snd out) -> adds command k w (snd (handBack addr c out)).
Proof.
  intros H. unfold handBack. destruct out as [res w']. cbn [fst snd] in *.
  destruct res; try exact H;
    (eapply adds_trans; [exact H | apply ReturnConnection_adds | lia]).
Qed.

Lemma createConnection_adds (np : NodePool) (w : World) :
  adds command 0 w (snd (createConnection np w)).
Proof.
  unfold createConnection, bind, io, freshConn, emit, ret.
  destruct (currentSize np >=? maxSize np); [apply adds_refl|].
  destruct w as [ps [|[d|m|] rest] nc tr]; cbn [snd];
    first [apply adds_same; reflexivity | eapply adds_event; reflexivity].
Qed.

Lemma isConnectionValid_adds (conn : Conn) (w : World) :
  adds command 0 w (snd (isConnectionValid conn w)).
Proof.
  unfold isConnectionValid. unfold bind at 1.
  pose proof (backendWrite_other_adds conn "P" ("ING" +:+ CRLF) w ltac:(discriminate)) as H1.
  change (String "P" ("ING" +:+ CRLF)) with ("PING" +:+ CRLF) in H1.
  destruct (backendWrite conn ("PING" +:+ CRLF) w) as [[u|e| | |] w1]; cbn [snd] in H1;
    try exact H1.
  unfold bind. pose proof (backendRead_adds conn w1) as H2.
  destruct (backendRead conn w1) as [[data|e| | |] w2]; cbn [snd] in H2 |- *;
    eapply adds_trans; eauto.
Qed.

Lemma NodePool_GetConnection_adds (np : NodePool) (w : World) :
  adds command 0 w (snd (NodePool_GetConnection np w)).
Proof.
  unfold NodePool_GetConnection.
  destruct (buf (connections np)) as [|conn rest]; [apply createConnection_adds|].
  unfold bind. pose proof (isConnectionValid_adds conn w) as H1.
  destruct (isConnectionValid conn w) as [[[|]|e| | |] w1]; cbn [snd] in H1 |- *;
    try exact H1.
  eapply adds_trans; [exact H1 | apply createConnection_adds | lia].
Qed.

Lemma GetConnection_adds (addr : string) (w : World) :
  adds command 0 w (snd (GetConnection addr w)).
Proof.
  unfold GetConnection, bind, getPool, setPool, ret.
  match goal with
  | |- context [NodePool_GetConnection ?np ?W] =>
      pose proof (NodePool_GetConnection_adds np W) as H;
      destruct (NodePool_GetConnection np W) as [[r np'] w']
  end.
  exact H.
Qed.

(** [handleAskRedirect] sends the command at most once. *)
Lemma handleAskRedirect_adds (addr : string) (count : Z) (w : World) :
  adds command 1 w (snd (handleAskRedirect command addr count w)).
Proof.
  unfold handleAskRedirect, sendCommandToBackend, askingBytes.
  unfold bind at 1. pose proof (GetConnection_adds addr w) as Hg.
  destruct (GetConnection addr w) as [[c|e| | |] w1]; cbn [snd] in Hg |- *;
    try (eapply adds_weaken; [exact Hg | lia]).
  rewrite deferred_run. apply handBack_adds.
  unfold bind at 1.
  pose proof (backendWrite_other_adds c "A" ("SKING" +:+ CRLF) w1 ltac:(discriminate)) as H1.
  change (String "A" ("SKING" +:+ CRLF)) with ("ASKING" +:+ CRLF) in H1.
  assert (H1' : adds command 0 w (snd (backendWrite c ("ASKING" +:+ CRLF) w1)))
    by (eapply adds_trans; [exact Hg | exact H1 | lia]).
  clear H1 Hg.
  destruct (backendWrite c ("ASKING" +:+ CRLF) w1) as [[u|e| | |] w2]; cbn [snd] in H1';
    try (eapply adds_weaken; [exact H1' | lia]).
  unfold bind at 1.
  pose proof (readLine_adds c w2) as H2.
  assert (H2' : adds command 0 w (snd (readLine c w2)))
    by (eapply adds_trans; [exact H1' | exact H2 | lia]).
  clear H2 H1'.
  destruct (readLine c w2) as [[line|e| | |] w3]; cbn [snd] in H2';
    try (eapply adds_weaken; [exact H2' | lia]).
  destruct (negb (HasPrefix line "+OK"));
    [eapply adds_weaken; [exact H2' | lia]|].
  unfold bind at 1.
  pose proof (backendWrite_adds c (formatCommand command) w3) as H3.
  assert (H3' : adds command 1 w (snd (backendWrite c (formatCommand command) w3)))
    by (eapply adds_trans; [exact H2' | exact H3 | lia]).
  clear H3 H2'.
  destruct (backendWrite c (formatCommand command) w3) as [[u'|e| | |] w4]; cbn [snd] in H3';
    try exact H3'.
  unfold bind at 1.
  pose proof (readBackendResponse_adds c w4) as H4.
  assert (H4' : adds command 1 w (snd (readBackendResponse c w4)))
    by (eapply adds_trans; [exact H3' | exact H4 | lia]).
  clear H4 H3'.
  destruct (readBackendResponse c w4) as [[response|e| | |] w5]; cbn [snd] in H4';
    try exact H4'.
  eapply adds_trans; [exact H4' | apply clientWrite_adds | lia].
Qed.

(** A call of [executeCommandWithRedirect] with the count [count] sends
    the command at most [7 - count] times: once at each depth from
    [count] to 5, and once more when the last reply is an ASK. *)
Lemma executeCommandWithRedirect_adds (proxy : RedisClusterProxy) (fuel : nat) :
  forall (addr : string) (count : Z) (w : World),
    adds command (Z.to_nat (7 - count)) w
      (snd (executeCommandWithRedirect_fuel unicodeToUpper fuel proxy command
              addr count w)).
Proof.
  induction fuel as [|fuel IH]; intros addr count w.
  - simpl. destruct (count >? 5); apply adds_refl.
  - cbn [executeCommandWithRedirect_fuel].
    destruct (Z.gtb_spec count 5) as [Hgt|Hle]; [apply adds_refl|].
    unfold sendCommandToBackend.
    unfold bind at 1. pose proof (GetConnection_adds addr w) as Hg.
    destruct (GetConnection addr w) as [[c|e| | |] w1]; cbn [snd] in Hg |- *;
      try (eapply adds_weaken; [exact Hg | lia]).
    rewrite deferred_run. apply handBack_adds.
    unfold bind at 1.
    pose proof (backendWrite_adds c (formatCommand command) w1) as H1.
    assert (H1' : adds command 1 w (snd (backendWrite c (formatCommand command) w1)))
      by (eapply adds_trans; [exact Hg | exact H1 | lia]).
    clear H1 Hg.
    destruct (backendWrite c (formatCommand command) w1) as [[u|e| | |] w2]; cbn [snd] in H1';
      try (eapply adds_weaken; [exact H1' | lia]).
    unfold bind at 1.
    pose proof (readBackendResponse_adds c w2) as H2.
    assert (H2' : adds command 1 w (snd (readBackendResponse c w2)))
      by (eapply adds_trans; [exact H1' | exact H2 | lia]).
    clear H2 H1'.
    destruct (readBackendResponse c w2) as [[response|e| | |] w3]; cbn [snd] in H2';
      try (eapply adds_weaken; [exact H2' | lia]).
    assert (Hcw : adds command (Z.to_nat (7 - count)) w (snd (clientWrite response w3))).
    { eapply adds_trans; [exact H2' | apply clientWrite_adds | lia]. }
    destruct (IsMovedError response) as [[[|] s] movedAddr].
    + destruct (shouldAutoRedirect unicodeToUpper proxy command); [|exact Hcw].
      eapply adds_trans; [exact H2' | apply (IH movedAddr (count + 1) w3) | lia].
    + destruct (IsAskError response) as [[[|] s'] askAddr]; [|exact Hcw].
      destruct (shouldAutoRedirect unicodeToUpper proxy command); [|exact Hcw].
      eapply adds_trans; [exact H2' | apply (handleAskRedirect_adds askAddr (count + 1) w3) | lia].
Qed.

End Dispatches.

(** The slot of a key is always inside the array: [GetNodeForKey] returns. *)
Lemma GetNodeForKey_returns (cm : ClusterManager) (key : string) :
  exists nodeAddr, GetNodeForKey cm key = Ok nodeAddr.
Proof.
  unfold GetNodeForKey, slots_get, in_bounds, numSlots.
  pose proof (calculateSlot_range key) as [H0 H1].
  destruct (Z.leb_spec 0 (calculateSlot key)); [|lia].
  destruct (Z.ltb_spec (calculateSlot key) 16384); [|lia].
  cbn [andb].
  destruct (String.eqb _ _); [destruct (RedisNodes (config cm))|]; eauto.
Qed.

Lemma selectBackendNode_returns (proxy : RedisClusterProxy) (command : list string) :
  exists addr, selectBackendNode unicodeToUpper rangeNodes proxy command = Ok addr.
Proof.
  unfold selectBackendNode.
  destruct command as [|verb args]; [eauto|].
  destruct (isKeyRouted _); [|eauto].
  unfold selectNodeByKey.
  destruct args as [|key args].
  - destruct (RedisNodes (proxyConfig proxy)); eauto.
  - destruct (GetNodeForKey_returns (clusterManager proxy) key) as [a ->].
    destruct (negb _); [eauto|].
    destruct (RedisNodes (proxyConfig proxy)); eauto.
Qed.

(** A request of a client is written to the backends at most seven
    times. *)
Lemma handleCommand_dispatch_bound (proxy : RedisClusterProxy)
    (command : list string) (w : World) :
  exists evs,
    trace (snd (handleCommand unicodeToUpper rangeNodes proxy command w)) = trace w ++ evs /\
    (dispatches command evs <= 7)%nat.
Proof.
  unfold handleCommand.
  destruct command as [|verb args]; [apply (adds_refl [] 7 w)|].
  destruct (selectBackendNode_returns proxy (verb :: args)) as [addr ->].
  apply (executeCommandWithRedirect_adds (verb :: args) proxy _ addr 0 w).
Qed.

End Session.

(* ===================================================================== *)
(** * The session on the concrete runs                                    *)
(* ===================================================================== *)






(** C3 (the code at the failing input). In run 4 the command is written
    to a backend seven times: [handleAskRedirect] gets the count 6 and
    does not test it. With MOVED replies alone (run 5) the bound holds:
    six dispatches, then the error "too many redirections" (in the words
    of the source) goes to the client and nothing more is sent. *)
Theorem redirect_ask_after_five_moved_is_followed :
  (let '(res, w') :=
     handleCommand (fun s => s) (fun _ => []) seedProxy getFoo movedThenAskWorld in
   res = Ok tt /\
   dispatches getFoo (trace w') = 7%nat /\
   last (trace w') = Some (EvClientWrite ("$3" +:+ CRLF +:+ "bar" +:+ CRLF) true)) /\
  (let '(turn, w') :=
     sessionTurn (fun s => s) (fun _ => []) seedProxy twoRequests movedForeverWorld in
   turn = Continue ("PING" +:+ CRLF) /\
   dispatches getFoo (trace w') = 6%nat /\
   last (trace w') = Some (EvClientWrite (FormatError "重定向次数过多") true)) /\
  (forall up proxy command addr count fuel w,
     5 < count ->
     executeCommandWithRedirect_fuel up fuel proxy command addr count w
       = (Err (Errorf "重定向次数过多"), w)).
Proof.
  split; [|split].
  - vm_compute. repeat split; reflexivity.
  - vm_compute. repeat split; reflexivity.
  - intros up proxy command addr count [|fuel] w Hc;
      cbn [executeCommandWithRedirect_fuel];
      destruct (Z.gtb_spec count 5); (reflexivity || lia).
Qed.

(* ===================================================================== *)
(** * What the topology parser does guarantee                             *)
(* ===================================================================== *)

Lemma digit_val_range (c : ascii) (d : Z) : digit_val c = Some d -> 0 <= d <= 9.
Proof.
  unfold digit_val.
  destruct (Z.leb_spec 0 (byte_val c - 48)); [|discriminate].
  destruct (Z.leb_spec (byte_val c - 48) 9); [|discriminate].
  intros [= <-]. lia.
Qed.

Lemma parse_digits_nonneg (s : string) :
  forall acc n, 0 <= acc -> parse_digits acc s = Some n -> 0 <= n.
Proof.
  induction s as [|c s IH]; intros acc n Hacc H; simpl in H.
  - injection H as <-. exact Hacc.
  - destruct (digit_val c) as [d|] eqn:Hd; [|discriminate].
    apply digit_val_range in Hd. eapply IH; [|exact H]. lia.
Qed.

(** [strconv.Atoi] gives a negative number only for a string that starts
    with the minus sign. *)
Lemma Atoi_negative (s : string) (v : Z) :
  Atoi s = Some v -> v < 0 -> exists rest, s = String "-" rest.
Proof.
  unfold Atoi. destruct s as [|c rest]; [discriminate|].
  destruct (Ascii.eqb_spec c "-") as [->|Hc]; [eauto|].
  cbn [orb].
  intros H Hv. exfalso.
  destruct (if Ascii.eqb c "+" then rest else String c rest) as [|b body] eqn:Eb;
    [discriminate|].
  destruct (parse_digits 0 (String b body)) as [n|] eqn:Hp; [|discriminate].
  apply parse_digits_nonneg in Hp; [|lia].
  destruct ((minInt <=? n) && (n <=? maxInt)); [|discriminate].
  injection H as <-. lia.
Qed.

Lemma Index_minus_head (rest : string) : Index (String "-" rest) "-" = 0.
Proof. reflexivity. Qed.

Lemma substring_head (n : nat) (c : ascii) (s : string) :
  String.substring 0 (S n) (String c s) = String c (String.substring 0 n s).
Proof. reflexivity. Qed.

Lemma split_scan_nonempty (fuel : nat) (s sep : string) : split_scan fuel s sep <> [].
Proof.
  destruct fuel; simpl; [discriminate|]. destruct (_ =? _); discriminate.
Qed.

(** Every range that [parseSlotRange] accepts has a start and an end that
    are not negative. *)
Lemma parseSlotRange_nonneg (slotStr : string) (r : SlotRange) :
  parseSlotRange slotStr = Some r -> 0 <= Start r /\ 0 <= End r.
Proof.
  unfold parseSlotRange, Contains.
  destruct (Z.eqb_spec (Index slotStr "-") (-1)) as [Hno|Hyes]; cbn [negb].
  - destruct (Atoi slotStr) as [slot|] eqn:Ha; [|discriminate].
    intros [= <-]. cbn.
    assert (0 <= slot); [|lia].
    destruct (Z.lt_ge_cases slot 0) as [Hneg|]; [|assumption].
    destruct (Atoi_negative _ _ Ha Hneg) as [rest ->].
    rewrite Index_minus_head in Hno. discriminate.
  - unfold Split.
    destruct slotStr as [|c s]; [contradiction Hyes; reflexivity|].
    cbn [String.length split_scan].
    destruct (Z.eqb_spec (Index (String c s) "-") (-1)) as [|_]; [contradiction|].
    set (m := Index (String c s) "-") in *.
    set (tail := slice_from (String c s) (m + len "-")).
    destruct (split_scan (String.length s) tail "-") as [|p1 [|p2 ps]] eqn:Hs;
      try discriminate.
    destruct (Atoi (slice (String c s) 0 m)) as [start|] eqn:Ha0; [|discriminate].
    destruct (Atoi p1) as [end_|] eqn:Ha1; [|discriminate].
    intros [= <-]. cbn. split.
    + destruct (Z.lt_ge_cases start 0) as [Hneg|]; [|assumption]. exfalso.
      destruct (Atoi_negative _ _ Ha0 Hneg) as [rest Hrest].
      unfold slice in Hrest. change (Z.to_nat 0) with 0%nat in Hrest.
      destruct (Z.to_nat (m - 0)) as [|k] eqn:Hk.
      * destruct s; discriminate Hrest.
      * rewrite substring_head in Hrest. injection Hrest as -> _.
        subst m. rewrite Index_minus_head in Hk. discriminate Hk.
    + destruct (Z.lt_ge_cases end_ 0) as [Hneg|]; [|assumption]. exfalso.
      destruct (Atoi_negative _ _ Ha1 Hneg) as [rest ->].
      destruct (String.length s) as [|f] eqn:Hlen.
      * cbn in Hs. injection Hs as Hs.
        destruct s; [|discriminate Hlen].
        subst tail. unfold slice_from, slice, len in Hs.
        destruct (Ascii.eqb_spec c "-") as [->|Hc].
        -- cbn in Hs. discriminate Hs.
        -- apply Hyes. unfold m, Index. cbn.
           destruct (Ascii.eqb_spec c "-"); [contradiction | reflexivity].
      * cbn [split_scan] in Hs.
        destruct (Z.eqb_spec (Index tail "-") (-1)) as [Hnone|].
        -- injection Hs as Hs. rewrite Hs, Index_minus_head in Hnone. discriminate.
        -- injection Hs as _ Hs. now apply split_scan_nonempty in Hs.
Qed.

Lemma assignSlots_in_bounds (ranges : list SlotRange) (addr : string) :
  forall arr,
    Forall (fun r => 0 <= Start r /\ End r < numSlots) ranges ->
    exists arr', assignSlots ranges addr arr = Ok arr'.
Proof.
  induction ranges as [|r ranges IH]; intros arr Hall; [simpl; eauto|].
  inversion Hall as [|? ? [H0 H1] Hrest]; subst.
  cbn [assignSlots].
  destruct (fillSlots_in_bounds fillFuel (Start r) (End r) addr arr H0 H1) as [arr' ->].
  - unfold fillFuel, numSlots in *. lia.
  - now apply IH.
Qed.


(* ===================================================================== *)
(** * Further properties of the code                                      *)
(* ===================================================================== *)

(** The slot of every key is an index of the slot array, so that the
    lookup of [GetNodeForKey] never leaves the array: it returns an
    address (which may be the empty string when no seed is configured). *)
Theorem GetNodeForKey_total (cm : ClusterManager) (key : string) :
  0 <= calculateSlot key < 16384 /\
  exists nodeAddr, GetNodeForKey cm key = Ok nodeAddr.
Proof. split; [apply calculateSlot_range | apply GetNodeForKey_returns]. Qed.

(** Keys that carry the same tag between their first opening brace and
    the closing brace that follows it are routed to the same slot, the
    slot of the tag. *)
Theorem calculateSlot_of_tag (pre tag rest : string) :
  without "{" pre = true -> without "}" tag = true ->
  calculateSlot (pre +:+ "{" +:+ tag +:+ "}" +:+ rest) = crc16CCITT tag mod 16384.
Proof. intros Hp Ht. unfold calculateSlot. now rewrite hashKey_tag. Qed.

(** The keys of one user of the README. *)
Lemma calculateSlot_of_tag_witness :
  calculateSlot ("user:" +:+ "{" +:+ "1001" +:+ "}" +:+ ":profile")
  = crc16CCITT "1001" mod 16384.
Proof.
  apply (calculateSlot_of_tag "user:" "1001" ":profile"); reflexivity.
Defined.

(** Every range that [parseSlotRange] accepts starts and ends at a number
    that is not negative. *)
Theorem parseSlotRange_accepts_nonneg (slotStr : string) :
  match parseSlotRange slotStr with
  | Some r => 0 <= Start r /\ 0 <= End r
  | None => True
  end.
Proof.
  destruct (parseSlotRange slotStr) as [r|] eqn:E; [|exact I].
  exact (parseSlotRange_nonneg slotStr r E).
Qed.

(** Ranges that lie inside the array are written without a panic. *)
Theorem assignSlots_ranges_in_bounds (ranges : list SlotRange) (addr : string)
    (arr : gmap Z string) :
  Forall (fun r => 0 <= Start r /\ End r < numSlots) ranges ->
  exists arr', assignSlots ranges addr arr = Ok arr'.
Proof. apply assignSlots_in_bounds. Qed.

(** The first third of the slots and the last slot. *)
Lemma assignSlots_ranges_in_bounds_witness :
  exists arr',
    assignSlots [ {| Start := 0; End := 5460 |}; {| Start := 16383; End := 16383 |} ]
      "10.0.0.1:7000" ∅ = Ok arr'.
Proof.
  apply (assignSlots_ranges_in_bounds
           [ {| Start := 0; End := 5460 |}; {| Start := 16383; End := 16383 |} ]
           "10.0.0.1:7000" ∅).
  repeat constructor; cbn; unfold numSlots; lia.
Defined.

(* ===================================================================== *)
(** * Replies of a backend                                                *)
(* ===================================================================== *)

Section Replies.

Local Open Scope nat_scope.

(** ** What a read takes off the stream *)

Lemma ReadString_split (delim : ascii) (r : Reader) :
  forall line rest,
    ReadString delim r = (line, false, rest) ->
    r = line +:+ rest /\ line <> EmptyString.
Proof.
  induction r as [|c r IH]; intros line rest H; simpl in H.
  - discriminate H.
  - destruct (Ascii.eqb c delim).
    + injection H as <- <-. split; [reflexivity | discriminate].
    + destruct (ReadString delim r) as [[l e] rs].
      injection H as H1 H2 H3. subst.
      destruct (IH l rest eq_refl) as [H1 _]. split; [|discriminate].
      rewrite sapp_cons. now f_equal.
Qed.

Lemma ReadString_more (delim : ascii) (r q : Reader) :
  forall line rest,
    ReadString delim r = (line, false, rest) ->
    ReadString delim (r +:+ q) = (line, false, rest +:+ q).
Proof.
  induction r as [|c r IH]; intros line rest H; simpl in H.
  - discriminate H.
  - rewrite sapp_cons. simpl. destruct (Ascii.eqb c delim).
    + injection H as <- <-. reflexivity.
    + destruct (ReadString delim r) as [[l e] rs].
      injection H as H1 H2 H3. subst. now rewrite (IH l rest eq_refl).
Qed.

Lemma substring_drop (n : nat) (s : string) :
  n <= String.length s -> s = String.substring 0 n s +:+ drop n s.
Proof.
  revert s. induction n as [|n IH]; intros s Hn.
  - destruct s; reflexivity.
  - destruct s as [|c s]; simpl in Hn; [lia|].
    simpl. rewrite sapp_cons. f_equal. apply IH. lia.
Qed.

Lemma substring_more (n : nat) (s q : string) :
  n <= String.length s -> String.substring 0 n (s +:+ q) = String.substring 0 n s.
Proof.
  revert s. induction n as [|n IH]; intros s Hn.
  - destruct s; destruct q; reflexivity.
  - destruct s as [|c s]; simpl in Hn; [lia|].
    rewrite sapp_cons. simpl. f_equal. apply IH. lia.
Qed.

Lemma drop_more (n : nat) (s q : string) :
  n <= String.length s -> drop n (s +:+ q) = drop n s +:+ q.
Proof.
  revert s. induction n as [|n IH]; intros s Hn; [reflexivity|].
  destruct s as [|c s]; simpl in Hn; [lia|].
  rewrite sapp_cons. simpl. apply IH. lia.
Qed.

Lemma ReadFull_split (n : nat) (r : Reader) (data : string) (rest : Reader) :
  ReadFull n r = (Ok data, rest) -> r = data +:+ rest.
Proof.
  unfold ReadFull. destruct (Nat.leb_spec n (String.length r)) as [Hn|Hn].
  - intros H. injection H as <- <-. now apply substring_drop.
  - destruct r; discriminate.
Qed.

Lemma ReadFull_more (n : nat) (r q : Reader) (data : string) (rest : Reader) :
  ReadFull n r = (Ok data, rest) -> ReadFull n (r +:+ q) = (Ok data, rest +:+ q).
Proof.
  unfold ReadFull. destruct (Nat.leb_spec n (String.length r)) as [Hn|Hn].
  - intros H. injection H as <- <-.
    assert (Hle : (n <=? String.length (r +:+ q)) = true).
    { apply Nat.leb_le. rewrite slength_app. lia. }
    rewrite Hle. now rewrite substring_more, drop_more.
  - destruct r; discriminate.
Qed.

Lemma ReadFull_app (a rest : string) :
  ReadFull (String.length a) (a +:+ rest) = (Ok a, rest).
Proof.
  unfold ReadFull.
  assert (Hle : (String.length a <=? String.length (a +:+ rest)) = true).
  { apply Nat.leb_le. rewrite slength_app. lia. }
  now rewrite Hle, substring_app, drop_app.
Qed.

Lemma slice_from_app (a b : string) : slice_from (a +:+ b) (len a) = b.
Proof.
  unfold slice_from, slice, len. rewrite Nat2Z.id.
  replace (Z.to_nat (Z.of_nat (String.length (a +:+ b)) - Z.of_nat (String.length a)))
    with (String.length b) by (rewrite slength_app; lia).
  induction a as [|c a IH]; [apply substring_all|].
  rewrite sapp_cons. simpl. exact IH.
Qed.

Lemma afterLine_app (line more : string) :
  Wire.afterLine (line +:+ more) line = Some more.
Proof.
  unfold Wire.afterLine.
  destruct (Z.ltb_spec (len (line +:+ more)) (len line)) as [H|H].
  - unfold len in H. rewrite slength_app in H. lia.
  - now rewrite slice_from_app.
Qed.

End Replies.

Section ReplyReader.

Local Open Scope nat_scope.

(** ** The reply returned is what was taken off the stream *)

Lemma readBulkStringResponse_split (reader : Reader) (firstLine resp : string)
    (rest : Reader) :
  Wire.readBulkStringResponse reader firstLine = (Ok resp, rest) ->
  exists more, resp = firstLine +:+ more /\ reader = more +:+ rest.
Proof.
  unfold Wire.readBulkStringResponse.
  destruct (String.eqb_spec firstLine EmptyString) as [->|Hne].
  - destruct (ReadString LF reader) as [[line eof] r1] eqn:E1.
    destruct eof; [discriminate|].
    destruct (ReadString_split _ _ _ _ E1) as [-> _].
    destruct (len line <? 2)%Z; [discriminate|].
    destruct (String.eqb _ "-1").
    { intros H. injection H as <- <-. exists line. now rewrite sapp_nil_l. }
    destruct (_ >? 0)%Z.
    + destruct (_ <? 0)%Z; [discriminate|].
      destruct (ReadFull _ r1) as [[data|e| | |] r2] eqn:E2; try discriminate.
      intros H. injection H as <- <-.
      rewrite (ReadFull_split _ _ _ _ E2).
      exists (line +:+ data). now rewrite sapp_nil_l, sapp_assoc.
    + destruct (ReadString LF r1) as [[l2 eof2] r2] eqn:E2.
      destruct eof2; [discriminate|].
      intros H. injection H as <- <-.
      destruct (ReadString_split _ _ _ _ E2) as [-> _].
      exists (line +:+ l2). now rewrite sapp_nil_l, sapp_assoc.
  - destruct (len firstLine <? 2)%Z; [discriminate|].
    destruct (String.eqb _ "-1").
    { intros H. injection H as <- <-. exists EmptyString. now rewrite sapp_nil_r. }
    destruct (_ >? 0)%Z.
    + destruct (_ <? 0)%Z; [discriminate|].
      destruct (ReadFull _ reader) as [[data|e| | |] r2] eqn:E2; try discriminate.
      intros H. injection H as <- <-.
      exists data. split; [reflexivity | exact (ReadFull_split _ _ _ _ E2)].
    + destruct (ReadString LF reader) as [[l2 eof2] r2] eqn:E2.
      destruct eof2; [discriminate|].
      intros H. injection H as <- <-.
      destruct (ReadString_split _ _ _ _ E2) as [-> _].
      exists l2. split; reflexivity.
Qed.

Lemma readBulkStringResponse_more (reader q : Reader) (firstLine resp : string)
    (rest : Reader) :
  Wire.readBulkStringResponse reader firstLine = (Ok resp, rest) ->
  Wire.readBulkStringResponse (reader +:+ q) firstLine = (Ok resp, rest +:+ q).
Proof.
  unfold Wire.readBulkStringResponse.
  destruct (String.eqb firstLine EmptyString).
  - destruct (ReadString LF reader) as [[line eof] r1] eqn:E1.
    destruct eof; [discriminate|].
    rewrite (ReadString_more _ _ q _ _ E1).
    destruct (len line <? 2)%Z; [discriminate|].
    destruct (String.eqb _ "-1").
    { intros H. injection H as <- <-. reflexivity. }
    destruct (_ >? 0)%Z.
    + destruct (_ <? 0)%Z; [discriminate|].
      destruct (ReadFull _ r1) as [[data|e| | |] r2] eqn:E2; try discriminate.
      intros H. injection H as <- <-.
      now rewrite (ReadFull_more _ _ q _ _ E2).
    + destruct (ReadString LF r1) as [[l2 eof2] r2] eqn:E2.
      destruct eof2; [discriminate|].
      intros H. injection H as <- <-.
      now rewrite (ReadString_more _ _ q _ _ E2).
  - destruct (len firstLine <? 2)%Z; [discriminate|].
    destruct (String.eqb _ "-1").
    { intros H. injection H as <- <-. reflexivity. }
    destruct (_ >? 0)%Z.
    + destruct (_ <? 0)%Z; [discriminate|].
      destruct (ReadFull _ reader) as [[data|e| | |] r2] eqn:E2; try discriminate.
      intros H. injection H as <- <-.
      now rewrite (ReadFull_more _ _ q _ _ E2).
    + destruct (ReadString LF reader) as [[l2 eof2] r2] eqn:E2.
      destruct eof2; [discriminate|].
      intros H. injection H as <- <-.
      now rewrite (ReadString_more _ _ q _ _ E2).
Qed.

(** The two readers of arrays, together: a reply that was read is the
    header followed by the bytes taken off the stream. *)
Lemma readArrayResponse_fuel_split (fuel : nat) :
  (forall reader firstLine resp rest,
     Wire.readArrayResponse_fuel fuel reader firstLine = (Ok resp, rest) ->
     exists more, resp = firstLine +:+ more /\ reader = more +:+ rest) /\
  (forall reader i count response resp rest,
     Wire.readElements_fuel fuel reader i count response = (Ok resp, rest) ->
     exists more, resp = response +:+ more /\ reader = more +:+ rest).
Proof.
  induction fuel as [|fuel [IHa IHe]].
  - split.
    + intros reader firstLine resp rest H. discriminate H.
    + intros reader i count response resp rest H. cbn in H.
      destruct (i <? count)%Z; [discriminate|].
      injection H as <- <-. exists EmptyString. now rewrite sapp_nil_r.
  - assert (He : forall reader i count response resp rest,
      Wire.readElements_fuel (S fuel) reader i count response = (Ok resp, rest) ->
      exists more, resp = response +:+ more /\ reader = more +:+ rest).
    { intros reader i count response resp rest H.
      cbn [Wire.readElements_fuel] in H.
      destruct (i <? count)%Z.
      2:{ injection H as <- <-. exists EmptyString. now rewrite sapp_nil_r. }
      destruct (ReadString LF reader) as [[line eof] r1] eqn:E1.
      destruct eof; [discriminate|].
      destruct (ReadString_split _ _ _ _ E1) as [-> Hline].
      destruct line as [|c line']; [contradiction|].
      destruct (Ascii.eqb c "$").
      { destruct (Wire.readBulkStringResponse r1 (String c line'))
          as [[el|e| | |] r2] eqn:E2; try discriminate.
        destruct (readBulkStringResponse_split _ _ _ _ E2) as (more & -> & ->).
        rewrite afterLine_app in H.
        destruct (IHe _ _ _ _ _ _ H) as (more2 & -> & ->).
        exists (String c line' +:+ more +:+ more2). now rewrite !sapp_assoc. }
      destruct (Ascii.eqb c "*").
      { destruct (Wire.readArrayResponse_fuel fuel r1 (String c line'))
          as [[el|e| | |] r2] eqn:E2; try discriminate.
        destruct (IHa _ _ _ _ E2) as (more & -> & ->).
        rewrite afterLine_app in H.
        destruct (IHe _ _ _ _ _ _ H) as (more2 & -> & ->).
        exists (String c line' +:+ more +:+ more2). now rewrite !sapp_assoc. }
      destruct (IHe _ _ _ _ _ _ H) as (more2 & -> & ->).
      exists (String c line' +:+ more2). now rewrite !sapp_assoc. }
    split; [|exact He].
    intros reader firstLine resp rest H.
    cbn [Wire.readArrayResponse_fuel] in H.
    destruct (len firstLine <? 2)%Z; [discriminate|].
    destruct (String.eqb _ "-1").
    { injection H as <- <-. exists EmptyString. now rewrite sapp_nil_r. }
    exact (IHe _ _ _ _ _ _ H).
Qed.

Lemma readBackendResponse_split (reader : Reader) (resp : string) (rest : Reader) :
  Wire.readFromReader reader = (Ok resp, rest) -> reader = resp +:+ rest.
Proof.
  unfold Wire.readFromReader.
  destruct (ReadString LF reader) as [[line eof] r1] eqn:E1.
  destruct eof; [discriminate|].
  destruct (ReadString_split _ _ _ _ E1) as [-> Hline].
  destruct line as [|c line']; [contradiction|].
  destruct (Ascii.eqb c "$").
  { intros H. destruct (readBulkStringResponse_split _ _ _ _ H) as (more & -> & ->).
    now rewrite sapp_assoc. }
  destruct (Ascii.eqb c "*").
  { intros H. destruct (proj1 (readArrayResponse_fuel_split _) _ _ _ _ H) as (more & -> & ->).
    now rewrite sapp_assoc. }
  intros H. injection H as <- <-. reflexivity.
Qed.

(** ** More fuel, more stream: the reply stays *)

Lemma readArrayResponse_fuel_mono (fuel : nat) :
  (forall reader firstLine resp rest fuel',
     Wire.readArrayResponse_fuel fuel reader firstLine = (Ok resp, rest) ->
     fuel <= fuel' ->
     Wire.readArrayResponse_fuel fuel' reader firstLine = (Ok resp, rest)) /\
  (forall reader i count response resp rest fuel',
     Wire.readElements_fuel fuel reader i count response = (Ok resp, rest) ->
     fuel <= fuel' ->
     Wire.readElements_fuel fuel' reader i count response = (Ok resp, rest)).
Proof.
  induction fuel as [|fuel [IHa IHe]].
  - split.
    + intros reader firstLine resp rest fuel' H. discriminate H.
    + intros reader i count response resp rest fuel' H _. cbn in H.
      destruct (i <? count)%Z eqn:Ei; [discriminate|].
      destruct fuel'; cbn; rewrite Ei; exact H.
  - assert (He : forall reader i count response resp rest fuel',
      Wire.readElements_fuel (S fuel) reader i count response = (Ok resp, rest) ->
      S fuel <= fuel' ->
      Wire.readElements_fuel fuel' reader i count response = (Ok resp, rest)).
    { intros reader i count response resp rest fuel' H Hle.
      destruct fuel' as [|fuel']; [lia|]. apply le_S_n in Hle.
      cbn [Wire.readElements_fuel] in H |- *.
      destruct (i <? count)%Z; [|exact H].
      destruct (ReadString LF reader) as [[line eof] r1].
      destruct eof; [discriminate|].
      destruct line as [|c line']; [now apply IHe with (fuel' := fuel') in H|].
      destruct (Ascii.eqb c "$").
      { destruct (Wire.readBulkStringResponse r1 (String c line'))
          as [[el|e| | |] r2]; try discriminate.
        destruct (Wire.afterLine el (String c line')); [|discriminate].
        now apply IHe. }
      destruct (Ascii.eqb c "*").
      { destruct (Wire.readArrayResponse_fuel fuel r1 (String c line'))
          as [[el|e| | |] r2] eqn:E2; try discriminate.
        rewrite (IHa _ _ _ _ fuel' E2 Hle).
        destruct (Wire.afterLine el (String c line')); [|discriminate].
        now apply IHe. }
      now apply IHe. }
    split; [|exact He].
    intros reader firstLine resp rest fuel' H Hle.
    destruct fuel' as [|fuel']; [lia|]. apply le_S_n in Hle.
    cbn [Wire.readArrayResponse_fuel] in H |- *.
    destruct (len firstLine <? 2)%Z; [discriminate|].
    destruct (String.eqb _ "-1"); [exact H|].
    now apply IHe.
Qed.

Lemma readArrayResponse_fuel_more (fuel : nat) (q : Reader) :
  (forall reader firstLine resp rest,
     Wire.readArrayResponse_fuel fuel reader firstLine = (Ok resp, rest) ->
     Wire.readArrayResponse_fuel fuel (reader +:+ q) firstLine = (Ok resp, rest +:+ q)) /\
  (forall reader i count response resp rest,
     Wire.readElements_fuel fuel reader i count response = (Ok resp, rest) ->
     Wire.readElements_fuel fuel (reader +:+ q) i count response = (Ok resp, rest +:+ q)).
Proof.
  induction fuel as [|fuel [IHa IHe]].
  - split.
    + intros reader firstLine resp rest H. discriminate H.
    + intros reader i count response resp rest H. cbn in H |- *.
      destruct (i <? count)%Z; [discriminate|].
      injection H as <- <-. reflexivity.
  - assert (He : forall reader i count response resp rest,
      Wire.readElements_fuel (S fuel) reader i count response = (Ok resp, rest) ->
      Wire.readElements_fuel (S fuel) (reader +:+ q) i count response
        = (Ok resp, rest +:+ q)).
    { intros reader i count response resp rest H.
      cbn [Wire.readElements_fuel] in H |- *.
      destruct (i <? count)%Z.
      2:{ injection H as <- <-. reflexivity. }
      destruct (ReadString LF reader) as [[line eof] r1] eqn:E1.
      destruct eof; [discriminate|].
      rewrite (ReadString_more _ _ q _ _ E1).
      destruct line as [|c line']; [now apply IHe|].
      destruct (Ascii.eqb c "$").
      { destruct (Wire.readBulkStringResponse r1 (String c line'))
          as [[el|e| | |] r2] eqn:E2; try discriminate.
        rewrite (readBulkStringResponse_more _ q _ _ _ E2).
        destruct (Wire.afterLine el (String c line')); [|discriminate].
        now apply IHe. }
      destruct (Ascii.eqb c "*").
      { destruct (Wire.readArrayResponse_fuel fuel r1 (String c line'))
          as [[el|e| | |] r2] eqn:E2; try discriminate.
        rewrite (IHa _ _ _ _ E2).
        destruct (Wire.afterLine el (String c line')); [|discriminate].
        now apply IHe. }
      now apply IHe. }
    split; [|exact He].
    intros reader firstLine resp rest H.
    cbn [Wire.readArrayResponse_fuel] in H |- *.
    destruct (len firstLine <? 2)%Z; [discriminate|].
    destruct (String.eqb _ "-1").
    { injection H as <- <-. reflexivity. }
    now apply IHe.
Qed.

Lemma readBackendResponse_more (reader q : Reader) (resp : string) (rest : Reader) :
  Wire.readFromReader reader = (Ok resp, rest) ->
  Wire.readFromReader (reader +:+ q) = (Ok resp, rest +:+ q).
Proof.
  unfold Wire.readFromReader.
  destruct (ReadString LF reader) as [[line eof] r1] eqn:E1.
  destruct eof; [discriminate|].
  rewrite (ReadString_more _ _ q _ _ E1).
  destruct line as [|c line']; [discriminate|].
  destruct (Ascii.eqb c "$"); [apply readBulkStringResponse_more|].
  destruct (Ascii.eqb c "*").
  { unfold Wire.readArrayResponse. intros H.
    apply (proj1 (readArrayResponse_fuel_more _ q)) in H.
    apply (proj1 (readArrayResponse_fuel_mono _) _ _ _ _ _ H).
    unfold Wire.arrayFuel. rewrite slength_app. lia. }
  intros H. injection H as <- <-. reflexivity.
Qed.

(** ** The fuel is enough *)

Lemma readBulkStringResponse_length (reader : Reader) (firstLine : string) :
  String.length (snd (Wire.readBulkStringResponse reader firstLine))
    <= String.length reader.
Proof.
  unfold Wire.readBulkStringResponse.
  assert (Hbody : forall fl r1, String.length r1 <= String.length reader ->
    String.length (snd (
      if (len fl <? 2)%Z
      then (Err (Errorf ("无效的批量字符串响应格式: " +:+ fl)), r1)
      else if String.eqb (TrimSpace (slice_from fl 1)) "-1" then (Ok fl, r1)
      else if (default 0%Z (Wire.Sscanf_d (TrimSpace (slice_from fl 1))) >? 0)%Z then
             if (Wire.wrapInt (default 0%Z (Wire.Sscanf_d (TrimSpace (slice_from fl 1))) + 2) <? 0)%Z
             then (Panic, r1)
             else match ReadFull (Z.to_nat (Wire.wrapInt (default 0%Z (Wire.Sscanf_d (TrimSpace (slice_from fl 1))) + 2))) r1 with
                  | (Ok data, reader) => (Ok (fl +:+ data), reader)
                  | (other, reader) => (other, reader)
                  end
           else let '(line, eof, reader) := ReadString LF r1 in
                if eof then (Err EOF, reader) else (Ok (fl +:+ line), reader)))
    <= String.length reader).
  { intros fl r1 H1.
    destruct (len fl <? 2)%Z; [exact H1|].
    destruct (String.eqb _ "-1"); [exact H1|].
    destruct (_ >? 0)%Z.
    - destruct (_ <? 0)%Z; [exact H1|].
      pose proof (ReadFull_length (Z.to_nat (Wire.wrapInt (default 0%Z (Wire.Sscanf_d (TrimSpace (slice_from fl 1))) + 2))) r1) as H2.
      destruct (ReadFull _ r1) as [[data|e| | |] r2]; cbn in H2 |- *; lia.
    - destruct (ReadString LF r1) as [[l2 e2] r2] eqn:E2.
      destruct (ReadString_length _ _ _ _ _ E2) as [H2 _].
      destruct e2; cbn; lia. }
  destruct (String.eqb firstLine EmptyString).
  - destruct (ReadString LF reader) as [[line eof] r1] eqn:E1.
    destruct (ReadString_length _ _ _ _ _ E1) as [H1 _].
    destruct eof; [exact H1|]. now apply Hbody.
  - now apply Hbody.
Qed.

Lemma ReadFull_ends (n : nat) (r : Reader) : fst (ReadFull n r) <> OutOfFuel.
Proof.
  unfold ReadFull. destruct (n <=? String.length r); [discriminate|].
  destruct r; discriminate.
Qed.

Lemma readBulkStringResponse_ends (reader : Reader) (firstLine : string) :
  fst (Wire.readBulkStringResponse reader firstLine) <> OutOfFuel.
Proof.
  unfold Wire.readBulkStringResponse.
  assert (Hbody : forall fl r1,
    fst (
      if (len fl <? 2)%Z
      then (Err (Errorf ("无效的批量字符串响应格式: " +:+ fl)), r1)
      else if String.eqb (TrimSpace (slice_from fl 1)) "-1" then (Ok fl, r1)
      else if (default 0%Z (Wire.Sscanf_d (TrimSpace (slice_from fl 1))) >? 0)%Z then
             if (Wire.wrapInt (default 0%Z (Wire.Sscanf_d (TrimSpace (slice_from fl 1))) + 2) <? 0)%Z
             then (Panic, r1)
             else match ReadFull (Z.to_nat (Wire.wrapInt (default 0%Z (Wire.Sscanf_d (TrimSpace (slice_from fl 1))) + 2))) r1 with
                  | (Ok data, reader) => (Ok (fl +:+ data), reader)
                  | (other, reader) => (other, reader)
                  end
           else let '(line, eof, reader) := ReadString LF r1 in
                if eof then (Err EOF, reader) else (Ok (fl +:+ line), reader))
    <> OutOfFuel).
  { intros fl r1.
    destruct (len fl <? 2)%Z; [discriminate|].
    destruct (String.eqb _ "-1"); [discriminate|].
    destruct (_ >? 0)%Z.
    - destruct (_ <? 0)%Z; [discriminate|].
      pose proof (ReadFull_ends (Z.to_nat (Wire.wrapInt (default 0%Z (Wire.Sscanf_d (TrimSpace (slice_from fl 1))) + 2))) r1) as H2.
      destruct (ReadFull _ r1) as [[data|e| | |] r2]; cbn in H2 |- *;
        try discriminate. contradiction.
    - destruct (ReadString LF r1) as [[l2 e2] r2]. destruct e2; discriminate. }
  destruct (String.eqb firstLine EmptyString).
  - destruct (ReadString LF reader) as [[line eof] r1].
    destruct eof; [discriminate|]. apply Hbody.
  - apply Hbody.
Qed.

Lemma readArrayResponse_fuel_enough (n : nat) :
  forall reader, String.length reader <= n ->
    (forall fuel firstLine, 2 * n + 2 <= fuel ->
       fst (Wire.readArrayResponse_fuel fuel reader firstLine) <> OutOfFuel /\
       String.length (snd (Wire.readArrayResponse_fuel fuel reader firstLine))
         <= String.length reader) /\
    (forall fuel i count response, 2 * n + 1 <= fuel ->
       fst (Wire.readElements_fuel fuel reader i count response) <> OutOfFuel /\
       String.length (snd (Wire.readElements_fuel fuel reader i count response))
         <= String.length reader).
Proof.
  induction n as [n IH] using lt_wf_ind. intros reader Hn.
  assert (He : forall fuel i count response, 2 * n + 1 <= fuel ->
       fst (Wire.readElements_fuel fuel reader i count response) <> OutOfFuel /\
       String.length (snd (Wire.readElements_fuel fuel reader i count response))
         <= String.length reader).
  { intros fuel i count response Hf.
    destruct fuel as [|fuel]; [lia|].
    cbn [Wire.readElements_fuel].
    destruct (i <? count)%Z; [|cbn; split; [discriminate | lia]].
    destruct (ReadString LF reader) as [[line eof] r1] eqn:E1.
    destruct (ReadString_length _ _ _ _ _ E1) as [H1 H2].
    destruct eof; [cbn; split; [discriminate | lia]|].
    specialize (H2 eq_refl).
    assert (Hn1 : String.length r1 <= n - 1) by lia.
    assert (Hlt : n - 1 < n) by lia.
    destruct (IH (n - 1) Hlt r1 Hn1) as [IHa IHe].
    assert (Hloop : forall r2 i' response',
      String.length r2 <= String.length r1 ->
      fst (Wire.readElements_fuel fuel r2 i' count response') <> OutOfFuel /\
      String.length (snd (Wire.readElements_fuel fuel r2 i' count response'))
        <= String.length reader).
    { intros r2 i' response' H12.
      assert (Hn2 : String.length r2 <= n - 1) by lia.
      destruct (IH (n - 1) Hlt r2 Hn2) as [_ IHe2].
      destruct (IHe2 fuel i' count response') as [Ha Hb]; [lia|].
      split; [exact Ha | lia]. }
    destruct line as [|c line']; [now apply Hloop|].
    destruct (Ascii.eqb c "$").
    { pose proof (readBulkStringResponse_length r1 (String c line')) as Hb.
      destruct (Wire.readBulkStringResponse r1 (String c line'))
        as [[el|e| | |] r2] eqn:E2; cbn in Hb.
      - destruct (Wire.afterLine el (String c line')).
        + now apply Hloop.
        + cbn. split; [discriminate | lia].
      - cbn. split; [discriminate | lia].
      - cbn. split; [discriminate | lia].
      - cbn. split; [discriminate | lia].
      - exfalso. apply (readBulkStringResponse_ends r1 (String c line')).
        now rewrite E2. }
    destruct (Ascii.eqb c "*").
    { destruct (IHa fuel (String c line')) as [Ha Hb]; [lia|].
      destruct (Wire.readArrayResponse_fuel fuel r1 (String c line'))
        as [[el|e| | |] r2] eqn:E2; cbn in Ha, Hb.
      - destruct (Wire.afterLine el (String c line')).
        + now apply Hloop.
        + cbn. split; [discriminate | lia].
      - cbn. split; [discriminate | lia].
      - cbn. split; [discriminate | lia].
      - cbn. split; [discriminate | lia].
      - contradiction. }
    now apply Hloop. }
  split; [|exact He].
  intros fuel firstLine Hf.
  destruct fuel as [|fuel]; [lia|].
  cbn [Wire.readArrayResponse_fuel].
  destruct (len firstLine <? 2)%Z; [cbn; split; [discriminate | lia]|].
  destruct (String.eqb _ "-1"); [cbn; split; [discriminate | lia]|].
  apply He. lia.
Qed.

End ReplyReader.

Section ReplyRoundTrip.

Local Open Scope nat_scope.

(** ** White space at the ends of a line *)

Lemma HasPrefix_app_low (p a b : string) :
  highBytes p = true -> p <> EmptyString -> lowHead b = true ->
  HasPrefix (a +:+ b) p = HasPrefix a p.
Proof.
  revert a. induction p as [|x p IH]; intros a Hp Hne Hb; [contradiction|].
  simpl in Hp. apply andb_prop in Hp as [Hx Hp].
  destruct a as [|y a].
  - rewrite sapp_nil_l. destruct b as [|z b]; [reflexivity|].
    simpl. destruct (Ascii.eqb_spec z x) as [->|]; [|reflexivity].
    simpl in Hb. apply Z.leb_le in Hx. apply Z.ltb_lt in Hb. lia.
  - rewrite sapp_cons. simpl. destruct (Ascii.eqb y x); [|reflexivity].
    destruct p as [|x' p'].
    + now destruct (a +:+ b), a.
    + apply IH; [exact Hp | discriminate | exact Hb].
Qed.

Lemma unicodeSpaces_high :
  forallb (fun p => highBytes p && negb (String.eqb p EmptyString)) unicodeSpaces = true.
Proof. vm_compute. reflexivity. Qed.

Lemma first_prefix_app_low (ps : list string) (a b : string) :
  forallb (fun p => highBytes p && negb (String.eqb p EmptyString)) ps = true ->
  lowHead b = true ->
  first_prefix (a +:+ b) ps = first_prefix a ps.
Proof.
  intros Hps Hb. induction ps as [|p ps IH]; [reflexivity|].
  simpl in Hps. apply andb_prop in Hps as [Hp Hps].
  apply andb_prop in Hp as [Hh Hne]. apply negb_true_iff in Hne.
  simpl. rewrite HasPrefix_app_low; [| exact Hh | | exact Hb].
  - destruct (HasPrefix a p); [reflexivity | now apply IH].
  - intros ->. discriminate Hne.
Qed.

(** What follows a string that is not empty does not change the rune at
    its head, when it starts with an ASCII byte. *)
Lemma space_width_app_low (a b : string) :
  a <> EmptyString -> lowHead b = true -> space_width (a +:+ b) = space_width a.
Proof.
  intros Ha Hb. destruct a as [|c a]; [contradiction|].
  rewrite sapp_cons. unfold space_width. destruct (asciiSpace c); [reflexivity|].
  rewrite <- sapp_cons. apply first_prefix_app_low; [apply unicodeSpaces_high | exact Hb].
Qed.

Lemma trim_head_stop (width : string -> nat) (fuel : nat) (s : string) :
  width s = 0 -> trim_head width fuel s = s.
Proof. intros H. destruct fuel; [reflexivity|]. simpl. now rewrite H. Qed.

(** [strings.TrimSpace] takes the line end off a line that neither starts
    nor ends with white space. *)
Lemma TrimSpace_CRLF (s : string) :
  s <> EmptyString -> space_width s = 0 -> space_width_last (rev s) = 0 ->
  TrimSpace (s +:+ CRLF) = s.
Proof.
  intros Hne Hhead Hlast.
  assert (Hl : TrimLeftSpace (s +:+ CRLF) = s +:+ CRLF).
  { apply trim_head_stop. rewrite space_width_app_low; [exact Hhead | exact Hne | reflexivity]. }
  unfold TrimSpace. rewrite Hl. unfold TrimRightSpace.
  assert (Hrev : rev (s +:+ CRLF) = String LF (String CR (rev s))).
  { rewrite rev_app. reflexivity. }
  rewrite Hrev, slength_app. rewrite Nat.add_comm.
  change (String.length CRLF + String.length s) with (S (S (String.length s))).
  assert (H1 : forall x, space_width_last (String LF x) = 1) by reflexivity.
  assert (H2 : forall x, space_width_last (String CR x) = 1) by reflexivity.
  cbn [trim_head]. rewrite H1. cbn [drop]. rewrite H2. cbn [drop].
  rewrite trim_head_stop by exact Hlast. apply rev_involutive.
Qed.

Lemma space_width_digit (d : ascii) (s : string) :
  isDigit d = true -> space_width (String d s) = 0.
Proof.
  destruct d as [[|] [|] [|] [|] [|] [|] [|] [|]]; intros H; try discriminate H;
    reflexivity.
Qed.

Lemma rev_last_digit (ds : string) :
  ds <> EmptyString -> allDigits ds = true ->
  exists d r, rev ds = String d r /\ isDigit d = true.
Proof.
  intros Hne Hd.
  destruct (rev ds) as [|d r] eqn:Er; [now apply rev_nonempty in Er|].
  exists d, r. split; [reflexivity|].
  pose proof (allDigits_rev ds) as Ha. rewrite Er, Hd in Ha. simpl in Ha.
  now apply andb_prop in Ha as [Ha _].
Qed.

Lemma TrimSpace_digits (ds : string) :
  ds <> EmptyString -> allDigits ds = true -> TrimSpace (ds +:+ CRLF) = ds.
Proof.
  intros Hne Hd. apply TrimSpace_CRLF; [exact Hne | |].
  - destruct ds as [|d ds']; [contradiction|].
    simpl in Hd. apply andb_prop in Hd as [Hd _]. now apply space_width_digit.
  - destruct (rev_last_digit ds Hne Hd) as (d & r & -> & Hdd).
    now apply digit_not_space_last.
Qed.

(** ** [Sscanf] reads back what [%d] prints *)

Lemma skipSpace_digit (fuel : nat) (d : ascii) (s : string) :
  isDigit d = true -> Wire.skipSpace fuel (String d s) = Some (String d s).
Proof.
  destruct fuel; [reflexivity|].
  destruct d as [[|] [|] [|] [|] [|] [|] [|] [|]]; intros H; try discriminate H;
    reflexivity.
Qed.

Lemma digitsPrefix_all (s : string) : allDigits s = true -> Wire.digitsPrefix s = s.
Proof.
  induction s as [|c s IH]; [reflexivity|].
  simpl. intros H. apply andb_prop in H as [Hc Hs]. rewrite Hc. now rewrite IH.
Qed.

Lemma Sscanf_d_Itoa (n : Z) : (0 <= n <= maxInt)%Z -> Wire.Sscanf_d (Itoa n) = Some n.
Proof.
  intros Hn.
  destruct (Itoa_digits n) as [Hd Hne]; [lia|].
  pose proof (parse_digits_Itoa n) as Hp.
  destruct (Itoa n) as [|c s] eqn:E; [contradiction|].
  pose proof Hd as Hd'. simpl in Hd'. apply andb_prop in Hd' as [Hc _].
  destruct (isDigit_not_sign c Hc) as [Hm Hpl].
  unfold Wire.Sscanf_d. rewrite skipSpace_digit by exact Hc.
  rewrite Hm, Hpl. cbn [orb].
  rewrite digitsPrefix_all by exact Hd.
  rewrite Hp by lia.
  assert (Hr : ((minInt <=? n) && (n <=? maxInt))%Z = true).
  { apply andb_true_intro. unfold minInt, maxInt in *. split; lia. }
  now rewrite Hr.
Qed.

Lemma wrapInt_small (x : Z) : (0 <= x <= maxInt)%Z -> Wire.wrapInt x = x.
Proof.
  intros H. unfold Wire.wrapInt, maxInt in *. rewrite Z.mod_small; lia.
Qed.

(** ** Header lines *)

Lemma header_shape (c : ascii) (ds more : string) :
  (String c EmptyString +:+ ds +:+ CRLF) +:+ more = (String c ds +:+ CRLF) +:+ more.
Proof. reflexivity. Qed.

Lemma len_header (c : ascii) (ds : string) : (len (String c ds +:+ CRLF) <? 2)%Z = false.
Proof.
  apply Z.ltb_ge. unfold len. rewrite slength_app. cbn. lia.
Qed.

Lemma slice_header (c : ascii) (ds : string) :
  slice_from (String c ds +:+ CRLF) 1 = ds +:+ CRLF.
Proof. rewrite sapp_cons. apply slice_from_tail. Qed.

Lemma digits_not_minus_one (ds : string) :
  allDigits ds = true -> String.eqb ds "-1" = false.
Proof.
  intros Hd. destruct ds as [|c ds]; [reflexivity|].
  simpl in Hd. apply andb_prop in Hd as [Hc _].
  destruct (isDigit_not_sign c Hc) as [Hm _].
  cbn. now rewrite Hm.
Qed.

(** A bulk string after its header line. *)
Lemma readBulkStringResponse_bulk (s rest : string) :
  (len s + 2 <= maxInt)%Z ->
  Wire.readBulkStringResponse (s +:+ CRLF +:+ rest) (String "$" (Itoa (len s)) +:+ CRLF)
  = (Ok ((String "$" (Itoa (len s)) +:+ CRLF) +:+ s +:+ CRLF), rest).
Proof.
  intros Hlen.
  assert (H0 : (0 <= len s)%Z) by (unfold len; lia).
  destruct (Itoa_digits (len s) H0) as [Hd Hne].
  unfold Wire.readBulkStringResponse.
  change (String.eqb (String "$" (Itoa (len s)) +:+ CRLF) EmptyString) with false.
  cbv iota.
  rewrite len_header, slice_header, TrimSpace_digits by assumption.
  rewrite digits_not_minus_one by exact Hd.
  rewrite Sscanf_d_Itoa by lia. change (default 0%Z (Some (len s))) with (len s).
  destruct (Z.gtb_spec (len s) 0) as [Hpos|Hzero].
  - rewrite wrapInt_small by lia.
    destruct (Z.ltb_spec (len s + 2) 0) as [F|_]; [lia|].
    replace (Z.to_nat (len s + 2)) with (String.length (s +:+ CRLF))
      by (rewrite slength_app; unfold len; cbn; lia).
    rewrite <- sapp_assoc, ReadFull_app. now rewrite sapp_assoc.
  - assert (s = EmptyString) as ->.
    { destruct s; [reflexivity | unfold len in Hzero; simpl in Hzero; lia]. }
    rewrite sapp_nil_l, ReadString_CRLF. reflexivity.
Qed.

Lemma readBulkStringResponse_null (rest : string) :
  Wire.readBulkStringResponse rest ("$-1" +:+ CRLF) = (Ok ("$-1" +:+ CRLF), rest).
Proof. reflexivity. Qed.

(** ** Induction on replies *)

Lemma Reply_induction (P : Reply -> Prop) :
  (forall s, P (SimpleString s)) ->
  (forall s, P (ErrorReply s)) ->
  (forall n, P (IntegerReply n)) ->
  (forall s, P (BulkString s)) ->
  P NullBulk ->
  (forall elems, Forall P elems -> P (ArrayReply elems)) ->
  P NullArray ->
  forall v, P v.
Proof.
  intros Hs He Hi Hb Hnb Ha Hna.
  fix IH 1. intros [s|s|n|s| |elems|].
  - apply Hs.
  - apply He.
  - apply Hi.
  - apply Hb.
  - apply Hnb.
  - apply Ha. induction elems as [|e elems IHl]; constructor; [apply IH | exact IHl].
  - apply Hna.
Qed.

Lemma encode_array (elems : list Reply) :
  encode (ArrayReply elems)
  = (String "*" (Itoa (Z.of_nat (length elems))) +:+ CRLF) +:+ encodeAll elems.
Proof.
  cbn [encode]. rewrite !sapp_assoc. reflexivity.
Qed.

Lemma encode_bulk (s : string) :
  encode (BulkString s) = (String "$" (Itoa (len s)) +:+ CRLF) +:+ s +:+ CRLF.
Proof. cbn [encode]. rewrite !sapp_assoc. reflexivity. Qed.

Lemma wellFormed_array (elems : list Reply) :
  wellFormed (ArrayReply elems) = true ->
  (Z.of_nat (length elems) <= maxInt)%Z /\ Forall (fun e => wellFormed e = true) elems.
Proof.
  cbn [wellFormed]. intros H. apply andb_prop in H as [Hc Hall].
  split; [now apply Z.leb_le|]. clear Hc.
  induction elems as [|e elems IH]; constructor.
  - now apply andb_prop in Hall as [He _].
  - apply IH. now apply andb_prop in Hall as [_ He].
Qed.

(** ** Lines of one byte kind and another *)

Lemma Itoa_neg (p : positive) : Itoa (Z.neg p) = String "-" (Itoa (Z.pos p)).
Proof.
  rewrite Itoa_pos. unfold Itoa. simpl.
  pose proof (DecimalPos.Unsigned.to_uint_nonnil p) as Hn.
  destruct (Pos.to_uint p); [contradiction| reflexivity ..].
Qed.

Lemma Itoa_noLF (n : Z) : noLF (Itoa n) = true.
Proof.
  destruct n as [|p|p].
  - reflexivity.
  - apply allDigits_noLF. now apply Itoa_digits.
  - rewrite Itoa_neg. simpl. apply allDigits_noLF. now apply Itoa_digits.
Qed.

Lemma noLF_app (a b : string) : noLF (a +:+ b) = noLF a && noLF b.
Proof.
  induction a as [|c a IH]; [reflexivity|].
  rewrite sapp_cons. simpl. now rewrite IH, andb_assoc.
Qed.

(** A line [c s CR LF] is read whole. *)
Lemma ReadString_status (c : ascii) (s rest : string) :
  Ascii.eqb c LF = false -> noLF s = true ->
  ReadString LF ((String c s +:+ CRLF) +:+ rest) = (String c s +:+ CRLF, false, rest).
Proof.
  intros Hc Hs.
  replace ((String c s +:+ CRLF) +:+ rest)
    with ((String c s +:+ String CR EmptyString) +:+ String LF rest).
  2:{ unfold CRLF. rewrite !sapp_assoc. reflexivity. }
  rewrite ReadString_line.
  - unfold CRLF. rewrite sapp_assoc. reflexivity.
  - rewrite sapp_cons. simpl. rewrite Hc. simpl. rewrite noLF_app, Hs. reflexivity.
Qed.

Lemma weight_array (elems : list Reply) : weight (ArrayReply elems) = 2 + weights elems.
Proof.
  reflexivity.
Qed.

Lemma weight_pos (v : Reply) : 1 <= weight v.
Proof. destruct v; cbn [weight]; lia. Qed.

Lemma weight_encode (v : Reply) : weight v <= String.length (encode v).
Proof.
  induction v as [s|s|n|s| |elems IH|] using Reply_induction;
    try (cbn [weight encode]; rewrite ?slength_app; cbn; lia).
  rewrite weight_array, encode_array, !slength_app.
  change (String.length CRLF) with 2. cbn [String.length].
  assert (weights elems <= String.length (encodeAll elems)); [|lia].
  induction IH as [|e elems He _ IHl]; [reflexivity|].
  cbn [weights encodeAll]. rewrite slength_app. lia.
Qed.

(** ** Reading a well-formed reply *)

Lemma readElements_encodeAll (elems : list Reply) :
  Forall turnReads elems ->
  Forall (fun e => wellFormed e = true) elems ->
  forall fuel more i count response,
    weights elems <= fuel ->
    (count = i + Z.of_nat (length elems))%Z ->
    Wire.readElements_fuel fuel (encodeAll elems +:+ more) i count response
    = (Ok (response +:+ encodeAll elems), more).
Proof.
  intros Hturn Hwf. induction Hturn as [|e elems He _ IH];
    intros fuel more i count response Hfuel Hcount.
  - assert (Hi : (i <? count)%Z = false) by (apply Z.ltb_ge; simpl in Hcount; lia).
    rewrite sapp_nil_l, sapp_nil_r.
    destruct fuel; cbn [Wire.readElements_fuel]; now rewrite Hi.
  - inversion Hwf as [|? ? Hwe Hwes]; subst.
    cbn [weights encodeAll] in *.
    pose proof (weight_pos e) as Hpos.
    destruct fuel as [|fuel]; [lia|].
    rewrite sapp_assoc, (He Hwe) by (simpl length in *; lia).
    rewrite IH; [now rewrite sapp_assoc | exact Hwes | lia |].
    simpl length. lia.
Qed.

Lemma readArrayResponse_fuel_header (fuel : nat) (count : Z) (reader : Reader) :
  (0 <= count <= maxInt)%Z ->
  Wire.readArrayResponse_fuel (S fuel) reader (String "*" (Itoa count) +:+ CRLF)
  = Wire.readElements_fuel fuel reader 0 count (String "*" (Itoa count) +:+ CRLF).
Proof.
  intros Hc. destruct (Itoa_digits count) as [Hd Hne]; [lia|].
  cbn [Wire.readArrayResponse_fuel].
  rewrite len_header, slice_header, TrimSpace_digits by assumption.
  rewrite digits_not_minus_one by exact Hd.
  now rewrite Sscanf_d_Itoa.
Qed.

Lemma turnReads_all (v : Reply) : turnReads v.
Proof.
  induction v as [s|s|n|s| |elems IH|] using Reply_induction;
    intros Hwf fuel more i count response Hfuel Hi;
    apply Z.ltb_lt in Hi; cbn [Wire.readElements_fuel]; rewrite Hi.
  - cbn [wellFormed] in Hwf.
    change (encode (SimpleString s)) with (String "+" s +:+ CRLF).
    rewrite ReadString_status by (reflexivity || exact Hwf). cbv iota.
    rewrite sapp_cons. reflexivity.
  - cbn [wellFormed] in Hwf.
    change (encode (ErrorReply s)) with (String "-" s +:+ CRLF).
    rewrite ReadString_status by (reflexivity || exact Hwf). cbv iota.
    rewrite sapp_cons. reflexivity.
  - change (encode (IntegerReply n)) with (String ":" (Itoa n) +:+ CRLF).
    rewrite ReadString_status by (reflexivity || apply Itoa_noLF). cbv iota.
    rewrite sapp_cons. reflexivity.
  - cbn [wellFormed] in Hwf. apply Z.leb_le in Hwf.
    assert (H0 : (0 <= len s)%Z) by (unfold len; lia).
    destruct (Itoa_digits (len s) H0) as [Hd Hne].
    rewrite encode_bulk, sapp_assoc, ReadString_header by (reflexivity || exact Hd). cbv iota.
    rewrite sapp_cons at 1. cbv iota. change (Ascii.eqb "$" "$") with true. cbv iota.
    rewrite sapp_assoc, readBulkStringResponse_bulk by exact Hwf.
    rewrite afterLine_app. now rewrite !sapp_assoc.
  - assert (Hr : ReadString LF (encode NullBulk +:+ more) = (encode NullBulk, false, more))
      by reflexivity.
    rewrite Hr. change (encode NullBulk) with (String "$" ("-1" +:+ CRLF)). cbv iota.
    change (Ascii.eqb "$" "$") with true. cbv iota.
    change (String "$" ("-1" +:+ CRLF)) with ("$-1" +:+ CRLF).
    rewrite readBulkStringResponse_null.
    assert (Ha : Wire.afterLine ("$-1" +:+ CRLF) ("$-1" +:+ CRLF) = Some EmptyString)
      by reflexivity.
    rewrite Ha. now rewrite sapp_nil_r.
  - apply wellFormed_array in Hwf as [Hcount Hall].
    rewrite weight_array in Hfuel.
    assert (H0 : (0 <= Z.of_nat (length elems))%Z) by lia.
    destruct (Itoa_digits _ H0) as [Hd Hne].
    rewrite encode_array, sapp_assoc, ReadString_header by (reflexivity || exact Hd).
    cbv iota. rewrite sapp_cons at 1. cbv iota.
    change (Ascii.eqb "*" "$") with false. change (Ascii.eqb "*" "*") with true. cbv iota.
    destruct fuel as [|fuel]; [lia|].
    rewrite readArrayResponse_fuel_header by lia.
    rewrite (readElements_encodeAll elems IH Hall) by lia.
    rewrite afterLine_app. now rewrite !sapp_assoc.
  - destruct fuel as [|fuel]; [cbn [weight] in Hfuel; lia|].
    assert (Hr : ReadString LF (encode NullArray +:+ more) = (encode NullArray, false, more))
      by reflexivity.
    rewrite Hr. change (encode NullArray) with (String "*" ("-1" +:+ CRLF)). cbv iota.
    change (Ascii.eqb "*" "$") with false. change (Ascii.eqb "*" "*") with true. cbv iota.
    assert (Hn : Wire.readArrayResponse_fuel (S fuel) more (String "*" ("-1" +:+ CRLF))
                 = (Ok (String "*" ("-1" +:+ CRLF)), more)) by reflexivity.
    rewrite Hn.
    assert (Ha : Wire.afterLine (String "*" ("-1" +:+ CRLF)) (String "*" ("-1" +:+ CRLF))
                 = Some EmptyString) by reflexivity.
    rewrite Ha. now rewrite sapp_nil_r.
Qed.

Lemma weights_encodeAll (elems : list Reply) :
  weights elems <= String.length (encodeAll elems).
Proof.
  induction elems as [|e elems IH]; [reflexivity|].
  cbn [weights encodeAll]. rewrite slength_app.
  pose proof (weight_encode e). lia.
Qed.

(** The reply at the head of a stream is read whole, and nothing more. *)
Lemma readBackendResponse_encode (v : Reply) (rest : string) :
  wellFormed v = true ->
  Wire.readFromReader (encode v +:+ rest) = (Ok (encode v), rest).
Proof.
  intros Hwf. unfold Wire.readFromReader.
  destruct v as [s|s|n|s| |elems|].
  - cbn [wellFormed] in Hwf.
    change (encode (SimpleString s)) with (String "+" s +:+ CRLF).
    rewrite ReadString_status by (reflexivity || exact Hwf).
    rewrite sapp_cons. reflexivity.
  - cbn [wellFormed] in Hwf.
    change (encode (ErrorReply s)) with (String "-" s +:+ CRLF).
    rewrite ReadString_status by (reflexivity || exact Hwf).
    rewrite sapp_cons. reflexivity.
  - change (encode (IntegerReply n)) with (String ":" (Itoa n) +:+ CRLF).
    rewrite ReadString_status by (reflexivity || apply Itoa_noLF).
    rewrite sapp_cons. reflexivity.
  - cbn [wellFormed] in Hwf. apply Z.leb_le in Hwf.
    assert (H0 : (0 <= len s)%Z) by (unfold len; lia).
    destruct (Itoa_digits (len s) H0) as [Hd Hne].
    rewrite encode_bulk, sapp_assoc, ReadString_header by (reflexivity || exact Hd).
    rewrite sapp_cons at 1. cbv iota. change (Ascii.eqb "$" "$") with true. cbv iota.
    rewrite sapp_assoc. now apply readBulkStringResponse_bulk.
  - reflexivity.
  - apply wellFormed_array in Hwf as [Hcount Hall].
    assert (H0 : (0 <= Z.of_nat (length elems))%Z) by lia.
    destruct (Itoa_digits _ H0) as [Hd Hne].
    rewrite encode_array, sapp_assoc, ReadString_header by (reflexivity || exact Hd).
    rewrite sapp_cons at 1. cbv iota.
    change (Ascii.eqb "*" "$") with false. change (Ascii.eqb "*" "*") with true. cbv iota.
    unfold Wire.readArrayResponse, Wire.arrayFuel.
    pose proof (weights_encodeAll elems) as Hw.
    replace (2 * String.length (encodeAll elems +:+ rest) + 2)
      with (S (2 * String.length (encodeAll elems +:+ rest) + 1)) by lia.
    rewrite readArrayResponse_fuel_header by lia.
    apply readElements_encodeAll; try assumption.
    + apply Forall_forall. intros e _. apply turnReads_all.
    + rewrite slength_app. lia.
    + lia.
  - assert (Hr : ReadString LF (encode NullArray +:+ rest) = (encode NullArray, false, rest))
      by reflexivity.
    rewrite Hr. change (encode NullArray) with (String "*" ("-1" +:+ CRLF)). cbv iota.
    change (Ascii.eqb "*" "$") with false. change (Ascii.eqb "*" "*") with true. cbv iota.
    unfold Wire.readArrayResponse, Wire.arrayFuel.
    replace (2 * String.length rest + 2) with (S (2 * String.length rest + 1)) by lia.
    reflexivity.
Qed.

End ReplyRoundTrip.

(** The reader of replies waits for nothing: it works on the bytes at
    hand. *)
Lemma readBulkStringResponse_not_blocked (reader : Reader) (firstLine : string) :
  fst (Wire.readBulkStringResponse reader firstLine) <> Blocked.
Proof.
  unfold Wire.readBulkStringResponse.
  destruct (String.eqb firstLine EmptyString).
  - destruct (ReadString LF reader) as [[line [|]] r1]; [discriminate|].
    destruct (len line <? 2)%Z; [discriminate|].
    destruct (String.eqb _ "-1"); [discriminate|].
    destruct (_ >? 0)%Z.
    + destruct (_ <? 0)%Z; [discriminate|].
      unfold ReadFull. destruct (_ <=? _)%nat; [discriminate|]. destruct r1; discriminate.
    + destruct (ReadString LF r1) as [[l2 [|]] r2]; discriminate.
  - destruct (len firstLine <? 2)%Z; [discriminate|].
    destruct (String.eqb _ "-1"); [discriminate|].
    destruct (_ >? 0)%Z.
    + destruct (_ <? 0)%Z; [discriminate|].
      unfold ReadFull. destruct (_ <=? _)%nat; [discriminate|]. destruct reader; discriminate.
    + destruct (ReadString LF reader) as [[l2 [|]] r2]; discriminate.
Qed.

Lemma readArrayResponse_not_blocked (fuel : nat) :
  (forall reader firstLine,
     fst (Wire.readArrayResponse_fuel fuel reader firstLine) <> Blocked) /\
  (forall reader i count response,
     fst (Wire.readElements_fuel fuel reader i count response) <> Blocked).
Proof.
  induction fuel as [|fuel [IHa IHe]].
  - split; intros; cbn; [discriminate|]. destruct (_ <? _)%Z; discriminate.
  - assert (He : forall reader i count response,
               fst (Wire.readElements_fuel (S fuel) reader i count response) <> Blocked).
    { intros reader i count response. cbn [Wire.readElements_fuel].
      destruct (i <? count)%Z; [|discriminate].
      destruct (ReadString LF reader) as [[line [|]] r1]; [discriminate|].
      destruct line as [|c line']; [apply IHe|].
      destruct (Ascii.eqb c "$").
      { pose proof (readBulkStringResponse_not_blocked r1 (String c line')) as Hb.
        destruct (Wire.readBulkStringResponse r1 (String c line')) as [[el|e| | |] r2];
          try discriminate; [|now contradiction Hb].
        destruct (Wire.afterLine el (String c line')); [apply IHe | discriminate]. }
      destruct (Ascii.eqb c "*"); [|apply IHe].
      pose proof (IHa r1 (String c line')) as Ha.
      destruct (Wire.readArrayResponse_fuel fuel r1 (String c line')) as [[el|e| | |] r2];
        try discriminate; [|now contradiction Ha].
      destruct (Wire.afterLine el (String c line')); [apply IHe | discriminate]. }
    split; [|exact He].
    intros reader firstLine. cbn [Wire.readArrayResponse_fuel].
    destruct (len firstLine <? 2)%Z; [discriminate|].
    destruct (String.eqb _ "-1"); [discriminate|].
    apply IHe.
Qed.

Lemma readFromReader_ends (reader : Reader) :
  fst (Wire.readFromReader reader) <> OutOfFuel /\
  fst (Wire.readFromReader reader) <> Blocked.
Proof.
  unfold Wire.readFromReader.
  destruct (ReadString LF reader) as [[line eof] r1].
  destruct eof; [split; discriminate|].
  destruct line as [|c line']; [split; discriminate|].
  destruct (Ascii.eqb c "$");
    [split; [apply readBulkStringResponse_ends | apply readBulkStringResponse_not_blocked]|].
  destruct (Ascii.eqb c "*"); [|split; discriminate].
  unfold Wire.readArrayResponse, Wire.arrayFuel. split.
  - apply (readArrayResponse_fuel_enough (String.length r1) r1 (le_n _)). lia.
  - apply readArrayResponse_not_blocked.
Qed.

(** Every reply of RESP2 that is well formed (a status or error line
    without a line feed, lengths and counts that fit [int]; arrays nested
    to any depth, bulk strings of any bytes) is cut out of the stream
    exactly: [readBackendResponse] returns its bytes, whatever follows
    them on the stream. *)
Theorem readBackendResponse_round_trip (v : Reply) (rest : string) :
  wellFormed v = true ->
  Wire.readBackendResponse (encode v +:+ rest) = Ok (encode v).
Proof.
  intros Hwf. unfold Wire.readBackendResponse.
  now rewrite readBackendResponse_encode.
Qed.

(** An array with a bulk string that holds a line end, a negative integer,
    the two nulls, a nested array and an empty bulk string, followed on
    the stream by another reply. *)
Lemma readBackendResponse_round_trip_witness :
  Wire.readBackendResponse (encode nestedReply +:+ ("+PONG" +:+ CRLF))
  = Ok (encode nestedReply).
Proof.
  apply (readBackendResponse_round_trip nestedReply ("+PONG" +:+ CRLF)).
  vm_compute. reflexivity.
Defined.

(** What [readBackendResponse] returns as the reply is a prefix of the
    bytes that the backend sent: inside the reply no byte of the backend
    is dropped, repeated or made up on the way to the client. *)
Theorem readBackendResponse_returns_prefix (stream resp : string) :
  Wire.readBackendResponse stream = Ok resp ->
  exists rest, stream = resp +:+ rest.
Proof.
  unfold Wire.readBackendResponse. intros H.
  destruct (Wire.readFromReader stream) as [res rest] eqn:E. cbn [fst] in H. subst res.
  exists rest. now apply readBackendResponse_split.
Qed.

(** A bulk string, followed on the stream by another reply. *)
Lemma readBackendResponse_returns_prefix_witness :
  exists rest,
    "$3" +:+ CRLF +:+ "bar" +:+ CRLF +:+ "+PONG" +:+ CRLF
    = ("$3" +:+ CRLF +:+ "bar" +:+ CRLF) +:+ rest.
Proof.
  apply (readBackendResponse_returns_prefix
           ("$3" +:+ CRLF +:+ "bar" +:+ CRLF +:+ "+PONG" +:+ CRLF)
           ("$3" +:+ CRLF +:+ "bar" +:+ CRLF)).
  vm_compute. reflexivity.
Defined.

(** [readBackendResponse] comes to an end on every stream, however the
    arrays on it are nested and whatever their counts: it returns a reply
    or an error, or it panics (the length of a bulk string plus two wraps
    around). *)
Theorem readBackendResponse_ends (reader : Reader) :
  match Wire.readBackendResponse reader with
  | OutOfFuel | Blocked => False
  | _ => True
  end.
Proof.
  destruct (readFromReader_ends reader) as [H1 H2]. unfold Wire.readBackendResponse.
  destruct (fst (Wire.readFromReader reader)); try exact I; now contradiction.
Qed.

(** A reply that is cut short is never taken for a whole one: on a stream
    that ends inside a well-formed reply, [readBackendResponse] does not
    return a reply. *)
Theorem readBackendResponse_truncated (v : Reply) (p q : string) :
  wellFormed v = true -> encode v = p +:+ q -> q <> EmptyString ->
  match Wire.readBackendResponse p with
  | Ok _ => False
  | _ => True
  end.
Proof.
  intros Hwf Hcut Hq. unfold Wire.readBackendResponse.
  destruct (Wire.readFromReader p) as [[resp|e| | |] rest] eqn:H; cbn [fst]; try exact I.
  apply (readBackendResponse_more _ q) in H.
  rewrite <- Hcut, <- (sapp_nil_r (encode v)) in H.
  rewrite readBackendResponse_encode in H by exact Hwf.
  injection H as _ H. destruct rest; destruct q; try discriminate H. now contradiction Hq.
Qed.

(** The nested reply, without its last three bytes. *)
Lemma readBackendResponse_truncated_witness :
  match Wire.readBackendResponse
          (String.substring 0 (String.length (encode nestedReply) - 3)
             (encode nestedReply)) with
  | Ok _ => False
  | _ => True
  end.
Proof.
  apply (readBackendResponse_truncated nestedReply
           (String.substring 0 (String.length (encode nestedReply) - 3) (encode nestedReply))
           ("0" +:+ CRLF)).
  - vm_compute. reflexivity.
  - vm_compute. reflexivity.
  - discriminate.
Defined.

(* ===================================================================== *)
(** * Lines made of words                                                 *)
(* ===================================================================== *)

Section Words.

Local Open Scope nat_scope.

Lemma HasPrefix_split (s p : string) :
  HasPrefix s p = true -> exists t, s = p +:+ t.
Proof.
  revert s. induction p as [|x p IH]; intros s H.
  - exists s. reflexivity.
  - destruct s as [|y s]; [discriminate H|]. simpl in H.
    destruct (Ascii.eqb_spec y x) as [->|]; [|discriminate H].
    destruct (IH s H) as [t ->]. exists t. reflexivity.
Qed.

Lemma HasPrefix_app (p t : string) : HasPrefix (p +:+ t) p = true.
Proof.
  induction p as [|x p IH]; [reflexivity|].
  rewrite sapp_cons. simpl. now rewrite Ascii.eqb_refl.
Qed.

Lemma HasPrefix_more (s p t : string) :
  HasPrefix s p = true -> HasPrefix (s +:+ t) p = true.
Proof.
  intros H. destruct (HasPrefix_split s p H) as [u ->].
  rewrite sapp_assoc. apply HasPrefix_app.
Qed.

Lemma first_prefix_more (ps : list string) (s t : string) :
  forallb (fun p => highBytes p && negb (String.eqb p EmptyString)) ps = true ->
  first_prefix s ps <> 0 -> first_prefix (s +:+ t) ps <> 0.
Proof.
  intros Hps. induction ps as [|p ps IH]; [intros H; now contradiction H|].
  simpl in Hps. apply andb_prop in Hps as [Hp Hps].
  apply andb_prop in Hp as [_ Hne]. apply negb_true_iff in Hne.
  assert (Hlen : String.length p <> 0) by (destruct p; [discriminate Hne | discriminate]).
  simpl. destruct (HasPrefix s p) eqn:E.
  - rewrite (HasPrefix_more _ _ t E). intros _. exact Hlen.
  - intros H. destruct (HasPrefix (s +:+ t) p); [exact Hlen | now apply IH].
Qed.

Lemma space_width_more (s t : string) :
  space_width s <> 0 -> space_width (s +:+ t) <> 0.
Proof.
  destruct s as [|c s]; [intros H; now contradiction H|].
  rewrite sapp_cons. unfold space_width. destruct (asciiSpace c); [discriminate|].
  rewrite <- sapp_cons. apply first_prefix_more. apply unicodeSpaces_high.
Qed.

(** ** Words *)

Lemma noSpace_app_r (u v : string) : noSpace (u +:+ v) = true -> noSpace v = true.
Proof.
  induction u as [|c u IH]; [now rewrite sapp_nil_l|].
  rewrite sapp_cons. cbn [noSpace]. intros H. apply andb_prop in H as [_ H]. now apply IH.
Qed.

Lemma noSpace_head (w : string) :
  w <> EmptyString -> noSpace w = true -> space_width w = 0.
Proof.
  destruct w as [|c w]; [intros H; now contradiction H|].
  cbn [noSpace]. intros _ H. apply andb_prop in H as [H _]. now apply Nat.eqb_eq.
Qed.

Lemma isWord_parts (w : string) :
  isWord w = true -> w <> EmptyString /\ noSpace w = true.
Proof.
  unfold isWord. intros H. apply andb_prop in H as [Hne Hw]. split; [|exact Hw].
  intros ->. discriminate Hne.
Qed.

Lemma unicodeSpaces_wide :
  forallb (fun p => negb (Nat.eqb (space_width p) 0)) unicodeSpaces = true.
Proof. vm_compute. reflexivity. Qed.

Lemma unicodeSpaces_rev_high :
  forallb (fun p => highBytes p && negb (String.eqb p EmptyString))
    (map rev unicodeSpaces) = true.
Proof. vm_compute. reflexivity. Qed.

(** No white-space rune ends at the last byte of a word. *)
Lemma noSpace_last (w : string) :
  noSpace w = true -> first_prefix (rev w) (map rev unicodeSpaces) = 0.
Proof.
  intros Hw. pose proof unicodeSpaces_wide as Hwide.
  induction unicodeSpaces as [|p ps IH]; [reflexivity|].
  simpl in Hwide. apply andb_prop in Hwide as [Hp Hps].
  cbn [map first_prefix].
  destruct (HasPrefix (rev w) (rev p)) eqn:E; [|now apply IH].
  exfalso. destruct (HasPrefix_split _ _ E) as [t Ht].
  assert (Hwp : w = rev t +:+ p).
  { rewrite <- (rev_involutive w), Ht, rev_app, rev_involutive. reflexivity. }
  rewrite Hwp in Hw. apply noSpace_app_r in Hw.
  apply negb_true_iff, Nat.eqb_neq in Hp. apply Hp.
  destruct p as [|c p]; [reflexivity|]. now apply noSpace_head.
Qed.

Lemma word_last_byte (w : string) (c : ascii) (r : string) :
  noSpace w = true -> rev w = String c r -> asciiSpace c = false.
Proof.
  intros Hw Hr.
  assert (Hwc : w = rev r +:+ String c EmptyString).
  { rewrite <- (rev_involutive w), Hr, rev_cons. reflexivity. }
  rewrite Hwc in Hw. apply noSpace_app_r in Hw. cbn [noSpace] in Hw.
  apply andb_prop in Hw as [Hw _]. apply Nat.eqb_eq in Hw.
  unfold space_width in Hw. destruct (asciiSpace c); [discriminate Hw | reflexivity].
Qed.

(** A word, written backwards and followed by anything that starts with
    an ASCII byte, does not start with a white-space rune written
    backwards. *)
Lemma space_width_last_word (w t : string) :
  isWord w = true -> lowHead t = true -> space_width_last (rev w +:+ t) = 0.
Proof.
  intros Hw Ht. apply isWord_parts in Hw as [Hne Hw].
  destruct (rev w) as [|c r] eqn:Er; [now apply rev_nonempty in Er|].
  rewrite sapp_cons. unfold space_width_last.
  rewrite (word_last_byte w c r Hw Er).
  rewrite <- sapp_cons, first_prefix_app_low by (apply unicodeSpaces_rev_high || exact Ht).
  rewrite <- Er. now apply noSpace_last.
Qed.

(** ** Cutting a line into its fields *)

(** The scan of [strings.Fields] over a word. *)
Lemma fields_scan_word (w rest : string) :
  noSpace w = true -> lowHead rest = true ->
  forall fuel cur,
    String.length w <= fuel ->
    fields_scan fuel (w +:+ rest) cur
    = fields_scan (fuel - String.length w) rest (rev_onto w cur).
Proof.
  intros Hw Hrest. induction w as [|c w IH]; intros fuel cur Hfuel.
  - rewrite sapp_nil_l, Nat.sub_0_r. reflexivity.
  - cbn [noSpace] in Hw. apply andb_prop in Hw as [Hc Hw]. apply Nat.eqb_eq in Hc.
    destruct fuel as [|fuel]; [simpl in Hfuel; lia|].
    assert (Hsw : space_width (String c w +:+ rest) = 0).
    { rewrite space_width_app_low; [exact Hc | discriminate | exact Hrest]. }
    rewrite sapp_cons in *. cbn [fields_scan]. rewrite Hsw.
    rewrite (IH Hw) by (simpl in Hfuel; lia). reflexivity.
Qed.

Lemma rev_onto_nonempty (w cur : string) :
  w <> EmptyString -> rev_onto w cur <> EmptyString.
Proof.
  intros Hw H. rewrite rev_onto_app in H.
  destruct (rev w) eqn:Er; [now apply rev_nonempty in Er | discriminate H].
Qed.

Lemma fields_scan_flush (fuel : nat) (w : string) :
  w <> EmptyString -> fields_scan fuel EmptyString (rev_onto w EmptyString) = [w].
Proof.
  intros Hw.
  assert (H : forall cur, cur <> EmptyString ->
            fields_scan fuel EmptyString cur = [rev cur]).
  { intros cur Hc. destruct fuel; destruct cur; try contradiction; reflexivity. }
  rewrite H by now apply rev_onto_nonempty.
  change (rev_onto w EmptyString) with (rev w). now rewrite rev_involutive.
Qed.

Lemma Join_cons (w w2 : string) (ws : list string) (sep : string) :
  Join (w :: w2 :: ws) sep = w +:+ sep +:+ Join (w2 :: ws) sep.
Proof. reflexivity. Qed.

(** [strings.Fields] gives back the words of a line in which single
    spaces separate them. *)
Lemma fields_scan_Join (ws : list string) :
  Forall (fun w => isWord w = true) ws ->
  forall fuel,
    String.length (Join ws " ") < fuel ->
    fields_scan fuel (Join ws " ") EmptyString = ws.
Proof.
  induction ws as [|w ws IH]; intros Hall fuel Hfuel.
  - destruct fuel; reflexivity.
  - inversion Hall as [|? ? Hw Hws]; subst.
    apply isWord_parts in Hw as [Hne Hw].
    destruct ws as [|w2 ws].
    + cbn [Join] in *. rewrite <- (sapp_nil_r w) at 1.
      rewrite fields_scan_word by (assumption || reflexivity || lia).
      now apply fields_scan_flush.
    + rewrite Join_cons in *. rewrite slength_app in Hfuel.
      rewrite fields_scan_word by (assumption || reflexivity || lia).
      change (" " +:+ Join (w2 :: ws) " ") with (String " " (Join (w2 :: ws) " ")) in *.
      cbn [String.length] in Hfuel.
      destruct (fuel - String.length w) as [|fuel'] eqn:Ef; [lia|].
      cbn [fields_scan].
      assert (Hsp : forall x, space_width (String " " x) = 1) by reflexivity.
      rewrite Hsp. cbn [drop].
      destruct (rev_onto w EmptyString) as [|c r] eqn:Er;
        [now apply rev_onto_nonempty in Er|].
      rewrite <- Er. change (rev_onto w EmptyString) with (rev w).
      rewrite rev_involutive. cbn [app]. f_equal. apply IH; [exact Hws | lia].
Qed.

Lemma Fields_Join (ws : list string) :
  Forall (fun w => isWord w = true) ws -> Fields (Join ws " ") = ws.
Proof. intros H. apply fields_scan_Join; [exact H | lia]. Qed.

(** ** The ends of a line of words *)

Lemma Join_head (w : string) (ws : list string) :
  exists t, Join (w :: ws) " " = w +:+ t /\ lowHead t = true.
Proof.
  destruct ws as [|w2 ws].
  - exists EmptyString. now rewrite sapp_nil_r.
  - exists (" " +:+ Join (w2 :: ws) " "). split; reflexivity.
Qed.

Lemma Join_last (ws : list string) :
  ws <> [] -> Forall (fun w => isWord w = true) ws ->
  exists pre w, Join ws " " = pre +:+ w /\ isWord w = true /\ lowHead (rev pre) = true.
Proof.
  induction ws as [|w ws IH]; intros Hne Hall; [contradiction|].
  inversion Hall as [|? ? Hw Hws]; subst.
  destruct ws as [|w2 ws].
  - exists EmptyString, w. split; [reflexivity | split; [exact Hw | reflexivity]].
  - destruct (IH ltac:(discriminate) Hws) as (pre & wl & Hj & Hwl & Hpre).
    exists (w +:+ " " +:+ pre), wl. rewrite Join_cons, Hj.
    split; [now rewrite !sapp_assoc | split; [exact Hwl|]].
    rewrite !rev_app.
    destruct (rev pre) as [|c r] eqn:Er; [reflexivity | exact Hpre].
Qed.

Lemma Join_nonempty (w : string) (ws : list string) :
  w <> EmptyString -> Join (w :: ws) " " <> EmptyString.
Proof.
  intros Hw. destruct (Join_head w ws) as (t & -> & _).
  destruct w; [contradiction | discriminate].
Qed.

(** [strings.TrimSpace] takes the line end off a line of words, and
    nothing else. *)
Lemma TrimSpace_Join (ws : list string) :
  ws <> [] -> Forall (fun w => isWord w = true) ws ->
  TrimSpace (Join ws " " +:+ CRLF) = Join ws " ".
Proof.
  intros Hne Hall. destruct ws as [|w ws]; [contradiction|].
  pose proof Hall as Hall'. inversion Hall' as [|? ? Hw Hws]; subst.
  apply isWord_parts in Hw as [Hwne Hw].
  apply TrimSpace_CRLF.
  - now apply Join_nonempty.
  - destruct (Join_head w ws) as (t & -> & Ht).
    rewrite space_width_app_low by assumption. now apply noSpace_head.
  - destruct (Join_last (w :: ws) Hne Hall) as (pre & wl & -> & Hwl & Hpre).
    rewrite rev_app. now apply space_width_last_word.
Qed.

(** ** What [strings.Fields] returns *)

Lemma solid_snoc (u : string) (c : ascii) (s : string) :
  solid u (String c s) = true -> space_width (String c s) = 0 ->
  solid (u +:+ String c EmptyString) s = true.
Proof.
  intros Hu Hc. induction u as [|d u IH].
  - rewrite sapp_nil_l. cbn [solid]. rewrite sapp_cons, sapp_nil_l, Hc. reflexivity.
  - rewrite sapp_cons. cbn [solid] in *. apply andb_prop in Hu as [Hd Hu].
    rewrite (IH Hu), andb_true_r.
    rewrite <- sapp_cons, sapp_assoc. exact Hd.
Qed.

Lemma solid_noSpace (u s : string) : solid u s = true -> noSpace u = true.
Proof.
  induction u as [|d u IH]; [reflexivity|].
  cbn [solid noSpace]. intros H. apply andb_prop in H as [Hd Hu].
  rewrite (IH Hu), andb_true_r. apply Nat.eqb_eq in Hd. apply Nat.eqb_eq.
  destruct (space_width (String d u)) eqn:E; [reflexivity|].
  exfalso. apply (space_width_more (String d u) s); [rewrite E; discriminate | exact Hd].
Qed.

Lemma fields_scan_words (fuel : nat) :
  forall s cur,
    solid (rev cur) s = true ->
    Forall (fun w => isWord w = true) (fields_scan fuel s cur).
Proof.
  assert (Hflush : forall s cur, solid (rev cur) s = true ->
            Forall (fun w => isWord w = true)
              match cur with EmptyString => [] | _ => [rev cur] end).
  { intros s cur Hs. destruct cur as [|c cur]; constructor; [|constructor].
    unfold isWord. rewrite (solid_noSpace _ _ Hs), andb_true_r.
    destruct (rev (String c cur)) eqn:Er; [|reflexivity].
    now apply rev_nonempty in Er. }
  induction fuel as [|fuel IH]; intros s cur Hs.
  - exact (Hflush s cur Hs).
  - cbn [fields_scan]. destruct s as [|c s]; [exact (Hflush _ cur Hs)|].
    destruct (space_width (String c s)) as [|w] eqn:Ew.
    + apply IH. rewrite rev_cons. now apply solid_snoc.
    + apply Forall_app. split; [exact (Hflush _ cur Hs) | apply IH; reflexivity].
Qed.

Lemma Fields_words (s : string) : Forall (fun w => isWord w = true) (Fields s).
Proof. apply fields_scan_words. reflexivity. Qed.

(** The first field of a line that starts with a word and a space. *)
Lemma Fields_first (w t : string) :
  isWord w = true -> exists more, Fields (w +:+ String " " t) = w :: more.
Proof.
  intros Hw. apply isWord_parts in Hw as [Hne Hw]. unfold Fields.
  rewrite fields_scan_word by (assumption || reflexivity || rewrite slength_app; lia).
  rewrite slength_app. cbn [String.length].
  replace (S (String.length w + S (String.length t)) - String.length w)
    with (S (S (String.length t))) by lia.
  cbn [fields_scan].
  assert (Hsp : forall x, space_width (String " " x) = 1) by reflexivity.
  rewrite Hsp. cbn [drop].
  destruct (rev_onto w EmptyString) as [|c r] eqn:Er;
    [now apply rev_onto_nonempty in Er|].
  rewrite <- Er. change (rev_onto w EmptyString) with (rev w).
  rewrite rev_involutive. eexists. reflexivity.
Qed.

End Words.

(* ===================================================================== *)
(** * Redirect lines and inline commands                                  *)
(* ===================================================================== *)

Section RedirectLines.

Local Open Scope nat_scope.

Lemma redirectParts_line (tag slot addr : string) (more : list string) :
  Forall (fun w => isWord w = true) (tag :: slot :: addr :: more) ->
  redirectParts (Join (tag :: slot :: addr :: more) " " +:+ CRLF) (tag +:+ " ")
  = (true, slot, addr).
Proof.
  intros Hall. unfold redirectParts.
  rewrite TrimSpace_Join by (discriminate || exact Hall).
  rewrite Fields_Join by exact Hall.
  rewrite Join_cons, <- sapp_assoc, HasPrefix_app. reflexivity.
Qed.

Lemma redirect_line_shape (tag slot addr : string) :
  (tag +:+ " ") +:+ slot +:+ " " +:+ addr +:+ CRLF
  = Join [tag; slot; addr] " " +:+ CRLF.
Proof. cbn [Join]. now rewrite !sapp_assoc. Qed.

Lemma IsMovedError_line (slot addr : string) :
  isWord slot = true -> isWord addr = true ->
  IsMovedError ("-MOVED " +:+ slot +:+ " " +:+ addr +:+ CRLF) = (true, slot, addr).
Proof.
  intros Hs Ha. change "-MOVED " with ("-MOVED" +:+ " ").
  rewrite redirect_line_shape. apply (redirectParts_line "-MOVED").
  repeat constructor; assumption.
Qed.

Lemma IsAskError_line (slot addr : string) :
  isWord slot = true -> isWord addr = true ->
  IsAskError ("-ASK " +:+ slot +:+ " " +:+ addr +:+ CRLF) = (true, slot, addr).
Proof.
  intros Hs Ha. change "-ASK " with ("-ASK" +:+ " ").
  rewrite redirect_line_shape. apply (redirectParts_line "-ASK").
  repeat constructor; assumption.
Qed.

(** ** Rewriting a redirect *)

Lemma rewriteParts_redirect (tag response newAddress slot addr : string) :
  isWord tag = true ->
  redirectParts response (tag +:+ " ") = (true, slot, addr) ->
  isWord newAddress = true ->
  exists more,
    Forall (fun w => isWord w = true) (tag :: slot :: newAddress :: more) /\
    rewriteParts response newAddress (tag +:+ " ")
    = Join (tag :: slot :: newAddress :: more) " " +:+ CRLF.
Proof.
  intros Htag H Hnew. unfold redirectParts in H. unfold rewriteParts.
  destruct (HasPrefix (TrimSpace response) (tag +:+ " ")) eqn:Hp; [|discriminate H].
  destruct (HasPrefix_split _ _ Hp) as [t Ht].
  pose proof (Fields_words (TrimSpace response)) as Hw.
  rewrite Ht, sapp_assoc in Hw, H |- *.
  change (" " +:+ t) with (String " " t) in *.
  destruct (Fields_first tag t Htag) as [rest Hf]. rewrite Hf in *.
  destruct rest as [|p1 [|p2 more]]; try discriminate H.
  injection H as -> ->. exists more.
  inversion Hw as [|? ? _ Hw1]; subst. inversion Hw1 as [|? ? Hslot Hw2]; subst.
  inversion Hw2 as [|? ? _ Hmore]; subst.
  split; [repeat constructor; assumption|]. reflexivity.
Qed.

(** ** Inline commands and blank lines *)

Lemma noSpace_noLF (w : string) : noSpace w = true -> noLF w = true.
Proof.
  induction w as [|c w IH]; [reflexivity|].
  cbn [noSpace noLF]. intros H. apply andb_prop in H as [Hc Hw].
  rewrite (IH Hw), andb_true_r. apply Nat.eqb_eq in Hc.
  destruct (Ascii.eqb_spec c LF) as [->|]; [discriminate Hc | reflexivity].
Qed.

Lemma noLF_Join (ws : list string) :
  Forall (fun w => isWord w = true) ws -> noLF (Join ws " ") = true.
Proof.
  induction ws as [|w ws IH]; intros Hall; [reflexivity|].
  inversion Hall as [|? ? Hw Hws]; subst.
  apply isWord_parts in Hw as [_ Hw].
  destruct ws as [|w2 ws]; [now apply noSpace_noLF|].
  rewrite Join_cons, !noLF_app, (noSpace_noLF w Hw), (IH Hws). reflexivity.
Qed.

Lemma ParseCommand_Join (ws : list string) (rest : string) :
  ws <> [] -> Forall (fun w => isWord w = true) ws ->
  HasPrefix (Join ws " ") "*" = false ->
  ParseCommand ((Join ws " " +:+ CRLF) +:+ rest) = (Ok ws, rest).
Proof.
  intros Hne Hall Hstar. unfold ParseCommand.
  assert (Hread : ReadString LF ((Join ws " " +:+ CRLF) +:+ rest)
                  = (Join ws " " +:+ CRLF, false, rest)).
  { replace ((Join ws " " +:+ CRLF) +:+ rest)
      with ((Join ws " " +:+ String CR EmptyString) +:+ String LF rest)
      by (unfold CRLF; rewrite !sapp_assoc; reflexivity).
    rewrite ReadString_line.
    - unfold CRLF. now rewrite sapp_assoc.
    - rewrite noLF_app, noLF_Join by exact Hall. reflexivity. }
  rewrite Hread, TrimSpace_Join by assumption.
  destruct (Join ws " ") as [|c s] eqn:Ej.
  - destruct ws as [|w ws]; [contradiction|].
    inversion Hall as [|? ? Hw _]; subst. apply isWord_parts in Hw as [Hw _].
    now apply (Join_nonempty w ws) in Hw.
  - cbn [HasPrefix] in Hstar.
    destruct (Ascii.eqb c "*"); [destruct s; discriminate Hstar|].
    rewrite <- Ej. now rewrite Fields_Join.
Qed.

Lemma trim_head_blank (s : string) :
  forall fuel, String.length s <= fuel ->
    forallb asciiSpace (list_ascii_of_string s) = true ->
    trim_head space_width fuel s = EmptyString.
Proof.
  induction s as [|c s IH]; intros fuel Hfuel Hs.
  - destruct fuel; reflexivity.
  - destruct fuel as [|fuel]; [simpl in Hfuel; lia|].
    cbn [list_ascii_of_string forallb] in Hs. apply andb_prop in Hs as [Hc Hs].
    cbn [trim_head]. unfold space_width at 1. rewrite Hc. cbn [drop].
    apply IH; [simpl in Hfuel; lia | exact Hs].
Qed.

Lemma blank_spaces (s : string) :
  blank s = true ->
  noLF s = true /\ forallb asciiSpace (list_ascii_of_string (s +:+ String LF EmptyString)) = true.
Proof.
  induction s as [|c s IH]; [split; reflexivity|].
  cbn [blank]. intros H. apply andb_prop in H as [H Hs]. apply andb_prop in H as [Hc Hlf].
  destruct (IH Hs) as [H1 H2]. rewrite sapp_cons.
  cbn [noLF list_ascii_of_string forallb]. now rewrite Hlf, H1, Hc, H2.
Qed.

Lemma ParseCommand_blank (spaces rest : string) :
  blank spaces = true ->
  ParseCommand (spaces +:+ String LF rest) = (Err (Errorf "空命令"), rest).
Proof.
  intros Hb. destruct (blank_spaces spaces Hb) as [Hlf Hsp].
  unfold ParseCommand. rewrite ReadString_line by exact Hlf.
  assert (Ht : TrimSpace (spaces +:+ String LF EmptyString) = EmptyString).
  { unfold TrimSpace, TrimLeftSpace. rewrite trim_head_blank by (lia || exact Hsp).
    reflexivity. }
  now rewrite Ht.
Qed.

End RedirectLines.

(** A redirect line of a backend, the slot and the address being words
    (bytes without white space), is recognised with its slot and its
    address: "-MOVED" by [IsMovedError], "-ASK" by [IsAskError]. *)
Theorem redirect_line_recognised (slot addr : string) :
  isWord slot = true -> isWord addr = true ->
  IsMovedError ("-MOVED " +:+ slot +:+ " " +:+ addr +:+ CRLF) = (true, slot, addr) /\
  IsAskError ("-ASK " +:+ slot +:+ " " +:+ addr +:+ CRLF) = (true, slot, addr).
Proof.
  intros Hs Ha. split; [now apply IsMovedError_line | now apply IsAskError_line].
Qed.

(** The redirect of the runs above. *)
Lemma redirect_line_recognised_witness :
  IsMovedError ("-MOVED " +:+ "12182" +:+ " " +:+ "10.0.0.1:7001" +:+ CRLF)
    = (true, "12182", "10.0.0.1:7001") /\
  IsAskError ("-ASK " +:+ "12182" +:+ " " +:+ "10.0.0.1:7001" +:+ CRLF)
    = (true, "12182", "10.0.0.1:7001").
Proof.
  apply (redirect_line_recognised "12182" "10.0.0.1:7001"); reflexivity.
Defined.

(** [RewriteMovedResponse] puts the new address in the place of the old
    one: what it returns for a MOVED redirect is again a MOVED redirect,
    for the same slot and to the new address (a word). The same holds of
    [RewriteAskResponse] and ASK redirects. *)
Theorem RewriteMovedResponse_redirects (response newAddress slot addr : string) :
  isWord newAddress = true ->
  (IsMovedError response = (true, slot, addr) ->
   IsMovedError (RewriteMovedResponse response newAddress) = (true, slot, newAddress)) /\
  (IsAskError response = (true, slot, addr) ->
   IsAskError (RewriteAskResponse response newAddress) = (true, slot, newAddress)).
Proof.
  intros Hnew. split; intros H.
  - destruct (rewriteParts_redirect "-MOVED" response newAddress slot addr
                eq_refl H Hnew) as (more & Hall & Hr).
    unfold RewriteMovedResponse, IsMovedError.
    change "-MOVED " with ("-MOVED" +:+ " "). rewrite Hr.
    now apply redirectParts_line.
  - destruct (rewriteParts_redirect "-ASK" response newAddress slot addr
                eq_refl H Hnew) as (more & Hall & Hr).
    unfold RewriteAskResponse, IsAskError.
    change "-ASK " with ("-ASK" +:+ " "). rewrite Hr.
    now apply redirectParts_line.
Qed.

(** The redirects of the runs above, rewritten to the address of a proxy. *)
Lemma RewriteMovedResponse_redirects_witness :
  IsMovedError (RewriteMovedResponse movedReply "proxy.local:6379")
    = (true, "12182", "proxy.local:6379") /\
  IsAskError (RewriteAskResponse askReply "proxy.local:6379")
    = (true, "12182", "proxy.local:6379").
Proof.
  split.
  - apply (proj1 (RewriteMovedResponse_redirects movedReply "proxy.local:6379" "12182"
                    "10.0.0.1:7001" eq_refl)).
    reflexivity.
  - apply (proj2 (RewriteMovedResponse_redirects askReply "proxy.local:6379" "12182"
                    "10.0.0.2:7002" eq_refl)).
    reflexivity.
Defined.

(** An inline command: a line of words separated by single spaces, the
    first of which does not start with an asterisk, is parsed into its
    words, and the bytes after the line are left for the next command. *)
Theorem ParseCommand_inline (ws : list string) (rest : string) :
  ws <> [] -> Forall (fun w => isWord w = true) ws ->
  HasPrefix (Join ws " ") "*" = false ->
  ParseCommand ((Join ws " " +:+ CRLF) +:+ rest) = (Ok ws, rest).
Proof. apply ParseCommand_Join. Qed.

Lemma ParseCommand_inline_witness :
  ParseCommand ((Join ["SET"; "k"; "v"] " " +:+ CRLF) +:+ ("PING" +:+ CRLF))
  = (Ok ["SET"; "k"; "v"], "PING" +:+ CRLF).
Proof.
  apply (ParseCommand_inline ["SET"; "k"; "v"] ("PING" +:+ CRLF)).
  - discriminate.
  - repeat constructor.
  - reflexivity.
Defined.

(** A line of the client that holds white space only (a bare line end, for
    one) is a protocol error: the session answers "-ERR 协议错误" and
    ends, whatever the client sent after the line (it waits for ever when
    the client does not take the answer: the write has no deadline). *)
Theorem sessionTurn_blank_line
    (unicodeToUpper : string -> string)
    (rangeNodes : gmap string ClusterNode -> list ClusterNode)
    (proxy : RedisClusterProxy) (spaces rest : string) (w : World) :
  blank spaces = true ->
  exists ok w',
    sessionTurn unicodeToUpper rangeNodes proxy (spaces +:+ String LF rest) w
    = (afterSend (ioUnit (fst (nextIo (net w)))) Return, w') /\
    trace w' = trace w ++ [EvClientWrite (FormatError "协议错误") ok].
Proof.
  intros Hb. unfold sessionTurn. rewrite ParseCommand_blank by exact Hb.
  unfold bind, ret. rewrite sendError_run, afterSend_sendError.
  eexists _, _. split; reflexivity.
Qed.

Lemma sessionTurn_blank_line_witness :
  exists ok w',
    sessionTurn (fun s => s) (fun _ => []) seedProxy
      (String CR EmptyString +:+ String LF (formatCommand getFoo)) (freshWorld [done])
      = (Return, w') /\
    trace w' = trace (freshWorld [done]) ++ [EvClientWrite (FormatError "协议错误") ok].
Proof.
  apply (sessionTurn_blank_line (fun s => s) (fun _ => []) seedProxy
           (String CR EmptyString) (formatCommand getFoo) (freshWorld [done])).
  reflexivity.
Defined.

(* ===================================================================== *)
(** * Slot ranges and node lines, read back                               *)
(* ===================================================================== *)

Section NodeLines.

Local Open Scope nat_scope.

Lemma Index_none (c : ascii) (s : string) :
  without c s = true -> Index s (String c EmptyString) = (-1)%Z.
Proof.
  induction s as [|a s IH]; [reflexivity|].
  simpl. intros H. apply andb_prop in H as [Ha Hs]. apply negb_true_iff in Ha.
  cbn [Index HasPrefix]. rewrite Ha, (IH Hs). reflexivity.
Qed.

Lemma digits_without_minus (ds : string) : allDigits ds = true -> without "-" ds = true.
Proof.
  induction ds as [|c ds IH]; [reflexivity|].
  simpl. intros H. apply andb_prop in H as [Hc Hs].
  destruct (isDigit_not_sign c Hc) as [Hm _]. now rewrite Hm, IH.
Qed.

Lemma slice_prefix (a b : string) : slice (a +:+ b) 0 (len a) = a.
Proof.
  unfold slice, len. rewrite Z.sub_0_r, Nat2Z.id. apply substring_app.
Qed.

Lemma slice_from_sep (a : string) (c : ascii) (b : string) :
  slice_from (a +:+ String c b) (len a + 1) = b.
Proof.
  replace (a +:+ String c b) with ((a +:+ String c EmptyString) +:+ b)
    by (now rewrite sapp_assoc).
  replace (len a + 1)%Z with (len (a +:+ String c EmptyString))
    by (unfold len; rewrite slength_app; cbn; lia).
  apply slice_from_app.
Qed.

Lemma len_not_minus_one (s : string) : (len s =? -1)%Z = false.
Proof. apply Z.eqb_neq. unfold len. lia. Qed.

(** [strings.Split] at a byte that the first part does not hold. *)
Lemma split_scan_step (fuel : nat) (a : string) (c : ascii) (b : string) :
  without c a = true ->
  split_scan (S fuel) (a +:+ String c b) (String c EmptyString)
  = a :: split_scan fuel b (String c EmptyString).
Proof.
  intros Ha. cbn [split_scan].
  rewrite (Index_first c a b Ha), len_not_minus_one, slice_prefix.
  change (len (String c EmptyString)) with 1%Z. now rewrite slice_from_sep.
Qed.

Lemma split_scan_last (fuel : nat) (c : ascii) (b : string) :
  without c b = true -> split_scan fuel b (String c EmptyString) = [b].
Proof.
  intros Hb. destruct fuel; [reflexivity|].
  cbn [split_scan]. now rewrite (Index_none c b Hb).
Qed.

Lemma parseSlotRange_single (a : Z) :
  (0 <= a <= maxInt)%Z -> parseSlotRange (Itoa a) = Some {| Start := a; End := a |}.
Proof.
  intros Ha. destruct (Itoa_digits a) as [Hd _]; [lia|].
  unfold parseSlotRange, Contains.
  rewrite (Index_none "-" _ (digits_without_minus _ Hd)). cbn [Z.eqb negb].
  now rewrite Atoi_Itoa.
Qed.

Lemma parseSlotRange_pair (a b : Z) :
  (0 <= a <= maxInt)%Z -> (0 <= b <= maxInt)%Z ->
  parseSlotRange (Itoa a +:+ "-" +:+ Itoa b) = Some {| Start := a; End := b |}.
Proof.
  intros Ha Hb.
  destruct (Itoa_digits a) as [Hda _]; [lia|].
  destruct (Itoa_digits b) as [Hdb _]; [lia|].
  change (Itoa a +:+ "-" +:+ Itoa b) with (Itoa a +:+ String "-" (Itoa b)).
  unfold parseSlotRange, Contains.
  rewrite (Index_first "-" _ _ (digits_without_minus _ Hda)), len_not_minus_one.
  cbn [negb]. unfold Split.
  rewrite slength_app. cbn [String.length]. rewrite Nat.add_succ_r.
  rewrite split_scan_step by now apply digits_without_minus.
  rewrite split_scan_last by now apply digits_without_minus.
  now rewrite !Atoi_Itoa.
Qed.

Lemma parseSlotRange_renderRange (r : SlotRange) :
  (0 <= Start r <= maxInt)%Z -> (0 <= End r <= maxInt)%Z ->
  parseSlotRange (renderRange r) = Some r.
Proof.
  intros Hs He. unfold renderRange. destruct r as [a b]. cbn [Start End] in *.
  destruct (Z.eqb_spec a b) as [->|_].
  - now apply parseSlotRange_single.
  - now apply parseSlotRange_pair.
Qed.

Lemma parseSlotSpecs_render (ranges : list SlotRange) :
  Forall (fun r => (0 <= Start r <= maxInt)%Z /\ (0 <= End r <= maxInt)%Z) ranges ->
  parseSlotSpecs (map renderRange ranges) = ranges.
Proof.
  induction 1 as [|r ranges [Hs He] _ IH]; [reflexivity|].
  cbn [map parseSlotSpecs]. now rewrite parseSlotRange_renderRange, IH.
Qed.

(** ** Words of digits *)

Lemma first_prefix_low (ps : list string) (c : ascii) (s : string) :
  forallb (fun p => highBytes p && negb (String.eqb p EmptyString)) ps = true ->
  (byte_val c <? 128)%Z = true ->
  first_prefix (String c s) ps = 0.
Proof.
  intros Hps Hc. induction ps as [|p ps IH]; [reflexivity|].
  simpl in Hps. apply andb_prop in Hps as [Hp Hps].
  apply andb_prop in Hp as [Hh Hne].
  cbn [first_prefix]. destruct p as [|x p]; [discriminate Hne|].
  cbn [HasPrefix]. destruct (Ascii.eqb_spec c x) as [->|]; [|now apply IH].
  simpl in Hh. apply andb_prop in Hh as [Hx _].
  apply Z.leb_le in Hx. apply Z.ltb_lt in Hc. lia.
Qed.

Lemma graphic_noSpace (s : string) : graphic s = true -> noSpace s = true.
Proof.
  induction s as [|c s IH]; [reflexivity|].
  cbn [graphic noSpace]. intros H. apply andb_prop in H as [H Hs].
  apply andb_prop in H as [Hc Hsp]. apply negb_true_iff in Hsp.
  rewrite (IH Hs), andb_true_r. unfold space_width. rewrite Hsp.
  now rewrite first_prefix_low by (apply unicodeSpaces_high || exact Hc).
Qed.

Lemma graphic_app (a b : string) : graphic (a +:+ b) = graphic a && graphic b.
Proof.
  induction a as [|c a IH]; [reflexivity|].
  rewrite sapp_cons. cbn [graphic]. now rewrite IH, andb_assoc.
Qed.

Lemma digits_graphic (ds : string) : allDigits ds = true -> graphic ds = true.
Proof.
  induction ds as [|c ds IH]; [reflexivity|].
  cbn [allDigits graphic]. intros H. apply andb_prop in H as [Hc Hs].
  rewrite (IH Hs), andb_true_r.
  destruct c as [[|] [|] [|] [|] [|] [|] [|] [|]]; try discriminate Hc; reflexivity.
Qed.

Lemma renderRange_word (r : SlotRange) :
  (0 <= Start r)%Z -> (0 <= End r)%Z -> isWord (renderRange r) = true.
Proof.
  intros Hs He. unfold renderRange.
  destruct (Itoa_digits (Start r) Hs) as [Hds Hne].
  destruct (Itoa_digits (End r) He) as [Hde _].
  unfold isWord. destruct (Start r =? End r)%Z.
  - rewrite (graphic_noSpace _ (digits_graphic _ Hds)), andb_true_r.
    destruct (Itoa (Start r)); [contradiction | reflexivity].
  - rewrite graphic_noSpace.
    + rewrite andb_true_r. destruct (Itoa (Start r)); [contradiction | reflexivity].
    + rewrite !graphic_app, (digits_graphic _ Hds), (digits_graphic _ Hde). reflexivity.
Qed.

(** ** The flags *)

Lemma Split_Join (flags : list string) (sep : ascii) :
  flags <> [] ->
  Forall (fun f => f <> EmptyString /\ without sep f = true) flags ->
  forall fuel,
    length flags <= S fuel ->
    split_scan fuel (Join flags (String sep EmptyString)) (String sep EmptyString) = flags.
Proof.
  induction flags as [|f flags IH]; intros Hne Hall fuel Hfuel; [contradiction|].
  inversion Hall as [|? ? [Hf Hw] Hrest]; subst.
  destruct flags as [|f2 flags].
  - cbn [Join]. now apply split_scan_last.
  - rewrite Join_cons.
    change (f +:+ String sep EmptyString +:+ Join (f2 :: flags) (String sep EmptyString))
      with (f +:+ String sep (Join (f2 :: flags) (String sep EmptyString))).
    destruct fuel as [|fuel]; [simpl in Hfuel; lia|].
    rewrite split_scan_step by exact Hw. f_equal.
    apply IH; [discriminate | exact Hrest | simpl in Hfuel |- *; lia].
Qed.

Lemma Join_length (flags : list string) (sep : string) :
  Forall (fun f => f <> EmptyString) flags ->
  length flags <= S (String.length (Join flags sep)).
Proof.
  induction flags as [|f flags IH]; intros Hall; [simpl; lia|].
  inversion Hall as [|? ? Hf Hrest]; subst.
  destruct flags as [|f2 flags]; [simpl; lia|].
  rewrite Join_cons, !slength_app. specialize (IH Hrest).
  destruct f; [contradiction|]. simpl in *. lia.
Qed.

Lemma Split_Join_flags (flags : list string) :
  flags <> [] ->
  Forall (fun f => f <> EmptyString /\ without "," f = true) flags ->
  Split (Join flags ",") "," = flags.
Proof.
  intros Hne Hall. unfold Split. apply (Split_Join flags "," Hne Hall).
  apply Join_length. eapply Forall_impl; [exact Hall|]. now intros f [Hf _].
Qed.

(** ** A node line *)

Lemma parseNodeLine_render (now : Z) (d : NodeLine) :
  lineWellFormed d ->
  parseNodeLine now (renderNodeLine d)
  = Some {| ID := lineId d;
            Address := lineAddress d;
            IsMaster := existsb (String.eqb "master") (lineFlags d);
            Slots := if existsb (String.eqb "master") (lineFlags d)
                     then lineSlots d else [];
            Flags := lineFlags d;
            Master := lineMaster d;
            Health := true;
            LastPing := now |}.
Proof.
  intros (Hwords & Haddr & Hne & Hflags & Hslots).
  unfold parseNodeLine, renderNodeLine.
  rewrite Fields_Join.
  2:{ apply Forall_app. split; [exact Hwords|].
      apply Forall_forall. intros w Hw. apply list_elem_of_In, in_map_iff in Hw.
      destruct Hw as (r & <- & Hr). apply list_elem_of_In in Hr.
      rewrite Forall_forall in Hslots. destruct (Hslots r Hr) as [[H1 _] [H2 _]].
      now apply renderRange_word. }
  cbn [app].
  change (lineAddress d +:+ "@" +:+ lineBusPort d)
    with (lineAddress d +:+ String "@" (lineBusPort d)).
  rewrite (Index_first "@" _ _ Haddr), len_not_minus_one. cbn [negb].
  rewrite slice_prefix, Split_Join_flags by assumption.
  now rewrite parseSlotSpecs_render.
Qed.

(** ** Arguments of a command *)

Lemma parseBulkString_lenient (arg junk rest : string) :
  (len arg <= maxInt)%Z -> noLF junk = true ->
  parseBulkString ((String "$" (Itoa (len arg)) +:+ CRLF)
                   +:+ arg +:+ junk +:+ String LF rest)
  = (Ok arg, rest).
Proof.
  intros Hlen Hjunk.
  assert (H0 : (0 <= len arg)%Z) by (unfold len; lia).
  destruct (Itoa_digits (len arg) H0) as [Hd Hne].
  unfold parseBulkString.
  rewrite ReadString_header by (reflexivity || exact Hd).
  rewrite TrimSpace_header by (auto || exact Hd).
  rewrite Atoi_Itoa by lia.
  destruct (Z.eqb_spec (len arg) (-1)) as [E|_]; [lia|].
  destruct (Z.eqb_spec (len arg) 0) as [E|E].
  - assert (arg = EmptyString) as ->.
    { destruct arg; [reflexivity | unfold len in E; simpl in E; lia]. }
    rewrite sapp_nil_l, ReadString_line by exact Hjunk. reflexivity.
  - destruct (Z.ltb_spec (len arg) 0) as [F|_]; [lia|].
    unfold len. rewrite Nat2Z.id, ReadFull_app, ReadString_line by exact Hjunk.
    reflexivity.
Qed.

End NodeLines.

(** [parseSlotRange] reads back the slot ranges as CLUSTER NODES prints
    them, a single slot and a range "start-end", for all numbers of Go
    that are not negative: also those above 16383, and ranges whose start
    is past their end. *)
Theorem parseSlotRange_round_trip (a b : Z) :
  0 <= a <= maxInt -> 0 <= b <= maxInt ->
  parseSlotRange (Itoa a) = Some {| Start := a; End := a |} /\
  parseSlotRange (Itoa a +:+ "-" +:+ Itoa b) = Some {| Start := a; End := b |}.
Proof.
  intros Ha Hb. split; [now apply parseSlotRange_single | now apply parseSlotRange_pair].
Qed.

Lemma parseSlotRange_round_trip_witness :
  parseSlotRange (Itoa 5461) = Some {| Start := 5461; End := 5461 |} /\
  parseSlotRange (Itoa 5461 +:+ "-" +:+ Itoa 10922) = Some {| Start := 5461; End := 10922 |}.
Proof.
  apply (parseSlotRange_round_trip 5461 10922); unfold maxInt; lia.
Defined.

(** [parseNodeLine] reads a node line of CLUSTER NODES back: the id, the
    address without the port of the cluster bus, the flags, the id of the
    master; the node is a master when "master" is one of its flags, and
    only then does it get the slot ranges of the line. *)
Theorem parseNodeLine_round_trip (now : Z) (d : NodeLine) :
  lineWellFormed d ->
  parseNodeLine now (renderNodeLine d)
  = Some {| ID := lineId d;
            Address := lineAddress d;
            IsMaster := existsb (String.eqb "master") (lineFlags d);
            Slots := if existsb (String.eqb "master") (lineFlags d)
                     then lineSlots d else [];
            Flags := lineFlags d;
            Master := lineMaster d;
            Health := true;
            LastPing := now |}.
Proof. apply parseNodeLine_render. Qed.

Lemma parseNodeLine_round_trip_witness :
  parseNodeLine 0 (renderNodeLine firstMaster)
  = Some {| ID := lineId firstMaster;
            Address := lineAddress firstMaster;
            IsMaster := existsb (String.eqb "master") (lineFlags firstMaster);
            Slots := if existsb (String.eqb "master") (lineFlags firstMaster)
                     then lineSlots firstMaster else [];
            Flags := lineFlags firstMaster;
            Master := lineMaster firstMaster;
            Health := true;
            LastPing := 0 |}.
Proof.
  apply (parseNodeLine_round_trip 0 firstMaster).
  unfold lineWellFormed. split; [repeat constructor|].
  split; [reflexivity|]. split; [discriminate|].
  split; repeat constructor; try discriminate; unfold maxInt; cbn; lia.
Defined.

(** [parseBulkString] does not look at what ends an argument: after the
    bytes that the length announces it passes over everything up to the
    next line feed. The argument is returned as if CR LF had followed it. *)
Theorem parseBulkString_passes_over_terminator (arg junk rest : string) :
  len arg <= maxInt -> noLF junk = true ->
  parseBulkString ((String "$" (Itoa (len arg)) +:+ CRLF)
                   +:+ arg +:+ junk +:+ String LF rest)
  = (Ok arg, rest).
Proof. apply parseBulkString_lenient. Qed.

Lemma parseBulkString_passes_over_terminator_witness :
  parseBulkString ((String "$" (Itoa (len "foo")) +:+ CRLF)
                   +:+ "foo" +:+ "bar$3" +:+ String LF ("$1" +:+ CRLF))
  = (Ok "foo", "$1" +:+ CRLF).
Proof.
  apply (parseBulkString_passes_over_terminator "foo" "bar$3" ("$1" +:+ CRLF)).
  - vm_compute. discriminate.
  - reflexivity.
Defined.

(* ===================================================================== *)
(** * The slot table after a refresh                                      *)
(* ===================================================================== *)

Section SlotTable.

(** The loop over a range writes the cells of the range and no other. *)
Lemma fillSlots_lookup (fuel : nat) :
  forall slot end_ addr arr arr',
    fillSlots fuel slot end_ addr arr = Ok arr' ->
    forall i, arr' !! i = if (slot <=? i) && (i <=? end_) then Some addr else arr !! i.
Proof.
  induction fuel as [|fuel IH]; intros slot end_ addr arr arr' H i;
    cbn [fillSlots] in H;
    destruct (Z.leb_spec slot end_) as [Hle|Hgt]; try discriminate H.
  - injection H as <-.
    destruct (Z.leb_spec slot i); destruct (Z.leb_spec i end_); cbn [andb]; try reflexivity; lia.
  - unfold slots_set in H. destruct (in_bounds slot); [|discriminate H].
    rewrite (IH _ _ _ _ _ H i).
    destruct (Z.eq_dec i slot) as [->|Hne].
    + rewrite lookup_insert_eq.
      destruct (Z.leb_spec (slot + 1) slot); destruct (Z.leb_spec slot slot);
        destruct (Z.leb_spec slot end_); cbn [andb]; try reflexivity; lia.
    + rewrite lookup_insert_ne by congruence.
      destruct (Z.leb_spec (slot + 1) i); destruct (Z.leb_spec slot i);
        destruct (Z.leb_spec i end_); cbn [andb]; try reflexivity; lia.
  - injection H as <-.
    destruct (Z.leb_spec slot i); destruct (Z.leb_spec i end_); cbn [andb]; try reflexivity; lia.
Qed.

Lemma assignSlots_lookup (ranges : list SlotRange) (addr : string) :
  forall arr arr',
    assignSlots ranges addr arr = Ok arr' ->
    forall i, arr' !! i = if existsb (covers i) ranges then Some addr else arr !! i.
Proof.
  induction ranges as [|r ranges IH]; intros arr arr' H i; cbn [assignSlots] in H.
  - injection H as <-. reflexivity.
  - destruct (fillSlots fillFuel (Start r) (End r) addr arr) as [arr1|e| | |] eqn:E;
      try discriminate H.
    rewrite (IH _ _ H i), (fillSlots_lookup _ _ _ _ _ _ E i).
    cbn [existsb]. unfold covers at 2.
    destruct (existsb (covers i) ranges); [now rewrite orb_true_r|].
    now rewrite orb_false_r.
Qed.

Lemma ownerAfter_cons (slot : Z) (node : ClusterNode) (listed : list ClusterNode)
    (current : string) :
  ownerAfter slot (node :: listed) current
  = ownerAfter slot listed (if claims slot node then Address node else current).
Proof.
  unfold ownerAfter. rewrite filter_cons.
  destruct (claims slot node) eqn:Ec.
  - destruct (decide (true = true)) as [_|Hn]; [|contradiction].
    destruct (filter _ listed) as [|n l] eqn:Ef; [reflexivity|].
    rewrite last_cons_cons. destruct (last (n :: l)) eqn:El; [reflexivity|].
    apply last_None in El. discriminate El.
  - destruct (decide (false = true)) as [Hn|_]; [discriminate|]. reflexivity.
Qed.

(** The node lines, one after the other: each cell holds the address of
    the last master line that lists its slot. *)
Lemma parseLines_lookup (now : Z) (lines : list string) :
  forall ns arr ns' arr',
    parseLines now lines ns arr = Ok (ns', arr') ->
    forall i,
      default EmptyString (arr' !! i)
      = ownerAfter i
          (omap (fun line =>
                   if String.eqb (TrimSpace line) EmptyString then None
                   else parseNodeLine now line) lines)
          (default EmptyString (arr !! i)).
Proof.
  induction lines as [|line lines IH]; intros ns arr ns' arr' H i;
    cbn [parseLines] in H.
  - injection H as <- <-. reflexivity.
  - cbn [omap list_omap]. destruct (String.eqb (TrimSpace line) EmptyString).
    { exact (IH _ _ _ _ H i). }
    destruct (parseNodeLine now line) as [node|]; [|exact (IH _ _ _ _ H i)].
    rewrite ownerAfter_cons. unfold claims.
    destruct (IsMaster node); cbn [andb]; [|exact (IH _ _ _ _ H i)].
    destruct (assignSlots (Slots node) (Address node) arr) as [arr1|e| | |] eqn:E;
      try discriminate H.
    rewrite (IH _ _ _ _ H i), (assignSlots_lookup _ _ _ _ E i).
    now destruct (existsb (covers i) (Slots node)).
Qed.

Lemma parseClusterNodes_slots (now : Z) (cm cm' : ClusterManager) (response : string) :
  parseClusterNodes now cm response = Ok cm' ->
  config cm' = config cm /\
  forall i, default EmptyString (slots cm' !! i) = ownerOf i (listedNodes now response).
Proof.
  unfold parseClusterNodes.
  destruct (parseLines now _ ∅ ∅) as [[ns arr]|e| | |] eqn:E; try discriminate.
  intros H. injection H as <-. cbn [config slots]. split; [reflexivity|].
  intros i. rewrite (parseLines_lookup _ _ _ _ _ _ E i), lookup_empty. reflexivity.
Qed.

Lemma GetNodeForSlot_after (now : Z) (cm cm' : ClusterManager) (response : string)
    (slot : Z) :
  parseClusterNodes now cm response = Ok cm' ->
  0 <= slot < 16384 ->
  GetNodeForSlot cm' slot = Ok (ownerOf slot (listedNodes now response)).
Proof.
  intros H Hs. destruct (parseClusterNodes_slots _ _ _ _ H) as [_ Hl].
  unfold GetNodeForSlot, slots_get, in_bounds, numSlots.
  destruct (Z.leb_spec 0 slot); [|lia]. destruct (Z.ltb_spec slot 16384); [|lia].
  cbn [andb]. now rewrite Hl.
Qed.

Lemma GetNodeForKey_after (now : Z) (cm cm' : ClusterManager) (response key : string) :
  parseClusterNodes now cm response = Ok cm' ->
  ownerOf (calculateSlot key) (listedNodes now response) <> EmptyString ->
  GetNodeForKey cm' key = Ok (ownerOf (calculateSlot key) (listedNodes now response)).
Proof.
  intros H Hne. destruct (parseClusterNodes_slots _ _ _ _ H) as [_ Hl].
  pose proof (calculateSlot_range key) as Hr.
  unfold GetNodeForKey, slots_get, in_bounds, numSlots.
  destruct (Z.leb_spec 0 (calculateSlot key)); [|lia].
  destruct (Z.ltb_spec (calculateSlot key) 16384); [|lia].
  cbn [andb]. rewrite Hl.
  destruct (String.eqb_spec (ownerOf (calculateSlot key) (listedNodes now response))
              EmptyString); [contradiction | reflexivity].
Qed.

End SlotTable.

(** After [parseClusterNodes] every slot of the table holds the address of
    the last master line of the topology that lists the slot, and the
    empty string when no master line does: this is what [GetNodeForSlot]
    returns. *)
Theorem parseClusterNodes_slot_owner (now : Z) (cm cm' : ClusterManager)
    (response : string) (slot : Z) :
  parseClusterNodes now cm response = Ok cm' ->
  0 <= slot < 16384 ->
  GetNodeForSlot cm' slot = Ok (ownerOf slot (listedNodes now response)).
Proof. apply GetNodeForSlot_after. Qed.

(** The slot of "foo" in a cluster of two masters. *)
Lemma parseClusterNodes_slot_owner_witness :
  GetNodeForSlot smallCluster 12182 = Ok (ownerOf 12182 (listedNodes 0 smallTopology)).
Proof.
  apply (parseClusterNodes_slot_owner 0 (NewClusterManager defaultConfig) smallCluster
           smallTopology 12182).
  - vm_compute. reflexivity.
  - lia.
Defined.

(** A command whose verb is routed by key goes, after a refresh of the
    shard map, to the master that the topology names for the slot of the
    key (its second argument), whatever the other arguments. *)
Theorem selectBackendNode_follows_topology
    (unicodeToUpper : string -> string)
    (rangeNodes : gmap string ClusterNode -> list ClusterNode)
    (proxy : RedisClusterProxy) (now : Z) (cm' : ClusterManager) (response : string)
    (verb key : string) (args : list string) :
  parseClusterNodes now (clusterManager proxy) response = Ok cm' ->
  isKeyRouted (ToUpper unicodeToUpper verb) = true ->
  ownerOf (calculateSlot key) (listedNodes now response) <> EmptyString ->
  selectBackendNode unicodeToUpper rangeNodes (withClusterManager proxy cm')
    (verb :: key :: args)
  = Ok (ownerOf (calculateSlot key) (listedNodes now response)).
Proof.
  intros Hparse Hverb Hne.
  unfold selectBackendNode. cbn [clusterManager withClusterManager]. rewrite Hverb.
  unfold selectNodeByKey. cbn [clusterManager withClusterManager].
  rewrite (GetNodeForKey_after _ _ _ _ _ Hparse Hne).
  destruct (String.eqb_spec (ownerOf (calculateSlot key) (listedNodes now response))
              EmptyString); [contradiction | reflexivity].
Qed.

(** GET and MGET on keys tagged "foo", after a refresh from a cluster of
    two masters. *)
Lemma selectBackendNode_follows_topology_witness :
  selectBackendNode (fun s => s) (fun _ => [])
    (withClusterManager seedProxy smallCluster) ["mget"; "{foo}a"; "{foo}b"]
  = Ok (ownerOf (calculateSlot "{foo}a") (listedNodes 0 smallTopology)).
Proof.
  apply (selectBackendNode_follows_topology (fun s => s) (fun _ => []) seedProxy 0
           smallCluster smallTopology "mget" "{foo}a" ["{foo}b"]).
  - vm_compute. reflexivity.
  - vm_compute. reflexivity.
  - vm_compute. discriminate.
Defined.

(* ===================================================================== *)
(** * Refreshing the shard map                                            *)
(* ===================================================================== *)

Section Refresh.

Local Open Scope nat_scope.

Lemma Atoi_minus (n : Z) :
  (1 <= n <= maxInt)%Z -> Atoi (String "-" (Itoa n)) = Some (- n)%Z.
Proof.
  intros Hn. destruct (Itoa_digits n) as [Hd Hne]; [lia|].
  unfold Atoi. change (Ascii.eqb "-" "-") with true. cbn [orb].
  rewrite parse_digits_Itoa by lia.
  destruct (Itoa n); [contradiction|].
  assert (Hr : ((minInt <=? - n) && (- n <=? maxInt))%Z = true).
  { apply andb_true_intro. unfold minInt, maxInt in *. split; lia. }
  now rewrite Hr.
Qed.

Lemma TrimSpace_minus (ds : string) :
  ds <> EmptyString -> allDigits ds = true ->
  TrimSpace (String "-" ds +:+ CRLF) = String "-" ds.
Proof.
  intros Hne Hd. apply TrimSpace_CRLF; [discriminate | reflexivity |].
  rewrite rev_cons. destruct (rev_last_digit ds Hne Hd) as (d & r & -> & Hdd).
  rewrite sapp_cons. now apply digit_not_space_last.
Qed.

Lemma readClusterNodesResponse_header (burst : nat) (ds rest : string) :
  allDigits ds = true \/ (exists ds', ds = String "-" ds' /\ allDigits ds' = true) ->
  readClusterNodesResponse burst ((String "$" ds +:+ CRLF) +:+ rest)
  = match Atoi (TrimSpace (ds +:+ CRLF)) with
    | None => Err (Errorf ("无效的长度: " +:+ TrimSpace (ds +:+ CRLF)))
    | Some length =>
        if (length <? 0)%Z then Panic
        else match Read burst (Z.to_nat length) rest with
             | (Ok data, _) => Ok data
             | (Err e, _) => Err e
             | (Panic, _) => Panic
             | (Blocked, _) => Blocked
             | (OutOfFuel, _) => OutOfFuel
             end
    end.
Proof.
  intros Hds. unfold readClusterNodesResponse.
  assert (Hread : ReadString LF ((String "$" ds +:+ CRLF) +:+ rest)
                  = (String "$" ds +:+ CRLF, false, rest)).
  { destruct Hds as [Hd | (ds' & -> & Hd)].
    - now apply ReadString_header.
    - apply ReadString_status; [reflexivity|].
      cbn [noLF]. now rewrite allDigits_noLF. }
  rewrite Hread. change (HasPrefix (String "$" ds +:+ CRLF) "$") with true.
  cbn [negb]. now rewrite slice_header.
Qed.

Lemma substring_zero (s : string) : String.substring 0 0 s = EmptyString.
Proof. destruct s; reflexivity. Qed.

(** The body of a bulk reply, as one [Read] leaves it in the slice. *)
Lemma readClusterNodesResponse_body (burst : nat) (body rest : string) :
  (len body <= maxInt)%Z ->
  readClusterNodesResponse burst ((String "$" (Itoa (len body)) +:+ CRLF) +:+ body +:+ rest)
  = Ok (String.substring 0 (Nat.min (String.length body) (Nat.max 1 burst)) body
        +:+ zeros (String.length body - Nat.min (String.length body) (Nat.max 1 burst))).
Proof.
  intros Hlen.
  assert (H0 : (0 <= len body)%Z) by (unfold len; lia).
  destruct (Itoa_digits (len body) H0) as [Hd Hne].
  rewrite readClusterNodesResponse_header by (left; exact Hd).
  rewrite TrimSpace_digits, Atoi_Itoa by (assumption || lia).
  destruct (Z.ltb_spec (len body) 0) as [F|_]; [lia|].
  unfold len. rewrite Nat2Z.id. unfold Read.
  destruct (String.length body) as [|n] eqn:En.
  - cbn. now rewrite substring_zero.
  - rewrite slength_app, En.
    replace (Nat.min (S n) (Nat.min (Nat.max 1 burst) (S n + String.length rest)))
      with (Nat.min (S n) (Nat.max 1 burst)) by lia.
    destruct (Nat.min (S n) (Nat.max 1 burst)) as [|k] eqn:Ek; [lia|].
    rewrite substring_more by lia. reflexivity.
Qed.

Lemma readClusterNodesResponse_negative (burst : nat) (n : Z) (rest : string) :
  (1 <= n <= maxInt)%Z ->
  readClusterNodesResponse burst ((String "$" (String "-" (Itoa n)) +:+ CRLF) +:+ rest)
  = Panic.
Proof.
  intros Hn. destruct (Itoa_digits n) as [Hd Hne]; [lia|].
  rewrite readClusterNodesResponse_header by (right; eauto).
  rewrite TrimSpace_minus, Atoi_minus by assumption.
  destruct (Z.ltb_spec (- n) 0); [reflexivity | lia].
Qed.

(** ** The loop over the seed nodes *)

Lemma refreshFrom_first (now : Z) (cm cm' : ClusterManager) (failed : list SeedAnswer)
    (answer : SeedAnswer) (later : list SeedAnswer) :
  forall seeds,
    length failed < length seeds ->
    Forall (fun a => exists e, fetchClusterInfoFromNode now cm a = Err e) failed ->
    fetchClusterInfoFromNode now cm answer = Ok cm' ->
    refreshFrom now cm seeds (failed ++ answer :: later) = (Ok tt, setLastUpdate cm' now).
Proof.
  induction failed as [|a failed IH]; intros seeds Hlen Hfail Hok.
  - destruct seeds as [|s seeds]; [simpl in Hlen; lia|].
    cbn [refreshFrom app]. now rewrite Hok.
  - destruct seeds as [|s seeds]; [simpl in Hlen; lia|].
    inversion Hfail as [|? ? [e He] Hrest]; subst.
    cbn [refreshFrom app tail]. rewrite He.
    apply IH; [simpl in Hlen; lia | exact Hrest | exact Hok].
Qed.

Lemma refreshFrom_none (now : Z) (cm : ClusterManager) (answers : list SeedAnswer) :
  forall seeds,
    length seeds <= length answers ->
    Forall (fun a => exists e, fetchClusterInfoFromNode now cm a = Err e) answers ->
    refreshFrom now cm seeds answers
    = (Err (Errorf "无法从任何节点获取集群信息"), cm).
Proof.
  induction answers as [|a answers IH]; intros seeds Hlen Hfail.
  - destruct seeds; [reflexivity | simpl in Hlen; lia].
  - destruct seeds as [|s seeds]; [reflexivity|].
    inversion Hfail as [|? ? [e He] Hrest]; subst.
    cbn [refreshFrom tail]. rewrite He. apply IH; [simpl in Hlen; lia | exact Hrest].
Qed.

Lemma Sub_small (t u : Z) :
  (minInt <= t - u <= maxInt)%Z -> Sub t u = (t - u)%Z.
Proof. unfold Sub. lia. Qed.

(** ** The statistics *)

Lemma countNodes_sum (visit : list ClusterNode) :
  forall m s,
    (fst (countNodes visit m s) + snd (countNodes visit m s) = m + s + Z.of_nat (length visit))%Z.
Proof.
  induction visit as [|node visit IH]; intros m s; cbn [countNodes length].
  - cbn. lia.
  - destruct (IsMaster node); rewrite IH; lia.
Qed.

End Refresh.

(** [readClusterNodesResponse] hands the body of the reply to the parser
    as one [Read] left it: a string of the length that the header
    announces, which starts with the bytes that were at hand and is zero
    from there on. The body is whole only when all of it came with that
    one read. *)
Theorem readClusterNodesResponse_one_read (burst : nat) (body rest : string) :
  len body <= maxInt ->
  readClusterNodesResponse burst ((String "$" (Itoa (len body)) +:+ CRLF) +:+ body +:+ rest)
  = Ok (String.substring 0 (Nat.min (String.length body) (Nat.max 1 burst)) body
        +:+ zeros (String.length body - Nat.min (String.length body) (Nat.max 1 burst))).
Proof. apply readClusterNodesResponse_body. Qed.

(** The topology of two masters, of which 100 bytes are at hand: the
    first line is cut, the lines after it are lost. *)
Lemma readClusterNodesResponse_one_read_witness :
  readClusterNodesResponse 100
    ((String "$" (Itoa (len smallTopology)) +:+ CRLF) +:+ smallTopology +:+ CRLF)
  = Ok (String.substring 0 (Nat.min (String.length smallTopology) (Nat.max 1 100))
          smallTopology
        +:+ zeros (String.length smallTopology
                   - Nat.min (String.length smallTopology) (Nat.max 1 100))).
Proof.
  apply (readClusterNodesResponse_one_read 100 smallTopology CRLF).
  vm_compute. discriminate.
Defined.

(** A header that announces a negative length (the null bulk "$-1" is
    one) makes [readClusterNodesResponse] panic: the slice for the body is
    made with that length. *)
Theorem readClusterNodesResponse_negative_length (burst : nat) (n : Z) (rest : string) :
  1 <= n <= maxInt ->
  readClusterNodesResponse burst ((String "$" (String "-" (Itoa n)) +:+ CRLF) +:+ rest)
  = Panic.
Proof. apply readClusterNodesResponse_negative. Qed.

Lemma readClusterNodesResponse_negative_length_witness :
  readClusterNodesResponse 0 ((String "$" (String "-" (Itoa 1)) +:+ CRLF) +:+ EmptyString)
  = Panic.
Proof.
  apply (readClusterNodesResponse_negative_length 0 1 EmptyString).
  unfold maxInt. lia.
Defined.

(** [RefreshClusterInfo] goes through the seed nodes in the order of the
    configuration: the attempts that fail leave the manager as it was, the
    first node that answers gives the new shard map, the nodes after it
    are not asked. The map is stamped with the time of the refresh, and is
    not stale for the 30 seconds that follow. *)
Theorem RefreshClusterInfo_first_answer (now : Z) (cm cm' : ClusterManager)
    (failed : list SeedAnswer) (answer : SeedAnswer) (later : list SeedAnswer) :
  (length failed < length (RedisNodes (config cm)))%nat ->
  Forall (fun a => exists e, fetchClusterInfoFromNode now cm a = Err e) failed ->
  fetchClusterInfoFromNode now cm answer = Ok cm' ->
  RefreshClusterInfo now cm (failed ++ answer :: later) = (Ok tt, setLastUpdate cm' now) /\
  forall t, now <= t <= now + 30 * 1000000000 ->
    IsClusterInfoStale t (setLastUpdate cm' now) = false.
Proof.
  intros Hlen Hfail Hok. split.
  - now apply refreshFrom_first.
  - intros t Ht. unfold IsClusterInfoStale. cbn [lastUpdate setLastUpdate].
    rewrite Sub_small by (unfold minInt, maxInt; lia).
    rewrite Z.gtb_ltb. apply Z.ltb_ge. lia.
Qed.

(** The first seed cannot be reached, the second one answers with an
    error reply, the third one sends the topology. *)
Lemma RefreshClusterInfo_first_answer_witness :
  RefreshClusterInfo 0 (NewClusterManager defaultConfig)
    ([DialFails "connection refused"; Sends ("-ERR unknown command" +:+ CRLF) 100]
     ++ Sends (bulkReply smallTopology) 4096 :: [])
  = (Ok tt, setLastUpdate smallCluster 0) /\
  forall t, 0 <= t <= 0 + 30 * 1000000000 ->
    IsClusterInfoStale t (setLastUpdate smallCluster 0) = false.
Proof.
  apply (RefreshClusterInfo_first_answer 0 (NewClusterManager defaultConfig)
           smallCluster
           [DialFails "connection refused"; Sends ("-ERR unknown command" +:+ CRLF) 100]
           (Sends (bulkReply smallTopology) 4096) []).
  - vm_compute. lia.
  - repeat constructor; eexists; vm_compute; reflexivity.
  - vm_compute. reflexivity.
Defined.

(** The counts of [GetClusterStats] add up: every node of the map is
    counted once, as a master or as a replica. *)
Theorem GetClusterStats_counts (cm : ClusterManager) (visit : list ClusterNode) :
  visit ≡ₚ (map_to_list (nodes cm)).*2 ->
  master_nodes (GetClusterStats cm visit) + slave_nodes (GetClusterStats cm visit)
  = total_nodes (GetClusterStats cm visit).
Proof.
  intros Hvisit. unfold GetClusterStats.
  pose proof (countNodes_sum visit 0 0) as Hsum.
  destruct (countNodes visit 0 0) as [m s]. cbn in *.
  rewrite Hsum, Hvisit, length_fmap, length_map_to_list. lia.
Qed.

Lemma GetClusterStats_counts_witness :
  master_nodes (GetClusterStats smallCluster (map_to_list (nodes smallCluster)).*2)
  + slave_nodes (GetClusterStats smallCluster (map_to_list (nodes smallCluster)).*2)
  = total_nodes (GetClusterStats smallCluster (map_to_list (nodes smallCluster)).*2).
Proof.
  apply (GetClusterStats_counts smallCluster (map_to_list (nodes smallCluster)).*2).
  reflexivity.
Defined.

(* ===================================================================== *)
(** * The pools, closed and bounded                                       *)
(* ===================================================================== *)

Section PoolClose.

Lemma closeAll_run (conns : list Conn) (w : World) :
  closeAll conns w =
    (tt, {| pools := pools w; net := net w; nextConn := nextConn w;
            trace := trace w ++ map EvClose conns |}).
Proof.
  revert w. induction conns as [|c conns IH]; intros w.
  - cbn. rewrite app_nil_r. now destruct w.
  - cbn [closeAll]. unfold bind, closeConn, emit. rewrite IH. cbn.
    now rewrite <- app_assoc.
Qed.

Lemma closedConns_closes (conns : list Conn) : closedConns (map EvClose conns) = conns.
Proof.
  induction conns as [|c conns IH]; [reflexivity|].
  change (closedConns (map EvClose (c :: conns)))
    with (c :: closedConns (map EvClose conns)).
  now rewrite IH.
Qed.

Lemma closePools_run (visit : list NodePool) (w : World) :
  closePools visit w =
    (tt, {| pools := pools w; net := net w; nextConn := nextConn w;
            trace := trace w ++
              map EvClose (concat (map (fun np => buf (connections np)) visit)) |}).
Proof.
  revert w. induction visit as [|np visit IH]; intros w.
  - cbn. rewrite app_nil_r. now destruct w.
  - cbn [closePools]. unfold bind, NodePool_Close. rewrite closeAll_run, IH. cbn.
    now rewrite map_app, app_assoc.
Qed.

Lemma ConnectionPool_Close_run (rangePools : gmap string NodePool -> list NodePool)
    (w : World) :
  ConnectionPool_Close rangePools w =
    (tt, {| pools := ∅; net := net w; nextConn := nextConn w;
            trace := trace w ++
              map EvClose
                (concat (map (fun np => buf (connections np)) (rangePools (pools w)))) |}).
Proof. unfold ConnectionPool_Close. now rewrite closePools_run. Qed.

Lemma ReturnConnection_no_pool (addr : string) (c : Conn) (w : World) :
  pools w !! addr = None ->
  ReturnConnection addr c w =
    (tt, {| pools := pools w; net := net w; nextConn := nextConn w;
            trace := trace w ++ [EvClose c] |}).
Proof.
  intros H. unfold ReturnConnection, bind, getPool. now rewrite H.
Qed.

(** ** The bounds *)

Lemma createConnection_bounds (np : NodePool) (w : World) :
  withinBounds np -> withinBounds (snd (fst (createConnection np w))).
Proof.
  intros [Hq Hc]. unfold createConnection.
  destruct (Z.geb_spec (currentSize np) (maxSize np)) as [Hfull|Hroom].
  - cbn. now split.
  - unfold bind, io.
    destruct (net w) as [|[d|m|] rest]; cbn; split; try assumption;
      unfold setCurrentSize; cbn; lia.
Qed.

Lemma NodePool_GetConnection_bounds (np : NodePool) (w : World) :
  withinBounds np -> withinBounds (snd (fst (NodePool_GetConnection np w))).
Proof.
  intros [Hq Hc]. unfold NodePool_GetConnection.
  destruct (buf (connections np)) as [|conn rest] eqn:Eb.
  - apply createConnection_bounds. now split; [rewrite Eb; cbn; lia|].
  - unfold bind.
    assert (Hnp : withinBounds (setConnections np rest)).
    { split; [cbn; cbn in Hq; lia | exact Hc]. }
    destruct (isConnectionValid conn w) as [[[|]|e| | |] w1]; try exact Hnp.
    now apply createConnection_bounds.
Qed.

Lemma NodePool_ReturnConnection_bounds (np : NodePool) (conn : option Conn) (w : World) :
  withinBounds np -> withinBounds (fst (NodePool_ReturnConnection np conn w)).
Proof.
  intros [Hq Hc]. unfold NodePool_ReturnConnection.
  destruct conn as [c|]; [|now split].
  destruct (Nat.ltb_spec (length (buf (connections np))) (cap (connections np))) as [Hlt|Hge].
  - unfold ret, withinBounds, setConnections. cbn [fst buf cap connections currentSize maxSize].
    split; [rewrite length_app; cbn [length]; lia | exact Hc].
  - unfold bind, closeConn, emit, ret, withinBounds, setCurrentSize.
    cbn [fst buf cap connections currentSize maxSize]. split; [exact Hq | lia].
Qed.

End PoolClose.

Lemma range_all (m : gmap string NodePool) (addr : string) (np : NodePool) :
  m !! addr = Some np -> In np (map_to_list m).*2.
Proof.
  intros Hnp. apply in_map_iff. exists (addr, np). split; [reflexivity|].
  apply list_elem_of_In, elem_of_map_to_list. exact Hnp.
Qed.

(** [ConnectionPool.Close] closes every idle socket of every pool and
    forgets the pools. A socket that was on loan at that time and is
    handed back next, before a new pool is made for an address, is closed:
    it is not put into a queue again. *)
Theorem ConnectionPool_Close_closes_idle
    (rangePools : gmap string NodePool -> list NodePool) (w : World) :
  (forall addr np, pools w !! addr = Some np -> In np (rangePools (pools w))) ->
  pools (closed rangePools w) = ∅ /\
  (forall addr np c,
     pools w !! addr = Some np -> In c (buf (connections np)) ->
     In c (closedConns (trace (closed rangePools w)))) /\
  (forall addr c,
     pools (snd (ReturnConnection addr c (closed rangePools w))) = ∅ /\
     closedConns (trace (snd (ReturnConnection addr c (closed rangePools w))))
     = closedConns (trace (closed rangePools w)) ++ [c]).
Proof.
  intros Hvisit. unfold closed. rewrite ConnectionPool_Close_run. cbn [snd pools trace].
  split; [reflexivity|]. split.
  - intros addr np c Hnp Hc.
    rewrite closedConns_app, closedConns_closes. apply in_or_app. right.
    apply in_concat. exists (buf (connections np)). split; [|exact Hc].
    apply in_map_iff. exists np. split; [reflexivity | now apply (Hvisit addr)].
  - intros addr c. rewrite ReturnConnection_no_pool by apply lookup_empty.
    cbn [snd pools trace]. split; [reflexivity|].
    now rewrite (closedConns_app (_ ++ _) [EvClose c]).
Qed.

(** Two pools with three idle sockets, and the socket 3 on loan. *)
Lemma ConnectionPool_Close_closes_idle_witness :
  pools (closed (fun m => (map_to_list m).*2) twoPools) = ∅ /\
  (forall addr np c,
     pools twoPools !! addr = Some np -> In c (buf (connections np)) ->
     In c (closedConns (trace (closed (fun m => (map_to_list m).*2) twoPools)))) /\
  (forall addr c,
     pools (snd (ReturnConnection addr c (closed (fun m => (map_to_list m).*2) twoPools))) = ∅ /\
     closedConns
       (trace (snd (ReturnConnection addr c (closed (fun m => (map_to_list m).*2) twoPools))))
     = closedConns (trace (closed (fun m => (map_to_list m).*2) twoPools)) ++ [c]).
Proof.
  refine (ConnectionPool_Close_closes_idle (fun m => (map_to_list m).*2) twoPools _).
  intros addr np. apply range_all.
Defined.

(** A pool keeps its bounds: whatever the network does, after an
    acquisition and after a release the idle queue still fits the buffer
    of the channel and the count of sockets does not pass the maximum. *)
Theorem NodePool_keeps_bounds (np : NodePool) (conn : option Conn) (w : World) :
  withinBounds np ->
  withinBounds (snd (fst (NodePool_GetConnection np w))) /\
  withinBounds (fst (NodePool_ReturnConnection np conn w)).
Proof.
  intros H. split;
    [now apply NodePool_GetConnection_bounds | now apply NodePool_ReturnConnection_bounds].
Qed.

Lemma NodePool_keeps_bounds_witness :
  withinBounds (snd (fst (NodePool_GetConnection (newNodePool "10.0.0.1:7000")
                            (freshWorld probeFailureScript)))) /\
  withinBounds (fst (NodePool_ReturnConnection (newNodePool "10.0.0.1:7000") (Some 0%nat)
                       (freshWorld probeFailureScript))).
Proof.
  apply (NodePool_keeps_bounds (newNodePool "10.0.0.1:7000") (Some 0%nat)
           (freshWorld probeFailureScript)).
  unfold withinBounds. cbn. split; lia.
Defined.

(* ===================================================================== *)
(** * Replies that are passed on                                          *)
(* ===================================================================== *)

Section Forwarding.

Variable unicodeToUpper : string -> string.

Lemma executeCommandWithRedirect_passes_on (proxy : RedisClusterProxy)
    (command : list string) (addr : string) (count : Z) (w w1 : World) (c : Conn)
    (response : string) :
  count <= 5 ->
  GetConnection addr w = (Ok c, w1) ->
  ioUnit (fst (nextIo (net w1))) = Ok tt ->
  ioReply (fst (nextIo (snd (nextIo (net w1))))) = Ok response ->
  shouldAutoRedirect unicodeToUpper proxy command = false \/
  (fst (fst (IsMovedError response)) = false /\ fst (fst (IsAskError response)) = false) ->
  exists np,
    pools w1 !! addr = Some np /\
    executeCommandWithRedirect unicodeToUpper proxy command addr count w
    = (ioUnit (fst (nextIo (net (dispatched w1 c command)))),
       match fst (nextIo (net (dispatched w1 c command))) with
       | IoHang => forwarded w1 c command response
       | _ => returned addr c np (forwarded w1 c command response)
       end).
Proof.
  intros Hc Hget Hwr Hrd Hplain.
  destruct (GetConnection_pool addr w) as [np Hnp]. rewrite Hget in Hnp. cbn [snd] in Hnp.
  exists np. split; [exact Hnp|].
  rewrite (executeCommandWithRedirect_plain unicodeToUpper proxy command addr count w w1 c
             response Hc Hget Hwr Hrd Hplain).
  rewrite clientWrite_run. unfold handBack. cbn [fst snd].
  fold (after (dispatched w1 c command)
          (EvClientWrite response (ioOk (fst (nextIo (net (dispatched w1 c command))))))).
  fold (forwarded w1 c command response).
  assert (Hnp' : pools (forwarded w1 c command response) !! addr = Some np) by exact Hnp.
  rewrite (ReturnConnection_run addr c _ np Hnp'). cbn [snd]. fold (returned addr c np).
  now destruct (fst (nextIo (net (dispatched w1 c command)))).
Qed.

End Forwarding.

(** A reply that is not a redirect, and any reply when redirects are not
    followed for the command (auto_redirect is off, or the command is
    CLUSTER, INFO, PING or COMMAND), reaches the client byte for byte: the
    command is written once to the backend, the reply is read and written
    to the client, and the socket goes back to its pool, queued when the
    idle queue has room and closed when it has none. When the client does
    not take the reply the call waits for ever, the socket in its hand. *)
Theorem executeCommandWithRedirect_forwards
    (unicodeToUpper : string -> string) (proxy : RedisClusterProxy)
    (command : list string) (addr : string) (count : Z) (w w1 : World) (c : Conn)
    (response : string) :
  count <= 5 ->
  GetConnection addr w = (Ok c, w1) ->
  ioUnit (fst (nextIo (net w1))) = Ok tt ->
  ioReply (fst (nextIo (snd (nextIo (net w1))))) = Ok response ->
  shouldAutoRedirect unicodeToUpper proxy command = false \/
  (fst (fst (IsMovedError response)) = false /\ fst (fst (IsAskError response)) = false) ->
  exists np,
    pools w1 !! addr = Some np /\
    executeCommandWithRedirect unicodeToUpper proxy command addr count w
    = (ioUnit (fst (nextIo (net (dispatched w1 c command)))),
       match fst (nextIo (net (dispatched w1 c command))) with
       | IoHang => forwarded w1 c command response
       | _ => returned addr c np (forwarded w1 c command response)
       end).
Proof. apply executeCommandWithRedirect_passes_on. Qed.

(** PING is answered with a MOVED redirect: the redirect goes to the
    client, and the socket 0 into the queue of its pool. *)
Lemma executeCommandWithRedirect_forwards_witness :
  exists np,
    pools (snd (GetConnection "127.0.0.1:7000" (freshWorld [done; done; IoOk movedReply; done])))
      !! "127.0.0.1:7000" = Some np /\
    executeCommandWithRedirect (fun s => s) seedProxy ["PING"] "127.0.0.1:7000" 0
      (freshWorld [done; done; IoOk movedReply; done])
    = (Ok tt,
       returned "127.0.0.1:7000" 0%nat np
         (forwarded
            (snd (GetConnection "127.0.0.1:7000"
                    (freshWorld [done; done; IoOk movedReply; done])))
            0%nat ["PING"] movedReply)).
Proof.
  apply (executeCommandWithRedirect_forwards (fun s => s) seedProxy ["PING"]
           "127.0.0.1:7000" 0 (freshWorld [done; done; IoOk movedReply; done])
           (snd (GetConnection "127.0.0.1:7000"
                   (freshWorld [done; done; IoOk movedReply; done])))
           0%nat movedReply).
  - lia.
  - vm_compute. reflexivity.
  - vm_compute. reflexivity.
  - vm_compute. reflexivity.
  - left. vm_compute. reflexivity.
Defined.

(* ===================================================================== *)
(** * The configuration, validated                                        *)
(* ===================================================================== *)

Section Validation.

Lemma LastIndexByte_none (c : ascii) (s : string) :
  without c s = true -> LastIndexByte s c = -1.
Proof.
  induction s as [|a s IH]; [reflexivity|].
  simpl. intros H. apply andb_prop in H as [Ha Hs]. apply negb_true_iff in Ha.
  now rewrite (IH Hs), Ha.
Qed.

Lemma LastIndexByte_last (c : ascii) (a b : string) :
  without c b = true -> LastIndexByte (a +:+ String c b) c = len a.
Proof.
  intros Hb. induction a as [|x a IH].
  - rewrite sapp_nil_l. cbn [LastIndexByte].
    now rewrite (LastIndexByte_none c b Hb), Ascii.eqb_refl.
  - rewrite sapp_cons. cbn [LastIndexByte]. rewrite IH, len_not_minus_one.
    unfold len. cbn [String.length]. lia.
Qed.

Lemma without_app (c : ascii) (a b : string) :
  without c (a +:+ b) = without c a && without c b.
Proof.
  induction a as [|x a IH]; [reflexivity|].
  rewrite sapp_cons. cbn [without]. now rewrite IH, andb_assoc.
Qed.

Lemma slice_from_zero (s : string) : slice_from s 0 = s.
Proof.
  unfold slice_from, slice, len. rewrite Z.sub_0_r, Nat2Z.id. apply substring_all.
Qed.

Lemma SplitHostPort_plain (host port : string) :
  plain host = true -> plain port = true ->
  SplitHostPort (host +:+ ":" +:+ port) = Some (host, port).
Proof.
  unfold plain. intros Hh Hp.
  apply andb_prop in Hh as [Hh Hh3]. apply andb_prop in Hh as [Hh1 Hh2].
  apply andb_prop in Hp as [Hp Hp3]. apply andb_prop in Hp as [Hp1 Hp2].
  change (host +:+ ":" +:+ port) with (host +:+ String ":" port).
  unfold SplitHostPort.
  rewrite (LastIndexByte_last ":" host port Hp1).
  destruct (Z.ltb_spec (len host) 0) as [F|_]; [unfold len in F; lia|].
  assert (Hb : match host +:+ String ":" port with
               | String c _ => Ascii.eqb c "["
               | EmptyString => false
               end = false).
  { destruct host as [|c host]; [reflexivity|].
    rewrite sapp_cons. cbn [without] in Hh2.
    apply andb_prop in Hh2 as [Hc _]. now apply negb_true_iff in Hc. }
  rewrite Hb, slice_prefix. unfold IndexByte.
  rewrite (Index_none ":" host Hh1). cbn [Z.leb Z.compare].
  rewrite slice_from_zero.
  rewrite (Index_none "[") by (rewrite without_app; cbn [without]; now rewrite Hh2, Hp2).
  rewrite (Index_none "]") by (rewrite without_app; cbn [without]; now rewrite Hh3, Hp3).
  cbn [Z.leb Z.compare]. now rewrite slice_from_sep.
Qed.

Lemma SplitHostPort_no_colon (node : string) :
  without ":" node = true -> SplitHostPort node = None.
Proof.
  intros H. unfold SplitHostPort. now rewrite (LastIndexByte_none ":" node H).
Qed.

Lemma ValidateConfig_plain (c : Config) :
  RedisNodes c <> [] ->
  Forall (fun node => exists host port,
            node = host +:+ ":" +:+ port /\ plain host = true /\ plain port = true)
         (RedisNodes c) ->
  ValidateConfig c = Ok tt.
Proof.
  intros Hne Hall. unfold ValidateConfig.
  destruct (RedisNodes c) as [|n ns] eqn:En; [contradiction|].
  rewrite <- En in *. clear En Hne.
  assert (Hfind : List.find (fun node => match SplitHostPort node with
                                         | None => true
                                         | Some _ => false
                                         end) (RedisNodes c) = None).
  { induction Hall as [|node nodes (host & port & -> & Hh & Hp) _ IH]; [reflexivity|].
    cbn [List.find]. now rewrite SplitHostPort_plain. }
  now rewrite Hfind.
Qed.

Lemma ValidateConfig_no_colon (c : Config) (before after : list string) (node : string) :
  RedisNodes c = before ++ node :: after ->
  Forall (fun n => SplitHostPort n <> None) before ->
  without ":" node = true ->
  ValidateConfig c = Err (Errorf ("无效的Redis节点地址: " +:+ node)).
Proof.
  intros Hnodes Hbefore Hnode. unfold ValidateConfig. rewrite Hnodes.
  assert (Hfind : List.find (fun node => match SplitHostPort node with
                                         | None => true
                                         | Some _ => false
                                         end) (before ++ node :: after) = Some node).
  { clear Hnodes. induction Hbefore as [|n before Hn _ IH].
    - cbn [app List.find]. now rewrite SplitHostPort_no_colon.
    - cbn [app List.find]. destruct (SplitHostPort n); [exact IH | contradiction]. }
  destruct (before ++ node :: after) as [|a l] eqn:E; [destruct before; discriminate E|].
  now rewrite Hfind.
Qed.

End Validation.

(** [ValidateConfig] accepts every list of seed nodes that is not empty
    and whose addresses have the shape host:port, the host and the port
    holding neither a colon nor a bracket. Nothing more is asked of the
    port: it need not be a number, and it may be empty, as may the host. *)
Theorem ValidateConfig_accepts_host_port (c : Config) :
  RedisNodes c <> [] ->
  Forall (fun node => exists host port,
            node = host +:+ ":" +:+ port /\ plain host = true /\ plain port = true)
         (RedisNodes c) ->
  ValidateConfig c = Ok tt.
Proof. apply ValidateConfig_plain. Qed.

(** A configuration of two seeds: a port that is a name, and an address
    that is a colon and nothing else. *)
Lemma ValidateConfig_accepts_host_port_witness :
  ValidateConfig {| ProxyPort := 6379; RedisNodes := ["redis-1:redis"; ":"];
                    AutoRedirect := true; LogLevel := "info"; LogFile := EmptyString |}
  = Ok tt.
Proof.
  apply (ValidateConfig_accepts_host_port
           {| ProxyPort := 6379; RedisNodes := ["redis-1:redis"; ":"];
              AutoRedirect := true; LogLevel := "info"; LogFile := EmptyString |}).
  - discriminate.
  - repeat constructor.
    + exists "redis-1", "redis". repeat split; reflexivity.
    + exists EmptyString, EmptyString. repeat split; reflexivity.
Defined.

(** [ValidateConfig] refuses a list of seed nodes in which an address
    without a colon comes after addresses that are accepted, and names
    that address in the error. *)
Theorem ValidateConfig_rejects_missing_port (c : Config) (before after : list string)
    (node : string) :
  RedisNodes c = before ++ node :: after ->
  Forall (fun n => SplitHostPort n <> None) before ->
  without ":" node = true ->
  ValidateConfig c = Err (Errorf ("无效的Redis节点地址: " +:+ node)).
Proof. apply ValidateConfig_no_colon. Qed.

Lemma ValidateConfig_rejects_missing_port_witness :
  ValidateConfig {| ProxyPort := 6379; RedisNodes := ["127.0.0.1:7000"; "localhost"];
                    AutoRedirect := true; LogLevel := "info"; LogFile := EmptyString |}
  = Err (Errorf ("无效的Redis节点地址: " +:+ "localhost")).
Proof.
  apply (ValidateConfig_rejects_missing_port
           {| ProxyPort := 6379; RedisNodes := ["127.0.0.1:7000"; "localhost"];
              AutoRedirect := true; LogLevel := "info"; LogFile := EmptyString |}
           ["127.0.0.1:7000"] [] "localhost").
  - reflexivity.
  - repeat constructor. vm_compute. discriminate.
  - reflexivity.
Defined.

(* ===================================================================== *)
(** * The session comes to an end                                         *)
(* ===================================================================== *)

Section Ends.

Variable unicodeToUpper : string -> string.
Variable rangeNodes : gmap string ClusterNode -> list ClusterNode.

(** ** The primitives *)













(** ** The pool *)





(** ** The calls *)




(** ** The turns of the session *)





End Ends.




